(** * Verification of the blog's content pipeline

    The program under study has two pieces of logic:

    - [formatDate] (the date helper): splits a [YYYY-MM-DD] string, builds a
      [Date] from local calendar fields and renders it with
      [toLocaleDateString('en-US', ...)];
    - the two content collections of [src/content.config.ts]: the [blog] and
      [projects] schemas, written with zod.

    Both are a few lines that call into the ECMAScript runtime and into zod,
    so the embedding consists of a model of the built-ins they call
    (module [ES], following ECMA-262 and ECMA-402 clause by clause, module
    [Zod], following zod's parsers, and module [URL], following the parser
    of the URL Standard that zod's [url] check calls) and of the program's
    own definitions, transcribed on top of them. *)

From Stdlib Require Import ZArith NArith QArith Qreduction Qabs.
From Stdlib Require Import String Ascii DecimalString DecimalN DecimalPos.
From Stdlib Require Import Bool List Lia.
Import ListNotations.

Local Open Scope Z_scope.
Set Warnings "-register-all".

(* ===================================================================== *)
(** * ECMAScript built-ins                                                *)
(* ===================================================================== *)

Module ES.

(** ** Strings

    An ECMAScript string is a sequence of UTF-16 code units.  Code units are
    kept as natural numbers; [js] embeds an ASCII literal. *)

Definition codeunit := N.
Definition jsstring := list codeunit.

Definition js (s : string) : jsstring :=
  map N_of_ascii (list_ascii_of_string s).

Definition cu (a : ascii) : codeunit := N_of_ascii a.

Fixpoint jsstring_eqb (a b : jsstring) : bool :=
  match a, b with
  | [], [] => true
  | x :: a', y :: b' => N.eqb x y && jsstring_eqb a' b'
  | _, _ => false
  end.

Definition isEmpty {A} (l : list A) : bool :=
  match l with [] => true | _ => false end.

(** [String.prototype.split] called with a separator of one code unit and no
    limit: the substrings between the occurrences of the separator, in
    order; a string without the separator gives the one-element array. *)
Fixpoint splitAcc (sep : codeunit) (s acc : jsstring) : list jsstring :=
  match s with
  | [] => [rev acc]
  | c :: s' =>
      if N.eqb c sep then rev acc :: splitAcc sep s' []
      else splitAcc sep s' (c :: acc)
  end.

Definition split (sep : codeunit) (s : jsstring) : list jsstring :=
  splitAcc sep s [].

(** ** Numbers

    A Number is NaN, an infinity or a finite binary64 value, the latter kept
    as the rational it denotes, in lowest terms.  The sign of zero is not
    kept: none of the operations below observes it. *)

Inductive number :=
| NaN
| Inf (negative : bool)
| Fin (q : Q).

Definition number_eqb (a b : number) : bool :=
  match a, b with
  | NaN, NaN => true
  | Inf s, Inf s' => Bool.eqb s s'
  | Fin (n # d), Fin (n' # d') => Z.eqb n n' && Pos.eqb d d'
  | _, _ => false
  end.

Definition isFinite (a : number) : bool :=
  match a with Fin _ => true | _ => false end.

(** [2 ^ e] as a rational, for any integer [e]. *)
Definition pow2 (e : Z) : Q :=
  if 0 <=? e then inject_Z (2 ^ e) else 1 # Z.to_pos (2 ^ (- e)).

Definition pow10 (e : Z) : Q :=
  if 0 <=? e then inject_Z (10 ^ e) else 1 # Z.to_pos (10 ^ (- e)).

(** The integer [l] with [2 ^ l <= n / d < 2 ^ (l + 1)]. *)
Definition ilog2 (n d : positive) : Z :=
  let l := Z.log2 (Zpos n) - Z.log2 (Zpos d) in
  let lhs := if 0 <=? l then Zpos n else Zpos n * 2 ^ (- l) in
  let rhs := if 0 <=? l then Zpos d * 2 ^ l else Zpos d in
  if lhs <? rhs then l - 1 else l.

(** The integer nearest to [n / d], ties to even ([0 <= n], [0 < d]). *)
Definition roundHalfEven (n d : Z) : Z :=
  let f := n / d in
  let r := n mod d in
  match 2 * r ?= d with
  | Lt => f
  | Gt => f + 1
  | Eq => if Z.even f then f else f + 1
  end.

(** Rounding of the positive rational [n / d] to binary64, to nearest, ties
    to even: 53 significant bits, least exponent -1074 (subnormals),
    overflow to infinity from [2 ^ 1024]. *)
Definition roundPos (negative : bool) (n d : positive) : number :=
  let e := Z.max (ilog2 n d - 52) (-1074) in
  let num := if 0 <=? e then Zpos n else Zpos n * 2 ^ (- e) in
  let den := if 0 <=? e then Zpos d * 2 ^ e else Zpos d in
  let m := roundHalfEven num den in
  if (971 <? e) || ((e =? 971) && (m =? 2 ^ 53)) then Inf negative
  else Fin (Qred (inject_Z (if negative then - m else m) * pow2 e)%Q).

(** The Number value for a real number (ECMA-262, 6.1.6.1). *)
Definition round64 (x : Q) : number :=
  match Qred x with
  | Z0 # _ => Fin 0
  | Zpos n # d => roundPos false n d
  | Zneg n # d => roundPos true n d
  end.

(** The Number value for a mathematical integer. *)
Definition F (z : Z) : number := round64 (inject_Z z).

Definition num_neg (a : number) : number :=
  match a with
  | NaN => NaN
  | Inf s => Inf (negb s)
  | Fin x => Fin (Qred (- x)%Q)
  end.

(** Number::add, Number::subtract, Number::multiply. *)
Definition num_add (a b : number) : number :=
  match a, b with
  | NaN, _ | _, NaN => NaN
  | Inf s, Inf s' => if Bool.eqb s s' then Inf s else NaN
  | Inf s, Fin _ | Fin _, Inf s => Inf s
  | Fin x, Fin y => round64 (x + y)%Q
  end.

Definition num_sub (a b : number) : number := num_add a (num_neg b).

Definition Qnegative (x : Q) : bool := Qnum x <? 0.
Definition Qzero (x : Q) : bool := Qnum x =? 0.

Definition num_mul (a b : number) : number :=
  match a, b with
  | NaN, _ | _, NaN => NaN
  | Inf s, Inf s' => Inf (xorb s s')
  | Inf s, Fin x | Fin x, Inf s =>
      if Qzero x then NaN else Inf (xorb s (Qnegative x))
  | Fin x, Fin y => round64 (x * y)%Q
  end.

(** ToIntegerOrInfinity (7.1.5): NaN gives 0, a finite value is truncated
    towards zero. *)
Inductive intOrInf :=
| IInf (negative : bool)
| IInt (z : Z).

Definition truncate (x : Q) : Z := Z.quot (Qnum x) (Zpos (Qden x)).

Definition ToIntegerOrInfinity (a : number) : intOrInf :=
  match a with
  | NaN => IInt 0
  | Inf s => IInf s
  | Fin x => IInt (truncate x)
  end.

(** ** StringToNumber (7.1.4.1.1)

    The argument is parsed as a StringNumericLiteral: optional white space,
    then nothing (the value is 0), a binary, octal or hexadecimal integer
    literal, or a signed decimal literal ([Infinity], digits with an optional
    fraction and exponent), then optional white space.  Anything else is
    NaN. *)

Definition isStrWhiteSpaceChar (c : codeunit) : bool :=
  (existsb (N.eqb c)
     [9; 10; 11; 12; 13; 32; 160; 5760; 8232; 8233; 8239; 8287; 12288; 65279]
   || ((8192 <=? c) && (c <=? 8202)))%N.

Fixpoint trimStart (s : jsstring) : jsstring :=
  match s with
  | c :: s' => if isStrWhiteSpaceChar c then trimStart s' else s
  | [] => []
  end.

Definition trim (s : jsstring) : jsstring :=
  rev (trimStart (rev (trimStart s))).

Definition isDigit (c : codeunit) : bool := ((48 <=? c) && (c <=? 57))%N.

(** The value of a digit in a literal of the given radix. *)
Definition digitIn (radix : N) (c : codeunit) : option N :=
  let v :=
    (if (48 <=? c) && (c <=? 57) then Some (c - 48)
     else if (97 <=? c) && (c <=? 102) then Some (c - 87)
     else if (65 <=? c) && (c <=? 70) then Some (c - 55)
     else None)%N in
  match v with
  | Some d => if (d <? radix)%N then Some d else None
  | None => None
  end.

(** The mathematical value of a non-empty run of digits; [None] when the
    run is empty or holds another character. *)
Fixpoint digitsValue (radix : N) (s : jsstring) (acc : N) : option N :=
  match s with
  | [] => Some acc
  | c :: s' =>
      match digitIn radix c with
      | Some d => digitsValue radix s' (radix * acc + d)%N
      | None => None
      end
  end.

Definition integerValue (radix : N) (s : jsstring) : option N :=
  match s with
  | [] => None
  | _ => digitsValue radix s 0%N
  end.

(** The longest prefix of decimal digits and what follows it. *)
Fixpoint spanDigits (s : jsstring) : jsstring * jsstring :=
  match s with
  | c :: s' =>
      if isDigit c then let (ds, r) := spanDigits s' in (c :: ds, r)
      else ([], s)
  | [] => ([], [])
  end.

(** NonDecimalIntegerLiteral: [0b], [0o] or [0x] (either case) and digits. *)
Definition nonDecimalIntegerLiteral (s : jsstring) : option N :=
  match s with
  | 48%N :: p :: ds =>
      if (N.eqb p 98 || N.eqb p 66)%N then integerValue 2 ds
      else if (N.eqb p 111 || N.eqb p 79)%N then integerValue 8 ds
      else if (N.eqb p 120 || N.eqb p 88)%N then integerValue 16 ds
      else None
  | _ => None
  end.

(** ExponentPart, up to the end of the literal. *)
Definition exponentPart (s : jsstring) : option Z :=
  match s with
  | c :: r =>
      if (N.eqb c 101 || N.eqb c 69)%N then
        let '(negative, ds) :=
          match r with
          | 43%N :: r' => (false, r')
          | 45%N :: r' => (true, r')
          | _ => (false, r)
          end in
        match integerValue 10 ds with
        | Some v => Some (if negative then - Z.of_N v else Z.of_N v)
        | None => None
        end
      else None
  | [] => None
  end.

(** StrUnsignedDecimalLiteral; the result is the rounded value, negated
    when [negative]. *)
Definition strUnsignedDecimalLiteral (negative : bool) (s : jsstring)
  : option number :=
  if jsstring_eqb s (js "Infinity") then Some (Inf negative)
  else
    let (ip, r1) := spanDigits s in
    let '(dot, fp, r2) :=
      match r1 with
      | 46%N :: r => let (fp, r2) := spanDigits r in (true, fp, r2)
      | _ => (false, [], r1)
      end in
    if negb (isEmpty ip) || (dot && negb (isEmpty fp)) then
      let e := match r2 with [] => Some 0 | _ => exponentPart r2 end in
      match digitsValue 10 (ip ++ fp) 0%N, e with
      | Some m, Some e =>
          let mv := (inject_Z (Z.of_N m) * pow10 (e - Z.of_nat (length fp)))%Q in
          Some (round64 (if negative then (- mv)%Q else mv))
      | _, _ => None
      end
    else None.

Definition strDecimalLiteral (s : jsstring) : option number :=
  match s with
  | 43%N :: r => strUnsignedDecimalLiteral false r
  | 45%N :: r => strUnsignedDecimalLiteral true r
  | _ => strUnsignedDecimalLiteral false s
  end.

Definition StringToNumber (s : jsstring) : number :=
  match trim s with
  | [] => Fin 0
  | t =>
      match nonDecimalIntegerLiteral t with
      | Some v => F (Z.of_N v)
      | None =>
          match strDecimalLiteral t with
          | Some v => v
          | None => NaN
          end
      end
  end.

(** [Number(value)] for a string argument, as [map(Number)] applies it to
    the pieces of a split string (the index and array arguments that [map]
    also passes are ignored by [Number]). *)
Definition Number (s : jsstring) : number := StringToNumber s.

(** ToNumber on a value that is a Number or [undefined] ([None]). *)
Definition ToNumber (v : option number) : number :=
  match v with
  | Some n => n
  | None => NaN
  end.

(** ** Completion records: a built-in returns normally or throws. *)

Inductive error := RangeError | TypeError.

Inductive completion (A : Type) :=
| Normal (a : A)
| Throw (e : error).
Arguments Normal {A} a.
Arguments Throw {A} e.

Definition bind {A B} (c : completion A) (k : A -> completion B)
  : completion B :=
  match c with
  | Normal a => k a
  | Throw e => Throw e
  end.

(** ** Day number and time within day (ECMA-262, 21.4.1)

    Time values are integral numbers of milliseconds since the epoch; the
    calendar functions below take them as integers. *)

Definition msPerDay : Z := 86400000.
Definition msPerHour : Z := 3600000.
Definition msPerMinute : Z := 60000.
Definition msPerSecond : Z := 1000.
Definition maxTime : Z := 8640000000000000.

Definition Day (t : Z) : Z := t / msPerDay.
Definition TimeWithinDay (t : Z) : Z := t mod msPerDay.

Definition DaysInYear (y : Z) : Z :=
  if y mod 400 =? 0 then 366
  else if y mod 100 =? 0 then 365
  else if y mod 4 =? 0 then 366
  else 365.

Definition DayFromYear (y : Z) : Z :=
  365 * (y - 1970) + (y - 1969) / 4 - (y - 1901) / 100 + (y - 1601) / 400.

Definition TimeFromYear (y : Z) : Z := msPerDay * DayFromYear y.

(** YearFromTime: the largest [y] with [TimeFromYear y <= t].  It is found
    from the mean length of a year, an estimate that is off by at most one
    ([YearFromTime_spec] below proves the defining property). *)
Definition YearFromTime (t : Z) : Z :=
  let y := 1970 + (400 * Day t) / 146097 in
  if t <? TimeFromYear y then y - 1
  else if TimeFromYear (y + 1) <=? t then y + 1
  else y.

Definition DayWithinYear (t : Z) : Z := Day t - DayFromYear (YearFromTime t).

Definition InLeapYear (t : Z) : Z :=
  if DaysInYear (YearFromTime t) =? 366 then 1 else 0.

Definition MonthFromTime (t : Z) : Z :=
  let leap := InLeapYear t in
  let d := DayWithinYear t in
  if d <? 31 then 0
  else if d <? 59 + leap then 1
  else if d <? 90 + leap then 2
  else if d <? 120 + leap then 3
  else if d <? 151 + leap then 4
  else if d <? 181 + leap then 5
  else if d <? 212 + leap then 6
  else if d <? 243 + leap then 7
  else if d <? 273 + leap then 8
  else if d <? 304 + leap then 9
  else if d <? 334 + leap then 10
  else 11.

Definition DateFromTime (t : Z) : Z :=
  let leap := InLeapYear t in
  let d := DayWithinYear t in
  match MonthFromTime t with
  | 0 => d + 1
  | 1 => d - 30
  | 2 => d - 58 - leap
  | 3 => d - 89 - leap
  | 4 => d - 119 - leap
  | 5 => d - 150 - leap
  | 6 => d - 180 - leap
  | 7 => d - 211 - leap
  | 8 => d - 242 - leap
  | 9 => d - 272 - leap
  | 10 => d - 303 - leap
  | _ => d - 333 - leap
  end.

(** ** MakeTime, MakeDay, MakeDate, MakeFullYear, TimeClip (21.4.1.27-31) *)

Definition toInt (a : number) : Z :=
  match ToIntegerOrInfinity a with
  | IInt z => z
  | IInf _ => 0
  end.

Definition MakeTime (hour min sec ms : number) : number :=
  if isFinite hour && isFinite min && isFinite sec && isFinite ms then
    let h := F (toInt hour) in
    let m := F (toInt min) in
    let s := F (toInt sec) in
    let milli := F (toInt ms) in
    num_add
      (num_add (num_add (num_mul h (F msPerHour)) (num_mul m (F msPerMinute)))
               (num_mul s (F msPerSecond)))
      milli
  else NaN.

(** The number of days from the first of January to the first day of month
    [mn] (0 to 11). *)
Definition daysBeforeMonth (mn : Z) (daysInYear : Z) : Z :=
  let leap := if daysInYear =? 366 then 1 else 0 in
  match mn with
  | 0 => 0
  | 1 => 31
  | 2 => 59 + leap
  | 3 => 90 + leap
  | 4 => 120 + leap
  | 5 => 151 + leap
  | 6 => 181 + leap
  | 7 => 212 + leap
  | 8 => 243 + leap
  | 9 => 273 + leap
  | 10 => 304 + leap
  | _ => 334 + leap
  end.

(** MakeDay.  Step 8 asks for the time value [t] of the first day of month
    [mn] of year [ym]: it is [msPerDay] times the day number computed here,
    and there is none when that lies outside the range of time values. *)
Definition MakeDay (year month date : number) : number :=
  if isFinite year && isFinite month && isFinite date then
    let y := F (toInt year) in
    let m := toInt month in
    let dt := F (toInt date) in
    let ym := num_add y (F (m / 12)) in
    if isFinite ym then
      let mn := m mod 12 in
      let first := DayFromYear (toInt ym) + daysBeforeMonth mn (DaysInYear (toInt ym)) in
      if Z.abs (msPerDay * first) <=? maxTime then
        num_sub (num_add (F first) dt) (F 1)
      else NaN
    else NaN
  else NaN.

Definition MakeDate (day time : number) : number :=
  if isFinite day && isFinite time then
    let tv := num_add (num_mul day (F msPerDay)) time in
    if isFinite tv then tv else NaN
  else NaN.

Definition MakeFullYear (year : number) : number :=
  match year with
  | NaN => NaN
  | _ =>
      match ToIntegerOrInfinity year with
      | IInt truncated =>
          if (0 <=? truncated) && (truncated <=? 99) then F (1900 + truncated)
          else F truncated
      | IInf s => Inf s
      end
  end.

Definition TimeClip (time : number) : number :=
  match time with
  | Fin x =>
      if Qle_bool (Qabs x) (inject_Z maxTime) then F (truncate x) else NaN
  | _ => NaN
  end.

(** ** The host's time zone (21.4.1.20-26)

    A named time zone is its offset from UTC, in milliseconds, as a function
    of the instant: an initial offset and the transitions, in increasing
    order of their instants, each with the offset in force from it on. *)

Record TimeZone := {
  tzInitial : Z;
  tzTransitions : list (Z * Z)
}.

Fixpoint offsetFrom (o : Z) (trs : list (Z * Z)) (u : Z) : Z :=
  match trs with
  | [] => o
  | (T, o') :: rest => if u <? T then o else offsetFrom o' rest u
  end.

(** GetNamedTimeZoneOffsetNanoseconds, in milliseconds. *)
Definition GetNamedTimeZoneOffset (tz : TimeZone) (u : Z) : Z :=
  offsetFrom (tzInitial tz) (tzTransitions tz) u.

(** The instants of the period that starts at [lo] with offset [o], and of
    the later periods, at which the local time reads [t]. *)
Fixpoint instantsFrom (lo : option Z) (o : Z) (trs : list (Z * Z)) (t : Z)
  : list Z :=
  let u := t - o in
  let started := match lo with Some l => l <=? u | None => true end in
  match trs with
  | [] => if started then [u] else []
  | (T, o') :: rest =>
      (if started && (u <? T) then [u] else [])
        ++ instantsFrom (Some T) o' rest t
  end.

(** GetNamedTimeZoneEpochNanoseconds, in milliseconds: the instants at which
    the zone's local time is [t], in ascending order; none when [t] is
    skipped by a transition, two when it is repeated. *)
Definition GetNamedTimeZoneEpoch (tz : TimeZone) (t : Z) : list Z :=
  instantsFrom None (tzInitial tz) (tzTransitions tz) t.

(** The last local time of every period that ends with a transition (a
    period that ends at the instant it starts shows no time). *)
Fixpoint lastLocalTimes (lo : option Z) (o : Z) (trs : list (Z * Z)) : list Z :=
  match trs with
  | [] => []
  | (T, o') :: rest =>
      (if match lo with Some l => l <? T | None => true end
       then [T - 1 + o] else [])
        ++ lastLocalTimes (Some T) o' rest
  end.

Definition maxBelow (t : Z) (l : list Z) : option Z :=
  fold_left
    (fun acc x =>
       if x <? t then
         match acc with
         | Some a => Some (Z.max a x)
         | None => Some x
         end
       else acc)
    l None.

(** The offset with which the local time [t] is read (UTC, step 4): that of
    the first instant showing [t], or, when [t] is skipped, that of the last
    instant of [tBefore], the last local time before [t] that is shown
    ([tBefore_spec] below proves that it is). *)
Definition localOffset (tz : TimeZone) (t : Z) : Z :=
  match GetNamedTimeZoneEpoch tz t with
  | u :: _ => GetNamedTimeZoneOffset tz u
  | [] =>
      match maxBelow t (lastLocalTimes None (tzInitial tz) (tzTransitions tz)) with
      | Some tBefore =>
          GetNamedTimeZoneOffset tz
            (last (GetNamedTimeZoneEpoch tz tBefore) (tBefore - tzInitial tz))
      | None => tzInitial tz
      end
  end.

Definition UTC (tz : TimeZone) (t : number) : number :=
  match t with
  | Fin x => F (truncate x - localOffset tz (truncate x))
  | _ => NaN
  end.

Definition LocalTime (tz : TimeZone) (t : Z) : Z :=
  t + GetNamedTimeZoneOffset tz t.

(** ** The Date constructor called with year, month and date (21.4.2.1) *)

Definition newDate (tz : TimeZone) (year month date : number) : number :=
  let yr := MakeFullYear year in
  let finalDate :=
    MakeDate (MakeDay yr month date) (MakeTime (F 0) (F 0) (F 0) (F 0)) in
  TimeClip (UTC tz finalDate).

(** ** Date.prototype.toLocaleDateString (ECMA-402, 19.4.2 and 11)

    The locale data modelled is that of [en-US], the one locale the program
    asks for, and the options are the three the program passes.  A time
    value of NaN gives ["Invalid Date"] at once; otherwise the formatter is
    created first, and an option value outside the allowed ones is a
    RangeError (GetOption). *)

Inductive Locale := en_US.

Record DateTimeFormatOptions := {
  year : jsstring;
  month : jsstring;
  day : jsstring
}.

Inductive YearStyle := YearNumeric | Year2Digit.
Inductive MonthStyle :=
  MonthNumeric | Month2Digit | MonthNarrow | MonthShort | MonthLong.
Inductive DayStyle := DayNumeric | Day2Digit.

Record DateTimeFormat := {
  fmtLocale : Locale;
  fmtYear : YearStyle;
  fmtMonth : MonthStyle;
  fmtDay : DayStyle
}.

Definition GetOption {A} (allowed : list (string * A)) (v : jsstring)
  : completion A :=
  match find (fun p => jsstring_eqb v (js (fst p))) allowed with
  | Some p => Normal (snd p)
  | None => Throw RangeError
  end.

Definition CreateDateTimeFormat (l : Locale) (o : DateTimeFormatOptions)
  : completion DateTimeFormat :=
  bind (GetOption [("2-digit", Year2Digit); ("numeric", YearNumeric)]%string
          (year o)) (fun y =>
  bind (GetOption [("2-digit", Month2Digit); ("numeric", MonthNumeric);
                   ("narrow", MonthNarrow); ("short", MonthShort);
                   ("long", MonthLong)]%string (month o)) (fun m =>
  bind (GetOption [("2-digit", Day2Digit); ("numeric", DayNumeric)]%string
          (day o)) (fun d =>
  Normal {| fmtLocale := l; fmtYear := y; fmtMonth := m; fmtDay := d |}))).

(** Decimal digits of a natural number, and the same on at least two
    digits. *)
Definition decimal (n : Z) : jsstring :=
  js (NilZero.string_of_uint (N.to_uint (Z.to_N n))).

Definition twoDigits (n : Z) : jsstring :=
  if n <? 10 then 48%N :: decimal n else decimal n.

Definition monthNames : list (string * string) :=
  [("Jan", "January"); ("Feb", "February"); ("Mar", "March");
   ("Apr", "April"); ("May", "May"); ("Jun", "June"); ("Jul", "July");
   ("Aug", "August"); ("Sep", "September"); ("Oct", "October");
   ("Nov", "November"); ("Dec", "December")]%string.

Definition monthName (long : bool) (m : Z) : jsstring :=
  let p := nth (Z.to_nat m) monthNames (EmptyString, EmptyString) in
  js (if long then snd p else fst p).

(** The year of the era: the year itself from year 1 on, counted backwards
    before it. *)
Definition yearOfEra (y : Z) : Z := if 0 <? y then y else 1 - y.

Definition formatYear (s : YearStyle) (y : Z) : jsstring :=
  match s with
  | YearNumeric => decimal (yearOfEra y)
  | Year2Digit => twoDigits (yearOfEra y mod 100)
  end.

Definition formatMonth (s : MonthStyle) (m : Z) : jsstring :=
  match s with
  | MonthNumeric => decimal (m + 1)
  | Month2Digit => twoDigits (m + 1)
  | MonthNarrow => firstn 1 (monthName false m)
  | MonthShort => monthName false m
  | MonthLong => monthName true m
  end.

Definition formatDay (s : DayStyle) (d : Z) : jsstring :=
  match s with
  | DayNumeric => decimal d
  | Day2Digit => twoDigits d
  end.

Definition monthIsText (s : MonthStyle) : bool :=
  match s with
  | MonthNumeric | Month2Digit => false
  | _ => true
  end.

(** FormatDateTime: the fields are those of the local time of the instant
    (ToLocalTime, calendar [gregory]); the [en-US] patterns are
    [month day, year] with a month name and [month/day/year] with a month
    number. *)
Definition FormatDateTime (tz : TimeZone) (f : DateTimeFormat) (tv : Z)
  : jsstring :=
  let t := LocalTime tz tv in
  let y := formatYear (fmtYear f) (YearFromTime t) in
  let m := formatMonth (fmtMonth f) (MonthFromTime t) in
  let d := formatDay (fmtDay f) (DateFromTime t) in
  if monthIsText (fmtMonth f) then m ++ js " " ++ d ++ js ", " ++ y
  else m ++ js "/" ++ d ++ js "/" ++ y.

Definition toLocaleDateString (tz : TimeZone) (date : number)
  (locales : Locale) (options : DateTimeFormatOptions) : completion jsstring :=
  match date with
  | Fin x =>
      bind (CreateDateTimeFormat locales options) (fun dateFormat =>
      Normal (FormatDateTime tz dateFormat (truncate x)))
  | _ => Normal (js "Invalid Date")
  end.

End ES.

Import ES.

(* ===================================================================== *)
(** * zod                                                                 *)
(* ===================================================================== *)

Module Zod.

(** ** Data: what the frontmatter and JSON parsers hand to a schema *)

Inductive value :=
| VUndefined
| VNull
| VBoolean (b : bool)
| VNumber (n : number)
| VString (s : jsstring)
| VArray (items : list value)
| VObject (fields : list (jsstring * value)).

(** Property read [data[key]]: the first field of that name, [undefined]
    when there is none. *)
Fixpoint getField (key : jsstring) (fields : list (jsstring * value)) : value :=
  match fields with
  | [] => VUndefined
  | (k, v) :: rest => if jsstring_eqb k key then v else getField key rest
  end.

Fixpoint hasField (key : jsstring) (fields : list (jsstring * value)) : bool :=
  match fields with
  | [] => false
  | (k, _) :: rest => jsstring_eqb k key || hasField key rest
  end.

(** ** Regular expressions, as far as zod's date pattern needs them:
    character classes, sequence and alternation, matched by backtracking
    over the whole input ([^...$]). *)

Inductive regex :=
| Class (allowed : jsstring)
| Seq (a b : regex)
| Alt (a b : regex).

(** The inputs left after each way of matching a prefix, in the order the
    backtracking matcher tries them. *)
Fixpoint matchPrefix (r : regex) (s : jsstring) : list jsstring :=
  match r with
  | Class allowed =>
      match s with
      | c :: s' => if existsb (N.eqb c) allowed then [s'] else []
      | [] => []
      end
  | Seq a b => flat_map (matchPrefix b) (matchPrefix a s)
  | Alt a b => matchPrefix a s ++ matchPrefix b s
  end.

Definition test (r : regex) (s : jsstring) : bool :=
  existsb isEmpty (matchPrefix r s).

Declare Scope regex_scope.
Delimit Scope regex_scope with re.
Bind Scope regex_scope with regex.
Notation "a * b" := (Seq a b) : regex_scope.
Notation "a + b" := (Alt a b) : regex_scope.

Definition cls (s : string) : regex := Class (js s).
Definition digit : regex := cls "0123456789".

(** zod's [dateRegexSource]:
    [((\d\d[2468][048]|\d\d[13579][26]|\d\d0[48]|[02468][048]00|[13579][26]00)-02-29|\d{4}-((0[13578]|1[02])-(0[1-9]|[12]\d|3[01])|(0[469]|11)-(0[1-9]|[12]\d|30)|(02)-(0[1-9]|1\d|2[0-8])))]
    written in two parts: the alternation of the leap years, and the
    alternation of the months with their days. *)
Definition leapYears : regex :=
  ( digit * digit * cls "2468" * cls "048"
  + digit * digit * cls "13579" * cls "26"
  + digit * digit * cls "0" * cls "48"
  + cls "02468" * cls "048" * cls "0" * cls "0"
  + cls "13579" * cls "26" * cls "0" * cls "0" )%re.

Definition monthsAndDays : regex :=
  ( ( cls "0" * cls "13578" + cls "1" * cls "02" ) * cls "-"
    * ( cls "0" * cls "123456789" + cls "12" * digit + cls "3" * cls "01" )
  + ( cls "0" * cls "469" + cls "1" * cls "1" ) * cls "-"
    * ( cls "0" * cls "123456789" + cls "12" * digit + cls "3" * cls "0" )
  + ( cls "0" * cls "2" ) * cls "-"
    * ( cls "0" * cls "123456789" + cls "1" * digit
        + cls "2" * cls "012345678" ) )%re.

Definition dateRegexSource : regex :=
  ( leapYears * cls "-" * cls "0" * cls "2" * cls "-" * cls "2" * cls "9"
  + digit * digit * digit * digit * cls "-" * monthsAndDays )%re.

Definition dateRegex (s : jsstring) : bool := test dateRegexSource s.

(** ** Schemas *)

Inductive StringCheck := kind_date | kind_url.

Record ZodString := { checks : list StringCheck }.

Inductive ZodType :=
| ZString (def : ZodString)
| ZNumber
| ZArray (element : ZodType)
| ZObject (shape : list (jsstring * ZodType)).
Coercion ZString : ZodString >-> ZodType.

(** The builders of the [z] namespace that the program uses. *)
Module z.
Definition string : ZodString := {| checks := [] |}.
Definition date (s : ZodString) : ZodString := {| checks := checks s ++ [kind_date] |}.
Definition url (s : ZodString) : ZodString := {| checks := checks s ++ [kind_url] |}.
Definition number : ZodType := ZNumber.
Definition array (element : ZodType) : ZodType := ZArray element.
Definition object (shape : list (String.string * ZodType)) : ZodType :=
  ZObject (map (fun p => (js (fst p), snd p)) shape).
End z.

(** ** Issues and results *)

Inductive pathItem := Key (k : jsstring) | Index (i : nat).

Inductive issueCode :=
| invalid_type
| invalid_string (validation : StringCheck).

Record ZodIssue := { code : issueCode; path : list pathItem }.

Inductive SafeParseResult :=
| Success (data : value)
| Failure (issues : list ZodIssue).

Section Parsing.

(** The [url] check is [new URL(input)] not throwing.  The URL parser is
    modelled up to the end of the scheme, where a string with no base URL
    to resolve against is or is not rejected as relative; what the later
    states (authority, host, port, path) accept is the parameter
    [afterScheme], given the scheme and the rest of the input. *)
Variable afterScheme : jsstring -> jsstring -> bool.

Definition isC0ControlOrSpace (c : codeunit) : bool := (c <=? 32)%N.
Definition isTabOrNewline (c : codeunit) : bool :=
  (N.eqb c 9 || N.eqb c 10 || N.eqb c 13)%N.
Definition isUpperAlpha (c : codeunit) : bool := ((65 <=? c) && (c <=? 90))%N.
Definition isLowerAlpha (c : codeunit) : bool := ((97 <=? c) && (c <=? 122))%N.
Definition isAlpha (c : codeunit) : bool := isUpperAlpha c || isLowerAlpha c.
Definition toLower (c : codeunit) : codeunit :=
  if isUpperAlpha c then (c + 32)%N else c.

Fixpoint stripStart (s : jsstring) : jsstring :=
  match s with
  | c :: s' => if isC0ControlOrSpace c then stripStart s' else s
  | [] => []
  end.

(** Scheme state: the scheme runs up to the first colon and holds letters,
    digits, [+], [-] and [.] only; anything else sends the parser to the
    no-scheme state. *)
Fixpoint schemeState (buffer input : jsstring) : option (jsstring * jsstring) :=
  match input with
  | c :: rest =>
      if isAlpha c || isDigit c || N.eqb c 43 || N.eqb c 45 || N.eqb c 46
      then schemeState (buffer ++ [toLower c]) rest
      else if N.eqb c 58 then Some (buffer, rest)
      else None
  | [] => None
  end.

(** The input as the parser reads it: leading and trailing C0 controls and
    spaces are stripped, tabs and newlines are removed throughout. *)
Definition cleanInput (input : jsstring) : jsstring :=
  filter (fun c => negb (isTabOrNewline c))
    (rev (stripStart (rev (stripStart input)))).

(** The basic URL parser without a base URL, as success or failure. *)
Definition basicURLParser (input : jsstring) : bool :=
  match cleanInput input with
  | c :: rest =>
      if isAlpha c then
        match schemeState [toLower c] rest with
        | Some (scheme, rest') => afterScheme scheme rest'
        | None => false
        end
      else false
  | [] => false
  end.

Definition runCheck (c : StringCheck) (s : jsstring) : bool :=
  match c with
  | kind_date => dateRegex s
  | kind_url => basicURLParser s
  end.

(** The elements of an array, each parsed at its index; the array is
    rebuilt from the parsed elements unless one of them has the wrong
    type. *)
Fixpoint parseItems
  (parseElement : list pathItem -> value -> option value * list ZodIssue)
  (at_ : list pathItem) (i : nat) (items : list value)
  : option (list value) * list ZodIssue :=
  match items with
  | [] => (Some [], [])
  | x :: rest =>
      let (r, is1) := parseElement (at_ ++ [Index i]) x in
      let (rs, is2) := parseItems parseElement at_ (S i) rest in
      (match r, rs with
       | Some v, Some vs => Some (v :: vs)
       | _, _ => None
       end, is1 ++ is2)
  end.

(** The keys of a shape, each parsed from the field of that name; the
    object is rebuilt from the keys of the shape, in their order (unknown
    keys are stripped), a key being left out when its value is [undefined]
    and the input does not hold it. *)
Fixpoint parseShape {S : Type}
  (parseKey : S -> list pathItem -> value -> option value * list ZodIssue)
  (at_ : list pathItem) (fields : list (jsstring * value))
  (shape : list (jsstring * S))
  : option (list (jsstring * value)) * list ZodIssue :=
  match shape with
  | [] => (Some [], [])
  | (key, s) :: rest =>
      let (r, is1) := parseKey s (at_ ++ [Key key]) (getField key fields) in
      let (rs, is2) := parseShape parseKey at_ fields rest in
      (match r, rs with
       | Some VUndefined, Some vs =>
           Some (if hasField key fields then (key, VUndefined) :: vs else vs)
       | Some v, Some vs => Some ((key, v) :: vs)
       | _, _ => None
       end, is1 ++ is2)
  end.

(** [_parse]: the parsed value, unless the input has the wrong type, and the
    issues raised.  A string that fails a check keeps its value and raises
    an issue. *)
Fixpoint _parse (t : ZodType) (at_ : list pathItem) (input : value)
  : option value * list ZodIssue :=
  match t with
  | ZString def =>
      match input with
      | VString s =>
          (Some input,
           flat_map
             (fun c =>
                if runCheck c s then []
                else [{| code := invalid_string c; path := at_ |}])
             (checks def))
      | _ => (None, [{| code := invalid_type; path := at_ |}])
      end
  | ZNumber =>
      match input with
      | VNumber NaN => (None, [{| code := invalid_type; path := at_ |}])
      | VNumber _ => (Some input, [])
      | _ => (None, [{| code := invalid_type; path := at_ |}])
      end
  | ZArray element =>
      match input with
      | VArray items =>
          let (rs, issues) := parseItems (_parse element) at_ 0 items in
          (option_map VArray rs, issues)
      | _ => (None, [{| code := invalid_type; path := at_ |}])
      end
  | ZObject shape =>
      match input with
      | VObject fields =>
          let (rs, issues) := parseShape _parse at_ fields shape in
          (option_map VObject rs, issues)
      | _ => (None, [{| code := invalid_type; path := at_ |}])
      end
  end.

(** [safeParse]: success exactly when no issue was raised. *)
Definition safeParse (t : ZodType) (input : value) : SafeParseResult :=
  match _parse t [] input with
  | (Some v, []) => Success v
  | (_, issues) => Failure issues
  end.

End Parsing.

End Zod.

Import Zod.

(* ===================================================================== *)
(** * The URL parser, after the scheme                                    *)
(* ===================================================================== *)

(** [new URL(input)] runs the basic URL parser of the URL Standard with no
    base URL.  Past the scheme it can fail in the authority, host, port and
    file host states only; the path, query and fragment states accept every
    input.  What follows is those states and the host parser that they
    call, after the Standard's sections on URL parsing and on host parsing,
    as success or failure; it is a value for the parameter [afterScheme] of
    [basicURLParser]. *)
Module URL.

Definition specialSchemes : list jsstring :=
  map js ["ftp"; "file"; "http"; "https"; "ws"; "wss"]%string.

Definition isSpecial (scheme : jsstring) : bool :=
  existsb (jsstring_eqb scheme) specialSchemes.

Definition isSlash (c : codeunit) : bool := (N.eqb c 47 || N.eqb c 92)%N.

(** Forbidden host code points: NULL, tab, LF, CR, space, [#], [/], [:],
    [<], [>], [?], [@], [[], [\], []], [^] and [|].  Forbidden domain code
    points: these, the C0 controls, [%] and DELETE. *)
Definition isForbiddenHost (c : codeunit) : bool :=
  existsb (N.eqb c)
    [0; 9; 10; 13; 32; 35; 47; 58; 60; 62; 63; 64; 91; 92; 93; 94; 124]%N.

Definition isForbiddenDomain (c : codeunit) : bool :=
  (isForbiddenHost c || (c <=? 31) || N.eqb c 37 || N.eqb c 127)%N.

(** Percent-decoding: [%] followed by two hexadecimal digits is the byte
    they write, everything else stands for itself.  On ASCII input the code
    units are the bytes. *)
Fixpoint percentDecode (input : jsstring) : jsstring :=
  match input with
  | c :: rest =>
      match rest with
      | h :: l :: rest' =>
          match digitIn 16 h, digitIn 16 l with
          | Some a, Some b =>
              if N.eqb c 37 then (16 * a + b)%N :: percentDecode rest'
              else c :: percentDecode rest
          | _, _ => c :: percentDecode rest
          end
      | _ => c :: percentDecode rest
      end
  | [] => []
  end.

(** ** IPv4 *)

(** The IPv4 number parser: hexadecimal after [0x] or [0X], octal after
    another leading [0], decimal otherwise; nothing after the prefix is
    zero. *)
Definition ipv4Number (input : jsstring) : option N :=
  match input with
  | [] => None
  | [_] => digitsValue 10 input 0%N
  | c :: x :: rest =>
      if (N.eqb c 48 && (N.eqb x 88 || N.eqb x 120))%N
      then digitsValue 16 rest 0%N
      else if N.eqb c 48 then digitsValue 8 (x :: rest) 0%N
      else digitsValue 10 input 0%N
  end.

Definition isSome {A} (o : option A) : bool :=
  match o with Some _ => true | None => false end.

(** The parts between the dots, without the last one when it is empty and
    not the only one. *)
Definition dottedParts (input : jsstring) : list jsstring :=
  let parts := split 46%N input in
  match rev parts with
  | [] :: before :: others => rev (before :: others)
  | _ => parts
  end.

(** The ends-in-a-number checker. *)
Definition endsInANumber (input : jsstring) : bool :=
  match rev (dottedParts input) with
  | final :: _ =>
      (negb (isEmpty final) && forallb isDigit final) || isSome (ipv4Number final)
  | [] => false
  end.

Fixpoint ipv4Numbers (parts : list jsstring) : option (list N) :=
  match parts with
  | [] => Some []
  | part :: others =>
      match ipv4Number part, ipv4Numbers others with
      | Some n, Some ns => Some (n :: ns)
      | _, _ => None
      end
  end.

(** The IPv4 parser: at most four parts, each an IPv4 number, all but the
    last at most 255 and the last below [256 ^ (5 - size)]. *)
Definition ipv4Parser (input : jsstring) : bool :=
  let parts := dottedParts input in
  if (4 <? length parts)%nat then false
  else
    match ipv4Numbers parts with
    | Some numbers =>
        (forallb (fun n => n <=? 255) (removelast numbers)
         && (last numbers 0 <? 256 ^ (5 - N.of_nat (length numbers))))%N
    | None => false
    end.

(** ** IPv6 *)

(** The dotted decimal tail of an IPv6 address, read from the start of its
    first number: four numbers without leading zeros, each at most 255, up
    to the end of the input.  [ipv4Piece] is the number being read, if
    any. *)
Fixpoint ipv4InIPv6 (numbersSeen : N) (ipv4Piece : option N) (input : jsstring)
  : bool :=
  match input with
  | c :: rest =>
      if isDigit c then
        match ipv4Piece with
        | None => ipv4InIPv6 numbersSeen (Some (c - 48)%N) rest
        | Some v =>
            if N.eqb v 0 then false
            else if (255 <? v * 10 + (c - 48))%N then false
            else ipv4InIPv6 numbersSeen (Some (v * 10 + (c - 48))%N) rest
        end
      else
        match ipv4Piece with
        | None => false
        | Some _ =>
            if (N.eqb c 46 && (numbersSeen + 1 <? 4))%N
            then ipv4InIPv6 (numbersSeen + 1) None rest
            else false
        end
  | [] =>
      match ipv4Piece with
      | None => false
      | Some _ => N.eqb (numbersSeen + 1) 4
      end
  end.

(** The pieces of an IPv6 address.  [piece] holds the hexadecimal digits
    read of the piece at hand, [compress] whether [::] has been seen.  At
    the end there are eight pieces, or fewer and a [::]. *)
Fixpoint ipv6Pieces (pieceIndex : N) (compress : bool) (piece input : jsstring)
  : bool :=
  match input with
  | c :: rest =>
      if isEmpty piece && N.eqb pieceIndex 8 then false
      else if N.eqb c 58 then
        if isEmpty piece then
          if compress then false else ipv6Pieces (pieceIndex + 1) true [] rest
        else if isEmpty rest then false
        else ipv6Pieces (pieceIndex + 1) compress [] rest
      else if N.eqb c 46 then
        if isEmpty piece then false
        else if (6 <? pieceIndex)%N then false
        else ipv4InIPv6 0 None (piece ++ input)
             && (compress || N.eqb (pieceIndex + 2) 8)
      else if isSome (digitIn 16 c) && (length piece <? 4)%nat then
        ipv6Pieces pieceIndex compress (piece ++ [c]) rest
      else false
  | [] =>
      compress || N.eqb (if isEmpty piece then pieceIndex else pieceIndex + 1) 8
  end.

(** The IPv6 parser: a leading colon has to be the first of two. *)
Definition ipv6Parser (input : jsstring) : bool :=
  match input with
  | c :: rest =>
      if N.eqb c 58 then
        match rest with
        | c' :: rest' => if N.eqb c' 58 then ipv6Pieces 1 true [] rest' else false
        | [] => false
        end
      else ipv6Pieces 0 false [] input
  | [] => ipv6Pieces 0 false [] input
  end.

Section Hosts.

(** Unicode IDNA processing is not modelled.  On a domain of ASCII
    characters with no label that starts with [xn--], domain-to-ASCII is
    lowercasing; [unicodeHost] says whether the host parser accepts any other
    domain. *)
Variable unicodeHost : jsstring -> bool.

Definition hasPunycodeLabel (domain : jsstring) : bool :=
  existsb (fun label => jsstring_eqb (firstn 4 label) (js "xn--"))
    (split 46%N domain).

Definition domainParser (input : jsstring) : bool :=
  let domain := percentDecode input in
  let asciiDomain := map toLower domain in
  if forallb (fun c => c <? 128)%N domain && negb (hasPunycodeLabel asciiDomain)
  then negb (isEmpty asciiDomain)
       && negb (existsb isForbiddenDomain asciiDomain)
       && (if endsInANumber asciiDomain then ipv4Parser asciiDomain else true)
  else unicodeHost input.

(** The opaque-host parser fails on a forbidden host code point only. *)
Definition opaqueHostParser (input : jsstring) : bool :=
  negb (existsb isForbiddenHost input).

(** The host parser. *)
Definition hostParser (input : jsstring) (isOpaque : bool) : bool :=
  match input with
  | c :: inner =>
      if N.eqb c 91 then
        match rev inner with
        | e :: body => if N.eqb e 93 then ipv6Parser (rev body) else false
        | [] => false
        end
      else if isOpaque then opaqueHostParser input
      else domainParser input
  | [] => if isOpaque then opaqueHostParser input else domainParser input
  end.

(** ** The states *)

(** What ends the authority, the host and the port: the end of the input,
    [/], [?], [#] and, in a special URL, [\]. *)
Definition endsAuthority (special : bool) (c : codeunit) : bool :=
  (N.eqb c 47 || N.eqb c 63 || N.eqb c 35 || (special && N.eqb c 92))%N.

(** Port state: digits up to the end of the authority, of a value that fits
    16 bits. *)
Definition portInRange (buffer : jsstring) : bool :=
  if isEmpty buffer then true
  else match digitsValue 10 buffer 0%N with
       | Some port => (port <=? 65535)%N
       | None => false
       end.

Fixpoint portState (special : bool) (buffer input : jsstring) : bool :=
  match input with
  | c :: rest =>
      if isDigit c then portState special (buffer ++ [c]) rest
      else if endsAuthority special c then portInRange buffer
      else false
  | [] => portInRange buffer
  end.

(** Host state: the host runs up to a colon outside brackets, where the
    port follows, or to the end of the authority.  It is not empty before a
    colon, nor in a special URL. *)
Fixpoint hostState (special : bool) (buffer : jsstring) (insideBrackets : bool)
  (input : jsstring) : bool :=
  match input with
  | c :: rest =>
      if N.eqb c 58 && negb insideBrackets then
        if isEmpty buffer then false
        else hostParser buffer (negb special) && portState special [] rest
      else if endsAuthority special c then
        if special && isEmpty buffer then false
        else hostParser buffer (negb special)
      else
        hostState special (buffer ++ [c])
          (if N.eqb c 91 then true else if N.eqb c 93 then false
           else insideBrackets)
          rest
  | [] =>
      if special && isEmpty buffer then false
      else hostParser buffer (negb special)
  end.

(** Authority state: what comes before the last [@] is the credentials; the
    host state starts over from what comes after it, which is not empty
    when there are credentials. *)
Fixpoint authorityState (special atSignSeen : bool) (buffer input : jsstring)
  : bool :=
  match input with
  | c :: rest =>
      if N.eqb c 64 then authorityState special true [] rest
      else if endsAuthority special c then
        if atSignSeen && isEmpty buffer then false
        else hostState special [] false (buffer ++ input)
      else authorityState special atSignSeen (buffer ++ [c]) rest
  | [] =>
      if atSignSeen && isEmpty buffer then false
      else hostState special [] false buffer
  end.

(** Special authority slashes and special authority ignore slashes states:
    any run of slashes and backslashes is skipped. *)
Fixpoint ignoreSlashes (input : jsstring) : jsstring :=
  match input with
  | c :: rest => if isSlash c then ignoreSlashes rest else input
  | [] => []
  end.

(** File, file slash and file host states: after two slashes comes a host,
    which may be empty or a Windows drive letter (then it is the start of
    the path). *)
Definition isWindowsDriveLetter (buffer : jsstring) : bool :=
  match buffer with
  | [a; b] => isAlpha a && (N.eqb b 58 || N.eqb b 124)
  | _ => false
  end.

Definition fileHost (buffer : jsstring) : bool :=
  if isWindowsDriveLetter buffer then true
  else if isEmpty buffer then true
  else hostParser buffer false.

Fixpoint fileHostState (buffer input : jsstring) : bool :=
  match input with
  | c :: rest =>
      if isSlash c || N.eqb c 63 || N.eqb c 35 then fileHost buffer
      else fileHostState (buffer ++ [c]) rest
  | [] => fileHost buffer
  end.

Definition fileState (input : jsstring) : bool :=
  match input with
  | c :: c' :: rest => if isSlash c && isSlash c' then fileHostState [] rest else true
  | _ => true
  end.

(** From the scheme state on, with the scheme in lower case and the input
    after its colon. *)
Definition afterSchemeState (scheme input : jsstring) : bool :=
  if jsstring_eqb scheme (js "file") then fileState input
  else if isSpecial scheme then authorityState true false [] (ignoreSlashes input)
  else
    match input with
    | c :: c' :: rest =>
        if N.eqb c 47 && N.eqb c' 47 then authorityState false false [] rest
        else true
    | _ => true
    end.

End Hosts.

End URL.

(** [new URL(input)] not throwing: the parser up to the end of the scheme,
    then the states above. *)
Definition newURL (unicodeHost : jsstring -> bool) : jsstring -> bool :=
  basicURLParser (URL.afterSchemeState unicodeHost).

(* ===================================================================== *)
(** * The date helper                                                     *)
(* ===================================================================== *)

(** [formatDate], transcribed statement by statement; the host's time zone,
    which the [Date] constructor and [toLocaleDateString] read from the
    environment, is the extra argument [tz].  A piece missing from the split
    array is [undefined] ([None]), and [undefined - 1] is NaN. *)
Definition formatDate (tz : TimeZone) (dateStr : jsstring)
  : completion jsstring :=
  let parts := map Number (split (cu "-") dateStr) in
  let year := nth_error parts 0 in
  let month := nth_error parts 1 in
  let day := nth_error parts 2 in
  let date :=
    newDate tz (ToNumber year) (num_sub (ToNumber month) (F 1)) (ToNumber day) in
  toLocaleDateString tz date en_US
    {| year := js "numeric"; month := js "short"; day := js "2-digit" |}.


(* ===================================================================== *)
(** * The content collections                                             *)
(* ===================================================================== *)

(** [astro/loaders] and [defineCollection]. *)
Inductive Loader :=
| glob (pattern base : string)
| file (fileName : string).

Record Collection := defineCollection {
  loader : Loader;
  schema : ZodType
}.

Definition blog : Collection :=
  defineCollection
    (glob "**/*.(md|mdx)" "./src/content/blog")
    (z.object
       [("title", ZString z.string);
        ("date", ZString (z.date z.string));
        ("tags", z.array z.string)]%string).

Definition projects : Collection :=
  defineCollection
    (file "./src/content/projects/projects.json")
    (z.object
       [("id", z.number);
        ("title", ZString z.string);
        ("description", ZString z.string);
        ("imagePath", ZString z.string);
        ("repo", ZString (z.url z.string));
        ("live", ZString (z.url z.string))]%string).

Definition collections : list (string * Collection) :=
  [("blog", blog); ("projects", projects)]%string.

(** ** Loading a collection *)

(** The files of the site: paths and contents. *)
Definition FileSystem := list (jsstring * jsstring).

Fixpoint readFile (fs : FileSystem) (name : jsstring) : option jsstring :=
  match fs with
  | [] => None
  | (p, text) :: rest => if jsstring_eqb p name then Some text else readFile rest name
  end.

Inductive LoadResult :=
| Loaded (entries : list value)
| InvalidEntry (position : nat) (issues : list ZodIssue)
| SourceError.

Section Loading.

Variable afterScheme : jsstring -> jsstring -> bool.

(** The parsers of the two source formats and the glob matcher are the host
    framework's: JSON text to data, a markdown file to the data of its
    frontmatter, and whether a pattern under a base selects a path. *)
Variable parseJSON : jsstring -> option value.
Variable parseFrontmatter : jsstring -> option value.
Variable globMatch : string -> string -> jsstring -> bool.

(** Every record is validated, in order; the first that fails stops the
    load with its position and issues. *)
Fixpoint validateAll (s : ZodType) (position : nat) (raw : list value)
  : LoadResult :=
  match raw with
  | [] => Loaded []
  | x :: rest =>
      match safeParse afterScheme s x with
      | Failure issues => InvalidEntry position issues
      | Success v =>
          match validateAll s (S position) rest with
          | Loaded vs => Loaded (v :: vs)
          | e => e
          end
      end
  end.

Fixpoint frontmatters (files : FileSystem) : option (list value) :=
  match files with
  | [] => Some []
  | (_, text) :: rest =>
      match parseFrontmatter text, frontmatters rest with
      | Some v, Some vs => Some (v :: vs)
      | _, _ => None
      end
  end.

(** The records a loader reads: the array held by one JSON file, or the
    frontmatter of every file that the pattern selects. *)
Definition rawEntries (l : Loader) (fs : FileSystem) : option (list value) :=
  match l with
  | file name =>
      match readFile fs (js name) with
      | Some text =>
          match parseJSON text with
          | Some (VArray items) => Some items
          | _ => None
          end
      | None => None
      end
  | glob pattern base =>
      frontmatters (filter (fun f => globMatch pattern base (fst f)) fs)
  end.

(** Modelled from the spec: the loaders are the host framework's and not
    part of the sources; section 4.1 of the specification describes a load
    as reading the source, validating every record against the schema and
    failing as a whole on the first record that does not validate. *)
Definition load (c : Collection) (fs : FileSystem) : LoadResult :=
  match rawEntries (loader c) fs with
  | Some raw => validateAll (schema c) 0 raw
  | None => SourceError
  end.

End Loading.

(* ===================================================================== *)
(** * Notions the properties are stated with                              *)
(* ===================================================================== *)

(** ** Calendar dates in [YYYY-MM-DD] syntax *)

Definition isLeapYear (y : Z) : bool :=
  (y mod 4 =? 0) && (negb (y mod 100 =? 0) || (y mod 400 =? 0)).

Definition monthLength (leap : bool) (m : Z) : Z :=
  match m with
  | 1 | 3 | 5 | 7 | 8 | 10 | 12 => 31
  | 4 | 6 | 9 | 11 => 30
  | 2 => if leap then 29 else 28
  | _ => 0
  end.

Definition daysInMonth (y m : Z) : Z := monthLength (isLeapYear y) m.

Definition isValidDate (y m d : Z) : bool :=
  (1 <=? m) && (m <=? 12) && (1 <=? d) && (d <=? daysInMonth y m).

(** The value of a run of decimal digits. *)
Definition digitsToZ (s : jsstring) : Z :=
  fold_left (fun acc c => 10 * acc + (Z.of_N c - 48)) s 0.

(** The three fields of a string of the shape [dddd-dd-dd]. *)
Definition dateFields (s : jsstring) : option (Z * Z * Z) :=
  match s with
  | [y1; y2; y3; y4; s1; m1; m2; s2; d1; d2] =>
      if forallb isDigit [y1; y2; y3; y4; m1; m2; d1; d2]
         && N.eqb s1 45 && N.eqb s2 45
      then Some (digitsToZ [y1; y2; y3; y4], digitsToZ [m1; m2], digitsToZ [d1; d2])
      else None
  | _ => None
  end.

(** A string in [YYYY-MM-DD] syntax that names a day of the (proleptic)
    Gregorian calendar. *)
Definition isCalendarDate (s : jsstring) : bool :=
  match dateFields s with
  | Some (y, m, d) => isValidDate y m d
  | None => false
  end.

(** ** What the Date constructor does with its fields *)

(** A year from 0 to 99 stands for a year of the twentieth century. *)
Definition fullYear (y : Z) : Z :=
  if (0 <=? y) && (y <=? 99) then 1900 + y else y.

(** The day number of day [d] of month [m] (January is 1) of year [y], for
    any integers: months beyond December run into the next years, month 0
    and below into the previous ones, and the days are counted on from the
    first of the month reached. *)
Definition civilDay (y m d : Z) : Z :=
  let ym := y + (m - 1) / 12 in
  DayFromYear ym + daysBeforeMonth ((m - 1) mod 12) (DaysInYear ym) + d - 1.

Definition shortFormat : DateTimeFormat :=
  {| fmtLocale := en_US; fmtYear := YearNumeric; fmtMonth := MonthShort;
     fmtDay := Day2Digit |}.

Definition utc : TimeZone := {| tzInitial := 0; tzTransitions := [] |}.

(** The rendering of day number [n]: month abbreviation, day on two digits,
    year. *)
Definition shortDate (n : Z) : jsstring :=
  FormatDateTime utc shortFormat (msPerDay * n).

(** ** Time zones *)

(** The transitions are in order and every offset is under a day. *)
Fixpoint orderedFrom (lo : option Z) (o : Z) (trs : list (Z * Z)) : bool :=
  (Z.abs o <? msPerDay)
  && match trs with
     | [] => true
     | (T, o') :: rest =>
         match lo with Some l => l <=? T | None => true end
         && orderedFrom (Some T) o' rest
     end.

Definition orderedZone (tz : TimeZone) : bool :=
  orderedFrom None (tzInitial tz) (tzTransitions tz).

(** A regular zone: every offset is under a day, every transition moves
    the clock by less than a day, and two transitions are at least two days
    apart. *)
Fixpoint regularFrom (lo : option Z) (o : Z) (trs : list (Z * Z)) : bool :=
  (Z.abs o <? msPerDay)
  && match trs with
     | [] => true
     | (T, o') :: rest =>
         match lo with Some l => l + 2 * msPerDay <=? T | None => true end
         && (Z.abs (o' - o) <? msPerDay)
         && regularFrom (Some T) o' rest
     end.

Definition regularZone (tz : TimeZone) : bool :=
  regularFrom None (tzInitial tz) (tzTransitions tz).

(** The zone keeps the midnight that starts day [n]: it is regular, or it
    is ordered and its clock does show that midnight. *)
Definition keepsMidnight (tz : TimeZone) (n : Z) : bool :=
  regularZone tz
  || (orderedZone tz && negb (isEmpty (GetNamedTimeZoneEpoch tz (msPerDay * n)))).

(** Brasilia time around the summer of 2018: clocks went from midnight to
    one o'clock on 4 November 2018 and back on 17 February 2019. *)
Definition saoPaulo : TimeZone :=
  {| tzInitial := -10800000;
     tzTransitions := [(1541300400000, -7200000); (1550368800000, -10800000)] |}.

(** Samoa around the end of 2011: at the end of 29 December the clock went
    from UTC-10 to UTC+14, and 30 December did not take place. *)
Definition apia : TimeZone :=
  {| tzInitial := -36000000; tzTransitions := [(1325239200000, 50400000)] |}.

(** The instant that the Date constructor takes for the local midnight
    starting day [n] (UTC(t), 21.4.1.26): the instant at which the clock
    reads that midnight or, where a clock change skips it, the midnight read
    with the offset in force before the change. *)
Definition midnightInstant (tz : TimeZone) (n : Z) : Z :=
  msPerDay * n - localOffset tz (msPerDay * n).

(** The zone's clock shows that instant as a time of day [n]: the day is
    not skipped. *)
Definition keepsDay (tz : TimeZone) (n : Z) : bool :=
  Day (LocalTime tz (midnightInstant tz n)) =? n.

(** The day-of-month component of a rendering [Mon DD, YYYY]. *)
Definition dayComponent (out : jsstring) : jsstring := firstn 2 (skipn 4 out).

(** Philippine time, with the changes of 1844 and 1899 and the summer time
    of 1990: on 21 May 1990 clocks went from midnight to one o'clock, and
    back on 29 July. *)
Definition manila : TimeZone :=
  {| tzInitial := -57360000;
     tzTransitions :=
       [(-3944621040000, 29040000); (-2229321840000, 28800000);
        (643219200000, 32400000); (649177200000, 28800000)] |}.

(** Kwajalein around August 1993: at the end of 20 August the clock went
    from UTC-12 to UTC+12, and 21 August did not take place. *)
Definition kwajalein : TimeZone :=
  {| tzInitial := -43200000; tzTransitions := [(745934400000, 43200000)] |}.

(** ** Records *)

Definition isStringArray (v : value) : bool :=
  match v with
  | VArray items =>
      forallb (fun x => match x with VString _ => true | _ => false end) items
  | _ => false
  end.

Record Project := {
  project_id : number;
  project_title : jsstring;
  project_description : jsstring;
  project_imagePath : jsstring;
  project_repo : jsstring;
  project_live : jsstring
}.

Definition projectFields (p : Project) : list (jsstring * value) :=
  [(js "id", VNumber (project_id p));
   (js "title", VString (project_title p));
   (js "description", VString (project_description p));
   (js "imagePath", VString (project_imagePath p));
   (js "repo", VString (project_repo p));
   (js "live", VString (project_live p))].

(** The input object holds the six fields of [p], among others or not and
    in any order. *)
Definition holdsProject (fields : list (jsstring * value)) (p : Project) : Prop :=
  forall key v, In (key, v) (projectFields p) -> getField key fields = v.

Definition wellFormedProject (afterScheme : jsstring -> jsstring -> bool)
  (p : Project) : Prop :=
  project_id p <> NaN
  /\ basicURLParser afterScheme (project_repo p) = true
  /\ basicURLParser afterScheme (project_live p) = true.

(** An absolute URL string: it starts, once cleaned, with a scheme and a
    colon. *)
Definition isSchemeChar (c : codeunit) : bool :=
  isAlpha c || isDigit c || N.eqb c 43 || N.eqb c 45 || N.eqb c 46.

Definition hasScheme (s : jsstring) : Prop :=
  exists c body rest,
    cleanInput s = c :: body ++ 58%N :: rest
    /\ isAlpha c = true /\ forallb isSchemeChar body = true.

(** Sample data for the instances below. *)
Definition acceptAll (scheme rest : jsstring) : bool := true.

Definition sampleProject : Project :=
  {| project_id := F 1;
     project_title := js "3D monster";
     project_description := js "";
     project_imagePath := js "./imgs/monster.png";
     project_repo := js "https://github.com/Ruchita1010/3d-monster";
     project_live := js "https://ruchita1010.github.io/3d-monster/" |}.

(** After a special scheme other than [file], nothing where the host is
    due: only slashes, then the end of the input, [?] or [#]. *)
Definition noHost (input : jsstring) : bool :=
  match URL.ignoreSlashes input with
  | [] => true
  | c :: _ => (N.eqb c 63 || N.eqb c 35)%N
  end.

(** The special schemes other than [file]: a URL of theirs has a host. *)
Definition hostSchemes : list jsstring :=
  map js ["http"; "https"; "ws"; "wss"; "ftp"]%string.

(** The characters that a URL is written with, in ASCII: letters, digits
    and the punctuation that RFC 3986 reserves or leaves unreserved, with
    [%] for the escapes; the URL code points of the URL Standard are among
    them.  A space, a backslash, [<], [>], [^], [{], [|], [}] are never
    written in a URL. *)
Definition isURLCharacter (c : codeunit) : bool :=
  isAlpha c || isDigit c || existsb (N.eqb c) (js "-._~:/?#[]@!$&'()*+,;=%").

(** The sample project with another [repo]. *)
Definition brokenRepo (repo : string) : Project :=
  {| project_id := project_id sampleProject;
     project_title := project_title sampleProject;
     project_description := project_description sampleProject;
     project_imagePath := project_imagePath sampleProject;
     project_repo := js repo;
     project_live := project_live sampleProject |}.

(** The two extreme readings of the domains outside ASCII: none is
    accepted, all are. *)
Definition noIDNA (domain : jsstring) : bool := false.
Definition anyIDNA (domain : jsstring) : bool := true.

Definition sampleJSON (text : jsstring) : option value :=
  Some (VArray [VObject (projectFields sampleProject)]).

Definition untitledPost : list (jsstring * value) :=
  [(js "date", VString (js "2023-06-12"));
   (js "tags", VArray [VString (js "react"); VNumber (F 3)])].

(** ** Records, key by key *)

(** The keys of an object schema, in the order the schema declares them. *)
Definition keysOf (t : ZodType) : list jsstring :=
  match t with
  | ZObject shape => map fst shape
  | _ => []
  end.

(** The record made of the given keys, each with the value the input has
    for it. *)
Definition pick (keys : list jsstring) (fields : list (jsstring * value))
  : list (jsstring * value) :=
  map (fun k => (k, getField k fields)) keys.

Definition isString (v : value) : bool :=
  match v with
  | VString _ => true
  | _ => false
  end.

(** A Number other than NaN. *)
Definition isNumber (v : value) : bool :=
  match v with
  | VNumber NaN => false
  | VNumber _ => true
  | _ => false
  end.

(** A string that the URL parser accepts. *)
Definition isURL (afterScheme : jsstring -> jsstring -> bool) (v : value) : bool :=
  match v with
  | VString s => basicURLParser afterScheme s
  | _ => false
  end.

(** What a blog post has to hold: a title that is a string, a date that is
    a calendar date, tags that are an array of strings. *)
Definition isBlogPost (fields : list (jsstring * value)) : bool :=
  isString (getField (js "title") fields)
  && match getField (js "date") fields with
     | VString d => isCalendarDate d
     | _ => false
     end
  && isStringArray (getField (js "tags") fields).

(** What a project has to hold. *)
Definition isProject (afterScheme : jsstring -> jsstring -> bool)
  (fields : list (jsstring * value)) : bool :=
  isNumber (getField (js "id") fields)
  && isString (getField (js "title") fields)
  && isString (getField (js "description") fields)
  && isString (getField (js "imagePath") fields)
  && isURL afterScheme (getField (js "repo") fields)
  && isURL afterScheme (getField (js "live") fields).

(** The frontmatter of two posts of the site,
    [content/blog/concept-to-scene-3d-react.md] and
    [content/blog/web-rendering/index.md]. *)
Definition conceptToScene : list (jsstring * value) :=
  [(js "title", VString (js "From Concept to Scene: 3D in React"));
   (js "date", VString (js "2023-06-12"));
   (js "tags", VArray [VString (js "react"); VString (js "react-three-fiber")]);
   (js "slug", VString (js "concept-to-scene-3d-react"))].

Definition webRendering : list (jsstring * value) :=
  [(js "title", VString (js "Web Rendering"));
   (js "date", VString (js "2026-01-31"));
   (js "tags", VArray [VString (js "rendering"); VString (js "ssr");
                       VString (js "ssg"); VString (js "isr"); VString (js "csr")]);
   (js "slug", VString (js "web-rendering"))].

(** ** Pieces of a date string *)

(** A string without a dash, a string of white space only (as [Number]
    understands white space), a non-empty run of decimal digits. *)
Definition noDash (s : jsstring) : bool :=
  forallb (fun c => negb (N.eqb c (cu "-"))) s.

Definition isBlank (s : jsstring) : bool := forallb isStrWhiteSpaceChar s.

Definition isDigits (s : jsstring) : bool :=
  negb (isEmpty s) && forallb isDigit s.

(** A character that cannot follow the digits of a decimal literal: not a
    digit, a point, an exponent mark or white space (nor a dash, which
    ends the piece). *)
Definition endsLiteral (c : codeunit) : bool :=
  negb (isDigit c || isStrWhiteSpaceChar c
        || N.eqb c (cu ".") || N.eqb c (cu "e") || N.eqb c (cu "E")
        || N.eqb c (cu "-")).

(* ===================================================================== *)
(** * Definitions used by the proofs                                      *)
(* ===================================================================== *)

(** ** Regular expressions of fixed width *)

Fixpoint width (r : regex) : option nat :=
  match r with
  | Class _ => Some 1%nat
  | Seq a b =>
      match width a, width b with
      | Some n, Some m => Some (n + m)%nat
      | _, _ => None
      end
  | Alt a b =>
      match width a, width b with
      | Some n, Some m => if Nat.eqb n m then Some n else None
      | _, _ => None
      end
  end.

Fixpoint classesWithin (alphabet : jsstring) (r : regex) : bool :=
  match r with
  | Class allowed => forallb (fun c => existsb (N.eqb c) alphabet) allowed
  | Seq a b | Alt a b => classesWithin alphabet a && classesWithin alphabet b
  end.

(** [r] matches the whole of [s]. *)
Definition matches (r : regex) (s : jsstring) : Prop := In [] (matchPrefix r s).

Definition digit4 : regex := (digit * digit * digit * digit)%re.

Definition tail29 (c4 c5 c6 c7 c8 c9 : codeunit) : bool :=
  test (cls "-") [c4] && test (cls "0") [c5] && test (cls "2") [c6]
  && test (cls "-") [c7] && test (cls "2") [c8] && test (cls "9") [c9].

Definition validMD (leap : bool) (m d : Z) : bool :=
  (1 <=? m) && (m <=? 12) && (1 <=? d) && (d <=? monthLength leap m).

Definition digitsA : jsstring := js "0123456789".
Definition dateA : jsstring := js "-0123456789".

Definition tailSpec (leap : bool) (c5 c6 c7 c8 c9 : codeunit) : bool :=
  forallb isDigit [c5; c6; c8; c9] && N.eqb c7 45
  && validMD leap (digitsToZ [c5; c6]) (digitsToZ [c8; c9]).

Definition tailRegex (leap : bool) (c5 c6 c7 c8 c9 : codeunit) : bool :=
  (leap && tail29 45%N c5 c6 c7 c8 c9) || test monthsAndDays [c5; c6; c7; c8; c9].

(** ** Integers that binary64 holds exactly *)

Definition safeInt (z : Z) : Prop := Z.abs z < 2 ^ 53.

(** What [Number] and [twoDigits] are checked to do on runs of four and of
    two digits. *)
Definition yearOk (a b c d : codeunit) : bool :=
  let v := digitsToZ [a; b; c; d] in
  number_eqb (Number [a; b; c; d]) (Fin (inject_Z v)) && (0 <=? v) && (v <=? 9999).

Definition pairOk (a b : codeunit) : bool :=
  let v := digitsToZ [a; b] in
  number_eqb (Number [a; b]) (Fin (inject_Z v)) && (0 <=? v) && (v <=? 99)
  && jsstring_eqb (twoDigits v) [a; b].

(** ** The periods of a time zone: from a transition to the next *)

Record period := { pstart : option Z; pend : option Z; poffset : Z }.

Fixpoint periodsFrom (lo : option Z) (o : Z) (trs : list (Z * Z)) : list period :=
  match trs with
  | [] => [{| pstart := lo; pend := None; poffset := o |}]
  | (T, o') :: rest =>
      {| pstart := lo; pend := Some T; poffset := o |} :: periodsFrom (Some T) o' rest
  end.

Definition inPeriod (p : period) (u : Z) : Prop :=
  match pstart p with Some s => s <= u | None => True end
  /\ match pend p with Some e => u < e | None => True end.

(** The numbers that [twoDigits] is asked to write. *)
Definition dayNumbers : list Z := map Z.of_nat (seq 0 100).

(** ** Stripping a string at both ends *)

(** The string without its longest prefix of characters that satisfy [p],
    and without such a prefix and such a suffix: the common shape of [trim]
    and of the URL parser's stripping. *)
Fixpoint dropStart (p : codeunit -> bool) (s : jsstring) : jsstring :=
  match s with
  | c :: s' => if p c then dropStart p s' else s
  | [] => []
  end.

Definition dropBoth (p : codeunit -> bool) (s : jsstring) : jsstring :=
  rev (dropStart p (rev (dropStart p s))).

(** ** A string schema, as a test *)

Definition passes (afterScheme : jsstring -> jsstring -> bool)
  (cs : list StringCheck) (v : value) : bool :=
  match v with
  | VString s => forallb (fun c => runCheck afterScheme c s) cs
  | _ => false
  end.

(** ** Tactics *)

Ltac ltb_cases :=
  repeat match goal with
         | |- context [?a <? ?b] => destruct (Z.ltb_spec a b); try lia
         end.

Ltac eval_closed :=
  repeat match goal with
         | |- context [daysBeforeMonth ?a ?b] =>
             let x := eval vm_compute in (daysBeforeMonth a b) in
             progress change (daysBeforeMonth a b) with x
         | |- context [monthLength ?a ?b] =>
             let x := eval vm_compute in (monthLength a b) in
             progress change (monthLength a b) with x
         | H : context [monthLength ?a ?b] |- _ =>
             let x := eval vm_compute in (monthLength a b) in
             progress change (monthLength a b) with x in H
         | |- context [Z.pos ?a - Z.pos ?b] =>
             let x := eval vm_compute in (Z.pos a - Z.pos b) in
             progress change (Z.pos a - Z.pos b) with x
         end.

Ltac month_cases m :=
  let H := fresh "Hm" in
  assert (m = 1 \/ m = 2 \/ m = 3 \/ m = 4 \/ m = 5 \/ m = 6 \/ m = 7 \/ m = 8
          \/ m = 9 \/ m = 10 \/ m = 11 \/ m = 12) as H by lia;
  repeat (destruct H as [H|H]; [subst m|]); [..|subst m].

Ltac split_andb :=
  repeat match goal with
         | H : _ && _ = true |- _ => apply andb_true_iff in H as [? ?]
         end.

(** One goal for each of the ten digits [H] says a character is. *)
Ltac each_digit H :=
  match type of H with
  | isDigit ?c = true =>
      let H1 := fresh in
      let H2 := fresh in
      unfold isDigit in H; apply andb_true_iff in H as [H1 H2];
      apply N.leb_le in H1, H2;
      assert (c = 48 \/ c = 49 \/ c = 50 \/ c = 51 \/ c = 52 \/ c = 53
              \/ c = 54 \/ c = 55 \/ c = 56 \/ c = 57)%N as H by lia;
      clear H1 H2;
      destruct H as [-> | [-> | [-> | [-> | [-> | [-> | [-> | [-> | [-> | ->]]]]]]]]]
  end.

(** The branches of a chain of [if _ <? _ then _ else _]. *)
Ltac if_cases :=
  repeat (match goal with
          | |- context [if ?a <? ?b then _ else _] => destruct (Z.ltb_spec a b)
          end; cbv beta iota).

(* ===================================================================== *)
(** * Strings and regular expressions                                     *)
(* ===================================================================== *)

Lemma jsstring_eqb_refl s : jsstring_eqb s s = true.
Proof. induction s; simpl; auto. now rewrite N.eqb_refl. Qed.

Lemma jsstring_eqb_eq a b : jsstring_eqb a b = true <-> a = b.
Proof.
  split.
  - revert b. induction a as [|x a IH]; destruct b as [|y b]; simpl; try discriminate; auto.
    intros H. apply andb_true_iff in H as [H1 H2].
    apply N.eqb_eq in H1. subst. f_equal. auto.
  - intros ->. apply jsstring_eqb_refl.
Qed.

Lemma existsb_eqb_In c l : existsb (N.eqb c) l = true <-> In c l.
Proof.
  rewrite existsb_exists. split.
  - intros (x & Hx & E). apply N.eqb_eq in E. now subst.
  - intros H. exists c. split; auto. apply N.eqb_refl.
Qed.

Lemma test_matches r s : test r s = true <-> matches r s.
Proof.
  unfold test, matches. rewrite existsb_exists. split.
  - intros ([|] & Hx & E); [auto|discriminate].
  - intros H. exists []. auto.
Qed.

Lemma matchPrefix_In r : forall s rest,
  In rest (matchPrefix r s) <-> exists pre, s = pre ++ rest /\ matches r pre.
Proof.
  unfold matches.
  induction r as [allowed|a IHa b IHb|a IHa b IHb]; intros s rest; simpl.
  - split.
    + destruct s as [|c s']; [intros []|].
      destruct (existsb (N.eqb c) allowed) eqn:E; [|intros []].
      intros [<-|[]]. exists [c]. split; auto. simpl. rewrite E. now left.
    + intros (pre & -> & H). destruct pre as [|c pre]; [destruct H|].
      simpl in *. destruct (existsb (N.eqb c) allowed); [|destruct H].
      destruct H as [H|[]]. subst pre. now left.
  - rewrite in_flat_map. split.
    + intros (mid & Hmid & Hrest).
      apply IHa in Hmid as (p1 & -> & H1).
      apply IHb in Hrest as (p2 & -> & H2).
      exists (p1 ++ p2). split; [now rewrite app_assoc|].
      apply in_flat_map. exists p2. split.
      * apply IHa. exists p1. split; auto.
      * apply IHb. exists p2. split; auto. now rewrite app_nil_r.
    + intros (pre & -> & H). apply in_flat_map in H as (mid & Hmid & Hnil).
      apply IHa in Hmid as (p1 & -> & H1).
      apply IHb in Hnil as (p2 & E & H2). rewrite app_nil_r in E. subst mid.
      exists (p2 ++ rest). split.
      * apply IHa. exists p1. split; auto. now rewrite app_assoc.
      * apply IHb. exists p2. split; auto.
  - rewrite in_app_iff, IHa, IHb. split.
    + intros [(pre & -> & H)|(pre & -> & H)]; exists pre; split; auto; apply in_app_iff; auto.
    + intros (pre & -> & H). apply in_app_iff in H as [H|H]; [left|right]; eauto.
Qed.

Lemma matches_Class allowed s :
  matches (Class allowed) s <-> exists c, s = [c] /\ In c allowed.
Proof.
  unfold matches. simpl. destruct s as [|c s'].
  - split; [intros []|intros (c & E & _); discriminate].
  - destruct (existsb (N.eqb c) allowed) eqn:E.
    + apply existsb_eqb_In in E. split.
      * intros [->|[]]. eauto.
      * intros (c' & [= -> ->] & _). now left.
    + split; [intros []|]. intros (c' & [= -> ->] & H).
      apply existsb_eqb_In in H. congruence.
Qed.

Lemma matches_Seq a b s :
  matches (Seq a b) s <-> exists p1 p2, s = p1 ++ p2 /\ matches a p1 /\ matches b p2.
Proof.
  unfold matches at 1. simpl. rewrite in_flat_map. split.
  - intros (mid & Hmid & Hnil).
    apply matchPrefix_In in Hmid as (p1 & -> & H1).
    apply matchPrefix_In in Hnil as (p2 & E & H2). rewrite app_nil_r in E. subst.
    eauto.
  - intros (p1 & p2 & -> & H1 & H2). exists p2. split.
    + apply matchPrefix_In. eauto.
    + exact H2.
Qed.

Lemma matches_Alt a b s : matches (Alt a b) s <-> matches a s \/ matches b s.
Proof. unfold matches. simpl. apply in_app_iff. Qed.

Lemma matches_width r : forall s n, width r = Some n -> matches r s -> length s = n.
Proof.
  induction r as [allowed|a IHa b IHb|a IHa b IHb]; intros s n Hw Hm; simpl in Hw.
  - apply matches_Class in Hm as (c & -> & _). now injection Hw as <-.
  - destruct (width a) as [na|]; [|discriminate].
    destruct (width b) as [nb|]; [|discriminate]. injection Hw as <-.
    apply matches_Seq in Hm as (p1 & p2 & -> & H1 & H2).
    rewrite length_app. erewrite IHa, IHb; eauto.
  - destruct (width a) as [na|]; [|discriminate].
    destruct (width b) as [nb|]; [|discriminate].
    destruct (Nat.eqb na nb) eqn:E; [|discriminate]. injection Hw as <-.
    apply Nat.eqb_eq in E. subst nb.
    apply matches_Alt in Hm as [H|H]; eauto.
Qed.

Lemma matches_within alphabet r : forall s,
  classesWithin alphabet r = true -> matches r s ->
  Forall (fun c => In c alphabet) s.
Proof.
  induction r as [allowed|a IHa b IHb|a IHa b IHb]; intros s Hc Hm; simpl in Hc.
  - apply matches_Class in Hm as (c & -> & Hin).
    rewrite forallb_forall in Hc. constructor; [|constructor].
    apply existsb_eqb_In. auto.
  - apply andb_true_iff in Hc as [Ha Hb].
    apply matches_Seq in Hm as (p1 & p2 & -> & H1 & H2).
    apply Forall_app. split; auto.
  - apply andb_true_iff in Hc as [Ha Hb].
    apply matches_Alt in Hm as [H|H]; auto.
Qed.

Lemma bool_eq_iff (a b : bool) : (a = true <-> b = true) -> a = b.
Proof. destruct a, b; intuition congruence. Qed.

Lemma test_Alt a b s : test (Alt a b) s = test a s || test b s.
Proof.
  apply bool_eq_iff. rewrite orb_true_iff, !test_matches. apply matches_Alt.
Qed.

Lemma test_Seq a b n s :
  width a = Some n ->
  test (Seq a b) s = test a (firstn n s) && test b (skipn n s).
Proof.
  intros Hw. apply bool_eq_iff. rewrite andb_true_iff, !test_matches, matches_Seq.
  split.
  - intros (p1 & p2 & -> & H1 & H2).
    pose proof (matches_width _ _ _ Hw H1) as <-.
    rewrite firstn_app, Nat.sub_diag, firstn_all, skipn_app, Nat.sub_diag, skipn_all.
    simpl. rewrite app_nil_r. auto.
  - intros [H1 H2]. exists (firstn n s), (skipn n s). rewrite firstn_skipn. auto.
Qed.

Lemma test_Class allowed c : test (Class allowed) [c] = existsb (N.eqb c) allowed.
Proof. unfold test. simpl. now destruct (existsb (N.eqb c) allowed). Qed.

Lemma dateRegex_split y0 y1 y2 y3 c4 c5 c6 c7 c8 c9 :
  dateRegex [y0; y1; y2; y3; c4; c5; c6; c7; c8; c9]
  = (test leapYears [y0; y1; y2; y3] && tail29 c4 c5 c6 c7 c8 c9)
    || (test digit4 [y0; y1; y2; y3] && test (cls "-") [c4]
        && test monthsAndDays [c5; c6; c7; c8; c9]).
Proof.
  unfold dateRegex, dateRegexSource, tail29, digit4.
  rewrite test_Alt. f_equal.
  - rewrite (test_Seq _ _ 9) by reflexivity.
    rewrite (test_Seq _ _ 8) by reflexivity.
    rewrite (test_Seq _ _ 7) by reflexivity.
    rewrite (test_Seq _ _ 6) by reflexivity.
    rewrite (test_Seq _ _ 5) by reflexivity.
    rewrite (test_Seq _ _ 4) by reflexivity.
    cbn [firstn skipn]. now rewrite !andb_assoc.
  - rewrite (test_Seq _ _ 5) by reflexivity.
    rewrite (test_Seq _ (cls "-") 4) by reflexivity.
    cbn [firstn skipn]. reflexivity.
Qed.

Lemma isDigit_In c : isDigit c = true <-> In c digitsA.
Proof.
  unfold isDigit. rewrite andb_true_iff, N.leb_le, N.leb_le. split.
  - intros [H1 H2]. cbn.
    assert (c = 48 \/ c = 49 \/ c = 50 \/ c = 51 \/ c = 52 \/ c = 53 \/ c = 54
            \/ c = 55 \/ c = 56 \/ c = 57)%N as H by lia.
    intuition auto.
  - cbn. intuition (subst; lia).
Qed.

Lemma isDigit_existsb c : existsb (N.eqb c) digitsA = isDigit c.
Proof. apply bool_eq_iff. now rewrite existsb_eqb_In, isDigit_In. Qed.

Lemma forallb_isDigit_In s : forallb isDigit s = true <-> Forall (fun c => In c digitsA) s.
Proof.
  rewrite forallb_forall, Forall_forall. split; intros H x Hx; apply isDigit_In; auto.
Qed.

Lemma test_digit4 y0 y1 y2 y3 :
  test digit4 [y0; y1; y2; y3] = forallb isDigit [y0; y1; y2; y3].
Proof.
  unfold digit4.
  rewrite (test_Seq _ _ 3) by reflexivity.
  rewrite (test_Seq _ _ 2) by reflexivity.
  rewrite (test_Seq _ _ 1) by reflexivity.
  cbn [firstn skipn forallb]. unfold digit, cls. rewrite !test_Class.
  fold digitsA. rewrite !isDigit_existsb. now rewrite andb_true_r, !andb_assoc.
Qed.

Lemma leapYears_enum :
  forallb (fun y0 => forallb (fun y1 => forallb (fun y2 => forallb (fun y3 =>
     Bool.eqb (test leapYears [y0; y1; y2; y3])
              (isLeapYear (digitsToZ [y0; y1; y2; y3])))
     digitsA) digitsA) digitsA) digitsA = true.
Proof. vm_compute. reflexivity. Qed.

Lemma test_leapYears y0 y1 y2 y3 :
  test leapYears [y0; y1; y2; y3]
  = forallb isDigit [y0; y1; y2; y3] && isLeapYear (digitsToZ [y0; y1; y2; y3]).
Proof.
  destruct (forallb isDigit [y0; y1; y2; y3]) eqn:E.
  - apply forallb_isDigit_In in E.
    inversion E as [|? ? H0 E1]; subst. inversion E1 as [|? ? H1 E2]; subst.
    inversion E2 as [|? ? H2 E3]; subst. inversion E3 as [|? ? H3 _]; subst.
    pose proof leapYears_enum as H.
    rewrite forallb_forall in H. specialize (H _ H0).
    rewrite forallb_forall in H. specialize (H _ H1).
    rewrite forallb_forall in H. specialize (H _ H2).
    rewrite forallb_forall in H. specialize (H _ H3).
    apply Bool.eqb_prop in H. exact H.
  - destruct (test leapYears [y0; y1; y2; y3]) eqn:T; [|reflexivity].
    apply test_matches in T.
    apply (matches_within digitsA) in T; [|reflexivity].
    apply forallb_isDigit_In in T. congruence.
Qed.

Lemma tail_enum :
  forallb (fun leap => forallb (fun c5 => forallb (fun c6 => forallb (fun c7 =>
    forallb (fun c8 => forallb (fun c9 =>
      Bool.eqb (tailRegex leap c5 c6 c7 c8 c9) (tailSpec leap c5 c6 c7 c8 c9))
    dateA) dateA) dateA) dateA) dateA) [true; false] = true.
Proof. vm_compute. reflexivity. Qed.

Lemma dateA_digit c : In c digitsA -> In c dateA.
Proof. cbn. intuition auto. Qed.

Lemma tail_equiv leap c5 c6 c7 c8 c9 :
  tailRegex leap c5 c6 c7 c8 c9 = tailSpec leap c5 c6 c7 c8 c9.
Proof.
  assert (Henum : Forall (fun c => In c dateA) [c5; c6; c7; c8; c9] ->
                  tailRegex leap c5 c6 c7 c8 c9 = tailSpec leap c5 c6 c7 c8 c9).
  { intros E.
    inversion E as [|? ? H5 E1]; subst. inversion E1 as [|? ? H6 E2]; subst.
    inversion E2 as [|? ? H7 E3]; subst. inversion E3 as [|? ? H8 E4]; subst.
    inversion E4 as [|? ? H9 _]; subst.
    pose proof tail_enum as H.
    rewrite forallb_forall in H.
    specialize (H leap (ltac:(destruct leap; simpl; auto))).
    rewrite forallb_forall in H. specialize (H _ H5).
    rewrite forallb_forall in H. specialize (H _ H6).
    rewrite forallb_forall in H. specialize (H _ H7).
    rewrite forallb_forall in H. specialize (H _ H8).
    rewrite forallb_forall in H. specialize (H _ H9).
    apply Bool.eqb_prop in H. exact H. }
  assert (HL : tailRegex leap c5 c6 c7 c8 c9 = true ->
               Forall (fun c => In c dateA) [c5; c6; c7; c8; c9]).
  { intros L. unfold tailRegex in L. apply orb_true_iff in L as [L|L].
    + apply andb_true_iff in L as [_ L]. unfold tail29 in L.
      repeat (apply andb_true_iff in L as [L ?]).
      unfold cls in *. rewrite test_Class in *.
      repeat match goal with
             | H : existsb (N.eqb ?c) _ = true |- _ =>
                 apply existsb_eqb_In in H; cbn in H; destruct H as [H|[]]; subst c
             end.
      repeat (apply Forall_cons; [cbn; auto 20|]). apply Forall_nil.
    + apply test_matches in L. apply (matches_within dateA) in L; [auto|reflexivity]. }
  assert (HR : tailSpec leap c5 c6 c7 c8 c9 = true ->
               Forall (fun c => In c dateA) [c5; c6; c7; c8; c9]).
  { intros R. unfold tailSpec in R. apply andb_true_iff in R as [R _].
    apply andb_true_iff in R as [R R7]. apply N.eqb_eq in R7. subst c7.
    apply forallb_isDigit_In in R.
    inversion R as [|? ? H5 E1]; subst. inversion E1 as [|? ? H6 E2]; subst.
    inversion E2 as [|? ? H8 E3]; subst. inversion E3 as [|? ? H9 _]; subst.
    repeat (apply Forall_cons; [first [now apply dateA_digit | cbn; auto 20]|]). apply Forall_nil. }
  destruct (tailRegex leap c5 c6 c7 c8 c9) eqn:L;
    destruct (tailSpec leap c5 c6 c7 c8 c9) eqn:R; auto.
Qed.

Lemma dateRegex_length s : dateRegex s = true -> length s = 10%nat.
Proof.
  intros H. apply test_matches in H.
  eapply matches_width in H; [exact H|reflexivity].
Qed.

Theorem dateRegex_isCalendarDate s : dateRegex s = isCalendarDate s.
Proof.
  destruct (Nat.eq_dec (length s) 10) as [Hlen|Hlen].
  - destruct s as [|y0 [|y1 [|y2 [|y3 [|c4 [|c5 [|c6 [|c7 [|c8 [|c9 [|x s']]]]]]]]]]];
      try discriminate Hlen.
    rewrite dateRegex_split, test_leapYears, test_digit4.
    unfold isCalendarDate, dateFields.
    unfold cls at 1. rewrite test_Class.
    replace (existsb (N.eqb c4) (js "-")) with (N.eqb c4 45)
      by (cbn; now rewrite orb_false_r).
    pose proof (tail_equiv (isLeapYear (digitsToZ [y0; y1; y2; y3])) c5 c6 c7 c8 c9) as T.
    unfold tailRegex, tailSpec in T.
    change (isValidDate (digitsToZ [y0; y1; y2; y3])) with (validMD (isLeapYear (digitsToZ [y0; y1; y2; y3]))).
    set (leap := isLeapYear (digitsToZ [y0; y1; y2; y3])) in *.
    cbn [forallb] in *.
    destruct (isDigit y0), (isDigit y1), (isDigit y2), (isDigit y3); cbn [andb orb];
      try reflexivity.
    destruct (N.eqb c4 45) eqn:E4.
    + apply N.eqb_eq in E4. subst c4. rewrite !andb_true_r. cbn [andb].
      rewrite T.
      destruct (isDigit c5), (isDigit c6), (isDigit c8), (isDigit c9), (N.eqb c7 45);
        reflexivity.
    + rewrite !andb_false_r. cbn [andb orb].
      unfold tail29. unfold cls at 1. rewrite test_Class.
      replace (existsb (N.eqb c4) (js "-")) with (N.eqb c4 45)
        by (cbn; now rewrite orb_false_r).
      rewrite E4. cbn [andb]. rewrite andb_false_r.
      destruct (isDigit c5 && (isDigit c6 && (isDigit c8 && (isDigit c9 && true)))); reflexivity.
  - assert (isCalendarDate s = false) as ->.
    { destruct s as [|y0 [|y1 [|y2 [|y3 [|c4 [|c5 [|c6 [|c7 [|c8 [|c9 [|x s']]]]]]]]]]];
        try reflexivity. now contradiction Hlen. }
    destruct (dateRegex s) eqn:E; [|reflexivity].
    apply dateRegex_length in E. contradiction.
Qed.

(* ===================================================================== *)
(** * Parsing with a schema                                               *)
(* ===================================================================== *)

Lemma hasField_false_getField key fields :
  hasField key fields = false -> getField key fields = VUndefined.
Proof.
  induction fields as [|[k v] rest IH]; simpl; auto.
  intros H. apply orb_false_iff in H as [H1 H2]. rewrite H1. auto.
Qed.

Lemma schemeState_Some buffer input scheme rest :
  schemeState buffer input = Some (scheme, rest) ->
  exists body, input = body ++ 58%N :: rest /\ forallb isSchemeChar body = true.
Proof.
  revert buffer. induction input as [|c input IH]; intros buffer H; [discriminate|].
  cbn [schemeState] in H.
  destruct (isAlpha c || isDigit c || N.eqb c 43 || N.eqb c 45 || N.eqb c 46) eqn:E.
  - apply IH in H as (body & -> & Hb). exists (c :: body). split; [reflexivity|].
    cbn [forallb]. unfold isSchemeChar at 1. now rewrite E.
  - destruct (N.eqb_spec c 58); [|discriminate]. injection H as _ <-. subst c.
    exists []. split; reflexivity.
Qed.

Section ParsingFacts.

Variable afterScheme : jsstring -> jsstring -> bool.

Lemma parseShape_ok {S} (f : S -> list pathItem -> value -> option value * list ZodIssue) at_ fields shape out :
  parseShape f at_ fields shape = (Some out, []) ->
  forall key s, In (key, s) shape ->
    exists v, f s (at_ ++ [Key key]) (getField key fields) = (Some v, []).
Proof.
  revert out. induction shape as [|[k s0] rest IH]; intros out H key s Hin.
  - destruct Hin.
  - simpl in H.
    destruct (f s0 (at_ ++ [Key k]) (getField k fields)) as [r is1] eqn:E1.
    destruct (parseShape f at_ fields rest) as [rs is2] eqn:E2.
    injection H as Hv His.
    apply app_eq_nil in His as [-> ->].
    destruct r as [v|]; [|discriminate].
    destruct rs as [vs|]; [|destruct v; discriminate].
    destruct Hin as [Heq|Hin].
    + injection Heq as <- <-. eauto.
    + eapply IH; eauto.
Qed.

Lemma safeParse_Success t input out :
  safeParse afterScheme t input = Success out ->
  _parse afterScheme t [] input = (Some out, []).
Proof.
  unfold safeParse. destruct (_parse afterScheme t [] input) as [[v|] [|i iss]]; try discriminate.
  now intros [= ->].
Qed.

Lemma safeParse_object_fields shape fields out :
  safeParse afterScheme (ZObject shape) (VObject fields) = Success out ->
  forall key s, In (key, s) shape ->
    exists v, _parse afterScheme s [Key key] (getField key fields) = (Some v, []).
Proof.
  intros H key s Hin. apply safeParse_Success in H. simpl in H.
  destruct (parseShape (_parse afterScheme) [] fields shape) as [rs issues] eqn:E.
  injection H as Hv ->. destruct rs as [vs|]; [|discriminate].
  eapply parseShape_ok in E; eauto.
Qed.

Lemma parse_string_ok def at_ input v :
  _parse afterScheme (ZString def) at_ input = (Some v, []) ->
  exists s, input = VString s /\ v = input /\ forallb (fun c => runCheck afterScheme c s) (checks def) = true.
Proof.
  simpl. destruct input; try discriminate.
  intros [= <- H]. exists s. repeat split.
  induction (checks def) as [|c cs IH]; simpl in *; auto.
  destruct (runCheck afterScheme c s); simpl in *; [auto|discriminate].
Qed.

Lemma parseItems_ok f at_ i items out :
  parseItems f at_ i items = (Some out, []) ->
  forall x, In x items -> exists j v, f (at_ ++ [Index j]) x = (Some v, []).
Proof.
  revert i out. induction items as [|y rest IH]; intros i out H x Hin.
  - destruct Hin.
  - simpl in H.
    destruct (f (at_ ++ [Index i]) y) as [r is1] eqn:E1.
    destruct (parseItems f at_ (S i) rest) as [rs is2] eqn:E2.
    injection H as Hv His.
    apply app_eq_nil in His as [-> ->].
    destruct r as [v|]; [|discriminate].
    destruct rs as [vs|]; [|discriminate].
    destruct Hin as [<-|Hin]; eauto.
Qed.

Lemma parse_array_ok element at_ input v :
  _parse afterScheme (ZArray element) at_ input = (Some v, []) ->
  exists items, input = VArray items /\
    forall x, In x items -> exists j w, _parse afterScheme element (at_ ++ [Index j]) x = (Some w, []).
Proof.
  simpl. destruct input; try discriminate.
  destruct (parseItems (_parse afterScheme element) at_ 0 items) as [rs issues] eqn:E.
  intros [= Hv ->]. destruct rs; [|discriminate].
  exists items. split; auto. eapply parseItems_ok; eauto.
Qed.

Lemma blog_success_title_tags fields out :
  safeParse afterScheme (schema blog) (VObject fields) = Success out ->
  (exists s, getField (js "title") fields = VString s)
  /\ isStringArray (getField (js "tags") fields) = true.
Proof.
  intros H. pose proof (safeParse_object_fields _ _ _ H) as Hf.
  split.
  - destruct (Hf (js "title") (ZString z.string)) as [v Hv]; [simpl; auto|].
    apply parse_string_ok in Hv as (s & -> & _). eauto.
  - destruct (Hf (js "tags") (z.array z.string)) as [v Hv]; [simpl; auto|].
    apply parse_array_ok in Hv as (items & -> & Hall).
    simpl. apply forallb_forall. intros x Hx.
    destruct (Hall x Hx) as (j & w & Hw).
    apply parse_string_ok in Hw as (s & -> & _). reflexivity.
Qed.

Lemma validateAll_invalid s x raw :
  In x raw -> (exists issues, safeParse afterScheme s x = Failure issues) ->
  forall i, exists j issues, validateAll afterScheme s i raw = InvalidEntry j issues.
Proof.
  intros Hin [issues Hx]. induction raw as [|y rest IH]; [destruct Hin|].
  intros i. simpl.
  destruct (safeParse afterScheme s y) as [v|iss] eqn:E; [|eauto].
  destruct Hin as [->|Hin]; [congruence|].
  destruct (IH Hin (S i)) as (j & iss & ->). eauto.
Qed.

Lemma project_parses fields p :
  holdsProject fields p -> wellFormedProject afterScheme p ->
  safeParse afterScheme (schema projects) (VObject fields)
  = Success (VObject (projectFields p)).
Proof.
  intros Hf (Hid & Hrepo & Hlive).
  assert (H1 := Hf _ _ (or_introl eq_refl)).
  assert (H2 := Hf _ _ (or_intror (or_introl eq_refl))).
  assert (H3 := Hf _ _ (or_intror (or_intror (or_introl eq_refl)))).
  assert (H4 := Hf _ _ (or_intror (or_intror (or_intror (or_introl eq_refl))))).
  assert (H5 := Hf _ _ (or_intror (or_intror (or_intror (or_intror (or_introl eq_refl)))))).
  assert (H6 := Hf _ _ (or_intror (or_intror (or_intror (or_intror (or_intror (or_introl eq_refl))))))).
  unfold safeParse. cbn [schema projects z.object map fst snd _parse parseShape app].
  rewrite H1, H2, H3, H4, H5, H6.
  cbn [_parse checks z.string z.url z.number z.array app flat_map runCheck].
  rewrite Hrepo, Hlive. cbn.
  unfold projectFields. destruct (project_id p); [congruence|reflexivity|reflexivity].
Qed.

Lemma basicURLParser_hasScheme s :
  basicURLParser afterScheme s = true -> hasScheme s.
Proof.
  unfold basicURLParser, hasScheme. destruct (cleanInput s) as [|c rest]; [discriminate|].
  destruct (isAlpha c) eqn:Ea; [|discriminate].
  destruct (schemeState [toLower c] rest) as [[scheme rest']|] eqn:Es; [|discriminate].
  intros _. apply schemeState_Some in Es as (body & -> & Hb).
  exists c, body, rest'. auto.
Qed.

Lemma safeParse_Failure t input :
  (forall out, safeParse afterScheme t input <> Success out) ->
  exists issues, safeParse afterScheme t input = Failure issues.
Proof.
  intros H. destruct (safeParse afterScheme t input) as [out|issues]; [|eauto].
  now destruct (H out).
Qed.

Lemma date_schema_accepts v :
  (exists out, safeParse afterScheme (z.date z.string) v = Success out)
  <-> exists s, v = VString s /\ dateRegex s = true.
Proof.
  split.
  - intros (out & H). apply safeParse_Success in H.
    apply parse_string_ok in H as (s & -> & _ & Hc). exists s. split; [reflexivity|].
    cbn [forallb checks z.date z.string app runCheck] in Hc.
    now rewrite andb_true_r in Hc.
  - intros (s & -> & H). exists (VString s). unfold safeParse.
    cbn [_parse checks z.date z.string app flat_map runCheck]. now rewrite H.
Qed.

End ParsingFacts.

(* ===================================================================== *)
(** * Numbers: integers are computed with exactly                         *)
(* ===================================================================== *)

Lemma Qred_inject_Z z : Qred (inject_Z z) = inject_Z z.
Proof.
  unfold Qred, inject_Z.
  pose proof (Z.ggcd_gcd z 1) as Hg.
  pose proof (Z.ggcd_correct_divisors z 1) as Hd.
  destruct (Z.ggcd z 1) as [g [aa bb]]. simpl in Hg, Hd.
  rewrite Z.gcd_1_r in Hg. subst g. destruct Hd as [Ha Hb].
  rewrite Z.mul_1_l in Ha, Hb. subst aa bb. reflexivity.
Qed.

Lemma round64_Qeq q q' : (q == q')%Q -> round64 q = round64 q'.
Proof. intros H. unfold round64. now rewrite (Qred_complete _ _ H). Qed.

Lemma roundHalfEven_1 n : roundHalfEven n 1 = n.
Proof.
  unfold roundHalfEven. rewrite Z.mod_1_r, Z.div_1_r. reflexivity.
Qed.

Lemma roundPos_int negative n :
  Z.pos n < 2 ^ 53 ->
  roundPos negative n 1 = Fin (inject_Z (if negative then Z.neg n else Z.pos n)).
Proof.
  intros Hn. unfold roundPos, ilog2.
  change (Z.log2 1) with 0. rewrite Z.sub_0_r.
  set (l := Z.log2 (Z.pos n)).
  assert (Hl : 0 <= l < 53).
  { split; [apply Z.log2_nonneg|]. apply Z.log2_lt_pow2; lia. }
  assert (Hspec : 2 ^ l <= Z.pos n) by (apply Z.log2_spec; lia).
  replace (0 <=? l) with true by (symmetry; apply Z.leb_le; lia).
  replace (Z.pos n <? 1 * 2 ^ l) with false by (symmetry; apply Z.ltb_ge; lia).
  replace (Z.max (l - 52) (-1074)) with (l - 52) by lia.
  set (e := l - 52).
  assert (He : -52 <= e <= 0) by lia.
  replace (971 <? e) with false by (symmetry; apply Z.ltb_ge; lia).
  replace (e =? 971) with false by (symmetry; apply Z.eqb_neq; lia).
  cbn [orb andb].
  f_equal.
  etransitivity; [|apply (Qred_inject_Z (if negative then Z.neg n else Z.pos n))].
  apply Qred_complete.
  unfold pow2.
  destruct (Z.leb_spec 0 e) as [H0|H0].
  - assert (e = 0) as -> by lia. cbn [Z.pow Z.pow_pos Pos.iter Z.mul Pos.mul].
    rewrite roundHalfEven_1.
    destruct negative; unfold Qeq; simpl; lia.
  - rewrite roundHalfEven_1.
    assert (Hp : 0 < 2 ^ (- e)) by (apply Z.pow_pos_nonneg; lia).
    destruct negative; unfold Qeq, Qmult, inject_Z; cbn [Qnum Qden];
      rewrite Pos.mul_1_l, Z2Pos.id by lia; lia.
Qed.

Lemma round64_int z : Z.abs z < 2 ^ 53 -> round64 (inject_Z z) = Fin (inject_Z z).
Proof.
  intros H. unfold round64. rewrite Qred_inject_Z. unfold inject_Z.
  destruct z as [|p|p].
  - reflexivity.
  - apply (roundPos_int false). lia.
  - apply (roundPos_int true). lia.
Qed.

Lemma F_int z : safeInt z -> F z = Fin (inject_Z z).
Proof. apply round64_int. Qed.

Lemma num_add_int a b :
  safeInt (a + b) ->
  num_add (Fin (inject_Z a)) (Fin (inject_Z b)) = Fin (inject_Z (a + b)).
Proof.
  intros H. simpl. rewrite <- (round64_int (a + b)) by exact H.
  apply round64_Qeq. rewrite inject_Z_plus. apply Qeq_refl.
Qed.

Lemma num_neg_int a : num_neg (Fin (inject_Z a)) = Fin (inject_Z (- a)).
Proof.
  unfold num_neg. f_equal. etransitivity; [|apply (Qred_inject_Z (- a))]. apply Qred_complete.
  rewrite inject_Z_opp. apply Qeq_refl.
Qed.

Lemma num_sub_int a b :
  safeInt (a - b) ->
  num_sub (Fin (inject_Z a)) (Fin (inject_Z b)) = Fin (inject_Z (a - b)).
Proof.
  intros H. unfold num_sub. rewrite num_neg_int, num_add_int; [reflexivity|exact H].
Qed.

Lemma num_mul_int a b :
  safeInt (a * b) ->
  num_mul (Fin (inject_Z a)) (Fin (inject_Z b)) = Fin (inject_Z (a * b)).
Proof.
  intros H. simpl. rewrite <- (round64_int (a * b)) by exact H.
  apply round64_Qeq. rewrite inject_Z_mult. apply Qeq_refl.
Qed.

Lemma truncate_int z : truncate (inject_Z z) = z.
Proof. unfold truncate. simpl. apply Z.quot_1_r. Qed.

Lemma toInt_int z : toInt (Fin (inject_Z z)) = z.
Proof. unfold toInt. simpl. apply truncate_int. Qed.

Lemma number_eqb_eq a b : number_eqb a b = true -> a = b.
Proof.
  destruct a as [|s|[n d]], b as [|s'|[n' d']]; simpl; try discriminate; auto.
  - intros H. apply Bool.eqb_prop in H. now subst.
  - intros H. apply andb_true_iff in H as [H1 H2].
    apply Z.eqb_eq in H1. apply Pos.eqb_eq in H2. now subst.
Qed.

Lemma safeInt_small z : Z.abs z <= 8700000000000000 -> safeInt z.
Proof. unfold safeInt. change (2 ^ 53) with 9007199254740992. lia. Qed.

(* ===================================================================== *)
(** * The calendar                                                        *)
(* ===================================================================== *)

Lemma DayFromYear_succ y : DayFromYear (y + 1) = DayFromYear y + DaysInYear y.
Proof.
  unfold DayFromYear, DaysInYear.
  destruct (y mod 400 =? 0) eqn:E400; [apply Z.eqb_eq in E400|apply Z.eqb_neq in E400];
  [|destruct (y mod 100 =? 0) eqn:E100; [apply Z.eqb_eq in E100|apply Z.eqb_neq in E100];
    [|destruct (y mod 4 =? 0) eqn:E4; [apply Z.eqb_eq in E4|apply Z.eqb_neq in E4]]];
  Z.div_mod_to_equations; lia.
Qed.

Lemma DaysInYear_cases y : DaysInYear y = 365 \/ DaysInYear y = 366.
Proof. unfold DaysInYear. repeat destruct (_ =? _); auto. Qed.

Lemma DayFromYear_lt y : DayFromYear y < DayFromYear (y + 1).
Proof. rewrite DayFromYear_succ. destruct (DaysInYear_cases y); lia. Qed.

Lemma DayFromYear_mono y y' : y <= y' -> DayFromYear y <= DayFromYear y'.
Proof. unfold DayFromYear. intros. Z.div_mod_to_equations. lia. Qed.

Lemma YearFromTime_bounds t :
  DayFromYear (YearFromTime t) <= Day t < DayFromYear (YearFromTime t + 1).
Proof.
  unfold YearFromTime, TimeFromYear, Day, msPerDay.
  set (d := t / 86400000).
  assert (Ht : 86400000 * d <= t < 86400000 * d + 86400000).
  { unfold d. pose proof (Z.mod_pos_bound t 86400000). pose proof (Z.div_mod t 86400000). lia. }
  set (y := 1970 + 400 * d / 146097).
  assert (Hlo : DayFromYear (y - 1) <= d) by (unfold DayFromYear, y; Z.div_mod_to_equations; lia).
  assert (Hhi : d < DayFromYear (y + 2)) by (unfold DayFromYear, y; Z.div_mod_to_equations; lia).
  destruct (t <? 86400000 * DayFromYear y) eqn:E1;
    [apply Z.ltb_lt in E1|apply Z.ltb_ge in E1].
  - replace (y - 1 + 1) with y by lia. lia.
  - destruct (86400000 * DayFromYear (y + 1) <=? t) eqn:E2;
      [apply Z.leb_le in E2|apply Z.leb_gt in E2].
    + replace (y + 1 + 1) with (y + 2) by lia. lia.
    + lia.
Qed.

Lemma YearFromTime_unique t y :
  DayFromYear y <= Day t < DayFromYear (y + 1) -> YearFromTime t = y.
Proof.
  intros H. pose proof (YearFromTime_bounds t) as B.
  destruct (Z.lt_trichotomy (YearFromTime t) y) as [L|[E|G]]; [|exact E|].
  - pose proof (DayFromYear_mono (YearFromTime t + 1) y). lia.
  - pose proof (DayFromYear_mono (y + 1) (YearFromTime t)). lia.
Qed.

Lemma DaysInYear_isLeapYear y : DaysInYear y = if isLeapYear y then 366 else 365.
Proof.
  unfold DaysInYear, isLeapYear.
  destruct (Z.eqb_spec (y mod 400) 0), (Z.eqb_spec (y mod 100) 0),
    (Z.eqb_spec (y mod 4) 0); simpl; try reflexivity;
    exfalso; Z.div_mod_to_equations; lia.
Qed.

Lemma month_within_year leap m d :
  1 <= m <= 12 -> 1 <= d <= monthLength leap m ->
  let w := daysBeforeMonth (m - 1) (if leap then 366 else 365) + d - 1 in
  let l := if leap then 1 else 0 in
  0 <= w < (if leap then 366 else 365)
  /\ (if w <? 31 then 0
      else if w <? 59 + l then 1
      else if w <? 90 + l then 2
      else if w <? 120 + l then 3
      else if w <? 151 + l then 4
      else if w <? 181 + l then 5
      else if w <? 212 + l then 6
      else if w <? 243 + l then 7
      else if w <? 273 + l then 8
      else if w <? 304 + l then 9
      else if w <? 334 + l then 10
      else 11) = m - 1
  /\ match m - 1 with
     | 0 => w + 1
     | 1 => w - 30
     | 2 => w - 58 - l
     | 3 => w - 89 - l
     | 4 => w - 119 - l
     | 5 => w - 150 - l
     | 6 => w - 180 - l
     | 7 => w - 211 - l
     | 8 => w - 242 - l
     | 9 => w - 272 - l
     | 10 => w - 303 - l
     | _ => w - 333 - l
     end = d.
Proof.
  intros Hm Hd w l. subst w l. destruct leap; month_cases m; eval_closed;
    cbv beta iota; (split; [lia|split; [ltb_cases|lia]]).
Qed.

Lemma fields_of_valid_date y m d t :
  isValidDate y m d = true -> Day t = civilDay y m d ->
  YearFromTime t = y /\ MonthFromTime t = m - 1 /\ DateFromTime t = d.
Proof.
  unfold isValidDate, daysInMonth, civilDay. intros V Ht.
  apply andb_true_iff in V as [V Hd2]. apply andb_true_iff in V as [V Hd1].
  apply andb_true_iff in V as [Hm1 Hm2].
  apply Z.leb_le in Hm1, Hm2, Hd1, Hd2.
  replace ((m - 1) / 12) with 0 in Ht by (Z.div_mod_to_equations; lia).
  replace ((m - 1) mod 12) with (m - 1) in Ht by (Z.div_mod_to_equations; lia).
  rewrite Z.add_0_r in Ht.
  pose proof (DaysInYear_isLeapYear y) as HL.
  pose proof (DayFromYear_succ y) as HS.
  destruct (month_within_year (isLeapYear y) m d) as (Hw & Hmo & Hda); [lia|lia|].
  rewrite HL in *.
  set (w := daysBeforeMonth (m - 1) (if isLeapYear y then 366 else 365) + d - 1) in *.
  assert (Hy : YearFromTime t = y).
  { apply YearFromTime_unique. lia. }
  assert (Hwy : DayWithinYear t = w).
  { unfold DayWithinYear. rewrite Hy, Ht. lia. }
  assert (Hi : InLeapYear t = if isLeapYear y then 1 else 0).
  { unfold InLeapYear. rewrite Hy, HL. now destruct (isLeapYear y). }
  assert (Hmt : MonthFromTime t = m - 1).
  { unfold MonthFromTime. rewrite Hwy, Hi. exact Hmo. }
  split; [exact Hy|]. split; [exact Hmt|].
  unfold DateFromTime. rewrite Hmt, Hwy, Hi. exact Hda.
Qed.

Lemma Day_within n r : 0 <= r < msPerDay -> Day (msPerDay * n + r) = n.
Proof.
  intros H. unfold Day. symmetry. apply (Z.div_unique_pos _ _ n r); [exact H|reflexivity].
Qed.

Lemma fields_same_day t1 t2 :
  Day t1 = Day t2 ->
  YearFromTime t1 = YearFromTime t2
  /\ MonthFromTime t1 = MonthFromTime t2
  /\ DateFromTime t1 = DateFromTime t2.
Proof.
  intros E.
  assert (Hy : YearFromTime t1 = YearFromTime t2).
  { apply YearFromTime_unique. rewrite E. apply YearFromTime_bounds. }
  assert (Hw : DayWithinYear t1 = DayWithinYear t2)
    by (unfold DayWithinYear; now rewrite E, Hy).
  assert (Hl : InLeapYear t1 = InLeapYear t2)
    by (unfold InLeapYear; now rewrite Hy).
  assert (Hm : MonthFromTime t1 = MonthFromTime t2)
    by (unfold MonthFromTime; now rewrite Hw, Hl).
  split; [exact Hy|]. split; [exact Hm|].
  unfold DateFromTime. now rewrite Hm, Hw, Hl.
Qed.

(* ===================================================================== *)
(** * Time zones                                                          *)
(* ===================================================================== *)

Lemma instantsFrom_In lo o trs t u :
  In u (instantsFrom lo o trs t) <->
  exists p, In p (periodsFrom lo o trs) /\ u = t - poffset p /\ inPeriod p u.
Proof.
  revert lo o. induction trs as [|[T o'] rest IH]; intros lo o.
  - cbn [instantsFrom periodsFrom]. split.
    + destruct lo as [l|].
      * destruct (Z.leb_spec l (t - o)); [|intros []].
        intros [<-|[]]. eexists. split; [now left|]. cbn. unfold inPeriod. cbn. auto.
      * intros [<-|[]]. eexists. split; [now left|]. cbn. unfold inPeriod. cbn. auto.
    + intros (p & [<-|[]] & -> & Hs & He). cbn in *.
      destruct lo as [l|]; [|now left].
      destruct (Z.leb_spec l (t - o)); [now left|lia].
  - cbn [instantsFrom periodsFrom]. rewrite in_app_iff, IH. split.
    + intros [H|(p & Hp & E & Hin)].
      * destruct lo as [l|].
        -- destruct (Z.leb_spec l (t - o)); [|destruct H].
           destruct (Z.ltb_spec (t - o) T); [|destruct H].
           destruct H as [<-|[]]. eexists. split; [now left|].
           unfold inPeriod. cbn. auto.
        -- cbn in H. destruct (Z.ltb_spec (t - o) T); [|destruct H].
           destruct H as [<-|[]]. eexists. split; [now left|].
           unfold inPeriod. cbn. auto.
      * exists p. split; [now right|auto].
    + intros (p & [<-|Hp] & E & Hs & He).
      * left. cbn in *. subst u.
        destruct lo as [l|].
        -- destruct (Z.leb_spec l (t - o)); [|lia].
           destruct (Z.ltb_spec (t - o) T); [now left|lia].
        -- cbn. destruct (Z.ltb_spec (t - o) T); [now left|lia].
      * right. exists p. unfold inPeriod. auto.
Qed.

Lemma lastLocalTimes_In lo o trs x :
  In x (lastLocalTimes lo o trs) <->
  exists p e, In p (periodsFrom lo o trs) /\ pend p = Some e
              /\ inPeriod p (e - 1) /\ x = e - 1 + poffset p.
Proof.
  revert lo o. induction trs as [|[T o'] rest IH]; intros lo o;
    cbn [lastLocalTimes periodsFrom].
  - split; [intros []|]. intros (p & e & [<-|[]] & E & _). discriminate.
  - rewrite in_app_iff, (IH (Some T)). split.
    + intros [H|(p & e & Hp & E & Hin & ->)].
      * exists {| pstart := lo; pend := Some T; poffset := o |}, T.
        split; [now left|]. unfold inPeriod. cbn [pstart pend poffset].
        destruct lo as [l|].
        -- destruct (Z.ltb_spec l T); [|destruct H].
           destruct H as [<-|[]]. repeat split; lia.
        -- destruct H as [<-|[]]. repeat split; lia.
      * exists p, e. split; [now right|auto].
    + intros (p & e & [<-|Hp] & E & Hin & ->).
      * left. cbn [pstart pend poffset] in *. injection E as <-.
        destruct Hin as [Hin _]. cbn [pstart] in Hin.
        destruct lo as [l|]; [|now left].
        destruct (Z.ltb_spec l T); [now left|lia].
      * right. exists p, e. auto.
Qed.

Lemma maxBelow_acc t l acc :
  match fold_left
          (fun acc x =>
             if x <? t then
               match acc with
               | Some a => Some (Z.max a x)
               | None => Some x
               end
             else acc) l acc
  with
  | Some m =>
      (In m l \/ acc = Some m) /\ (forall y, In y l -> y < t -> y <= m)
      /\ (forall a, acc = Some a -> a <= m)
      /\ (m < t \/ acc = Some m)
  | None => acc = None /\ forall y, In y l -> ~ y < t
  end.
Proof.
  revert acc. induction l as [|x l IH]; intros acc; cbn [fold_left].
  - destruct acc as [a|].
    + split; [now right|]. split; [intros y []|].
      split; [intros ? [= ->]; lia|now right].
    + split; [reflexivity|intros y []].
  - specialize (IH (if x <? t then match acc with Some a => Some (Z.max a x) | None => Some x end else acc)).
    destruct (fold_left _ l _) as [m|].
    + destruct IH as (Hin & Hmax & Hacc & Hlt).
      destruct (Z.ltb_spec x t) as [Hx|Hx].
      * destruct acc as [a|].
        -- specialize (Hacc _ eq_refl).
           split; [|split; [|split]].
           ++ destruct Hin as [Hin|[= Hm]]; [left; now right|].
              destruct (Z.max_spec a x) as [[_ E]|[_ E]]; rewrite E in Hm; subst m;
                [left; now left|now right].
           ++ intros y [<-|Hy] Hyt; [lia|auto].
           ++ intros a' [= <-]. lia.
           ++ destruct Hlt as [Hlt|[= Hm]]; [now left|].
              destruct (Z.max_spec a x) as [[_ E]|[_ E]]; rewrite E in Hm; subst m;
                [now left|now right].
        -- specialize (Hacc _ eq_refl).
           split; [|split; [|split]].
           ++ destruct Hin as [Hin|[= Hm]]; [left; now right|subst; left; now left].
           ++ intros y [<-|Hy] Hyt; [lia|auto].
           ++ intros a' [=].
           ++ destruct Hlt as [Hlt|[= Hm]]; [now left|subst; now left].
      * split; [|split; [|split]]; auto.
        -- destruct Hin as [Hin|Hin]; [left; now right|now right].
        -- intros y [<-|Hy] Hyt; [lia|auto].
    + destruct IH as (Hacc & Hnone).
      destruct (Z.ltb_spec x t) as [Hx|Hx].
      * destruct acc; discriminate.
      * split; [exact Hacc|]. intros y [<-|Hy]; [lia|auto].
Qed.

Lemma maxBelow_Some t l m :
  maxBelow t l = Some m ->
  In m l /\ m < t /\ forall y, In y l -> y < t -> y <= m.
Proof.
  unfold maxBelow. pose proof (maxBelow_acc t l None) as H. intros E.
  rewrite E in H. destruct H as (Hin & Hmax & _ & Hlt).
  destruct Hin as [Hin|]; [|discriminate]. destruct Hlt as [Hlt|]; [|discriminate].
  auto.
Qed.

Lemma maxBelow_None t l :
  maxBelow t l = None -> forall y, In y l -> ~ y < t.
Proof.
  unfold maxBelow. pose proof (maxBelow_acc t l None) as H. intros E.
  rewrite E in H. apply H.
Qed.

Lemma regularFrom_cons lo o T o' rest :
  regularFrom lo o ((T, o') :: rest) = true ->
  Z.abs o < msPerDay
  /\ match lo with Some l => l + 2 * msPerDay <= T | None => True end
  /\ Z.abs (o' - o) < msPerDay
  /\ regularFrom (Some T) o' rest = true.
Proof.
  cbn [regularFrom]. intros H.
  apply andb_true_iff in H as [H1 H]. apply andb_true_iff in H as [H H4].
  apply andb_true_iff in H as [H2 H3].
  apply Z.ltb_lt in H1, H3. repeat split; auto.
  destruct lo; [now apply Z.leb_le in H2|exact I].
Qed.

Lemma orderedFrom_cons lo o T o' rest :
  orderedFrom lo o ((T, o') :: rest) = true ->
  Z.abs o < msPerDay
  /\ match lo with Some l => l <= T | None => True end
  /\ orderedFrom (Some T) o' rest = true.
Proof.
  cbn [orderedFrom]. intros H.
  apply andb_true_iff in H as [H1 H]. apply andb_true_iff in H as [H2 H3].
  apply Z.ltb_lt in H1. repeat split; auto.
  destruct lo; [now apply Z.leb_le in H2|exact I].
Qed.

Lemma regular_is_ordered lo o trs :
  regularFrom lo o trs = true -> orderedFrom lo o trs = true.
Proof.
  revert lo o. induction trs as [|[T o'] rest IH]; intros lo o H; [exact H|].
  apply regularFrom_cons in H as (Ho & Hlo & _ & Hr).
  cbn [orderedFrom]. rewrite (IH _ _ Hr), andb_true_r.
  apply andb_true_iff. split; [now apply Z.ltb_lt|].
  destruct lo as [l|]; [|reflexivity]. apply Z.leb_le. unfold msPerDay in Hlo. lia.
Qed.

Lemma ordered_period lo o trs p :
  orderedFrom lo o trs = true -> In p (periodsFrom lo o trs) ->
  Z.abs (poffset p) < msPerDay
  /\ (forall l, lo = Some l -> exists s, pstart p = Some s /\ l <= s).
Proof.
  revert lo o. induction trs as [|[T o'] rest IH]; intros lo o Hr Hp.
  - destruct Hp as [<-|[]]. cbn in *. rewrite andb_true_r in Hr. apply Z.ltb_lt in Hr.
    split; [exact Hr|]. intros l ->. exists l. split; [reflexivity|lia].
  - apply orderedFrom_cons in Hr as (Ho & Hlo & Hr).
    destruct Hp as [<-|Hp].
    + cbn. split; [exact Ho|]. intros l ->. exists l. split; [reflexivity|lia].
    + destruct (IH _ _ Hr Hp) as (H1 & H3). split; [exact H1|].
      intros l ->. destruct (H3 T eq_refl) as (s & Es & Hs). exists s.
      split; [exact Es|lia].
Qed.

Lemma regular_period lo o trs p :
  regularFrom lo o trs = true -> In p (periodsFrom lo o trs) ->
  forall s e, pstart p = Some s -> pend p = Some e -> s + 2 * msPerDay <= e.
Proof.
  revert lo o. induction trs as [|[T o'] rest IH]; intros lo o Hr Hp.
  - destruct Hp as [<-|[]]. discriminate.
  - apply regularFrom_cons in Hr as (Ho & Hlo & Hj & Hr).
    destruct Hp as [<-|Hp]; [|eauto].
    cbn. intros s e -> [= <-]. exact Hlo.
Qed.

Lemma regular_ordered lo o trs p q :
  regularFrom lo o trs = true ->
  In p (periodsFrom lo o trs) -> In q (periodsFrom lo o trs) ->
  p = q
  \/ (exists e s, pend p = Some e /\ pstart q = Some s /\ e <= s)
  \/ (exists e s, pend q = Some e /\ pstart p = Some s /\ e <= s).
Proof.
  revert lo o. induction trs as [|[T o'] rest IH]; intros lo o Hr Hp Hq.
  - destruct Hp as [<-|[]], Hq as [<-|[]]. now left.
  - apply regularFrom_cons in Hr as (Ho & Hlo & Hj & Hr).
    pose proof (regular_is_ordered _ _ _ Hr) as Hord.
    destruct Hp as [<-|Hp], Hq as [<-|Hq].
    + now left.
    + right. left. destruct (ordered_period _ _ _ _ Hord Hq) as (_ & H3).
      destruct (H3 T eq_refl) as (s & Es & Hs). exists T, s. cbn. auto.
    + right. right. destruct (ordered_period _ _ _ _ Hord Hp) as (_ & H3).
      destruct (H3 T eq_refl) as (s & Es & Hs). exists T, s. cbn. auto.
    + eauto.
Qed.

Lemma periodsFrom_head lo o trs :
  exists p, In p (periodsFrom lo o trs) /\ pstart p = lo /\ poffset p = o.
Proof.
  destruct trs as [|[T o'] rest]; cbn; eexists; (split; [now left|]); cbn; auto.
Qed.

Lemma regular_next lo o trs p e :
  regularFrom lo o trs = true ->
  In p (periodsFrom lo o trs) -> pend p = Some e ->
  exists q, In q (periodsFrom lo o trs) /\ pstart q = Some e
            /\ Z.abs (poffset q - poffset p) < msPerDay.
Proof.
  revert lo o. induction trs as [|[T o'] rest IH]; intros lo o Hr Hp He.
  - destruct Hp as [<-|[]]. discriminate.
  - apply regularFrom_cons in Hr as (Ho & Hlo & Hj & Hr).
    destruct Hp as [<-|Hp].
    + cbn in He. injection He as <-.
      destruct (periodsFrom_head (Some T) o' rest) as (q & Hq & Hs & Hoff).
      exists q. split; [now right|]. split; [exact Hs|]. cbn. now rewrite Hoff.
    + destruct (IH _ _ Hr Hp He) as (q & Hq & Hs & Hoff).
      exists q. split; [now right|auto].
Qed.

Lemma ordered_offsetFrom lo o trs p u :
  orderedFrom lo o trs = true ->
  In p (periodsFrom lo o trs) -> inPeriod p u ->
  offsetFrom o trs u = poffset p.
Proof.
  revert lo o. induction trs as [|[T o'] rest IH]; intros lo o Hr Hp Hu.
  - destruct Hp as [<-|[]]. reflexivity.
  - apply orderedFrom_cons in Hr as (Ho & Hlo & Hr).
    cbn [offsetFrom]. destruct Hp as [<-|Hp].
    + destruct Hu as [_ Hu]. cbn in Hu. destruct (Z.ltb_spec u T); [reflexivity|lia].
    + destruct (ordered_period _ _ _ _ Hr Hp) as (_ & H3).
      destruct (H3 T eq_refl) as (s & Es & Hs).
      destruct Hu as [Hu1 Hu2]. rewrite Es in Hu1.
      destruct (Z.ltb_spec u T); [lia|]. apply (IH (Some T)); auto.
      split; [now rewrite Es|exact Hu2].
Qed.

Lemma last_const (l : list Z) (c d : Z) :
  l <> [] -> (forall v, In v l -> v = c) -> last l d = c.
Proof.
  induction l as [|x l IH]; [congruence|]. intros _ H.
  destruct l as [|y l'].
  - cbn. apply H. now left.
  - change (last (x :: y :: l') d) with (last (y :: l') d).
    apply IH; [discriminate|]. intros v Hv. apply H. now right.
Qed.

Section Zone.

Variable tz : TimeZone.

Let P := periodsFrom None (tzInitial tz) (tzTransitions tz).

Lemma instants_In t u :
  In u (GetNamedTimeZoneEpoch tz t) <->
  exists p, In p P /\ u = t - poffset p /\ inPeriod p u.
Proof. apply instantsFrom_In. Qed.

Lemma uncovered t p :
  GetNamedTimeZoneEpoch tz t = [] -> In p P -> ~ inPeriod p (t - poffset p).
Proof.
  intros E Hp Hin.
  assert (In (t - poffset p) (GetNamedTimeZoneEpoch tz t)) as H
      by (apply instants_In; eauto).
  rewrite E in H. destruct H.
Qed.

Lemma end_before t p e x :
  maxBelow t (lastLocalTimes None (tzInitial tz) (tzTransitions tz)) = Some x ->
  In p P -> pend p = Some e -> inPeriod p (e - 1) -> e <= t - poffset p ->
  e - 1 + poffset p <= x.
Proof.
  intros M Hp He Hin Hle. apply maxBelow_Some in M as (_ & _ & Hmax).
  apply Hmax; [|lia]. apply lastLocalTimes_In. eauto 6.
Qed.

(** A period that shows an instant, and comes to its end before the local
    time [t] is reached, shows its last local time. *)
Lemma shown_to_the_end p u e :
  inPeriod p u -> pend p = Some e -> inPeriod p (e - 1).
Proof.
  intros [H1 H2] He. rewrite He in H2. split; [|rewrite He; lia].
  destruct (pstart p); [lia|exact I].
Qed.

(** [tBefore], as [localOffset] computes it, is what the specification
    asks for: the largest local time before the skipped time [t] that the
    clock shows. *)
Lemma tBefore_spec t :
  GetNamedTimeZoneEpoch tz t = [] ->
  match maxBelow t (lastLocalTimes None (tzInitial tz) (tzTransitions tz)) with
  | Some x =>
      x < t /\ GetNamedTimeZoneEpoch tz x <> []
      /\ forall x', x < x' < t -> GetNamedTimeZoneEpoch tz x' = []
  | None => forall x', x' < t -> GetNamedTimeZoneEpoch tz x' = []
  end.
Proof.
  intros E.
  assert (Hend : forall x' u, x' < t -> In u (GetNamedTimeZoneEpoch tz x') ->
            exists y, In y (lastLocalTimes None (tzInitial tz) (tzTransitions tz))
                      /\ x' <= y < t).
  { intros x' u Hx Hu. apply instants_In in Hu as (q & Hq & Eu & Hin).
    pose proof (uncovered t q E Hq) as Hun.
    destruct (pend q) as [e|] eqn:Eq.
    - assert (e <= t - poffset q).
      { destruct (Z.le_gt_cases e (t - poffset q)) as [|Hgt]; [assumption|].
        exfalso. apply Hun. destruct Hin as [H1 H2]. split; [|rewrite Eq; lia].
        destruct (pstart q); [lia|exact I]. }
      exists (e - 1 + poffset q). split.
      + apply lastLocalTimes_In. exists q, e.
        split; [exact Hq|]. split; [exact Eq|]. split; [|reflexivity].
        now apply (shown_to_the_end q u).
      + destruct Hin as [_ H2]. rewrite Eq in H2. lia.
    - exfalso. apply Hun. destruct Hin as [H1 _]. split; [|now rewrite Eq].
      destruct (pstart q); [lia|exact I]. }
  destruct (maxBelow t (lastLocalTimes None (tzInitial tz) (tzTransitions tz)))
    as [x|] eqn:M.
  - pose proof (maxBelow_Some _ _ _ M) as (Hx & Hxt & Hmax).
    split; [exact Hxt|]. split.
    + apply lastLocalTimes_In in Hx as (k & e & Hk & Hke & Hkin & ->).
      intros Hnil.
      assert (In (e - 1) (GetNamedTimeZoneEpoch tz (e - 1 + poffset k))) as H.
      { apply instants_In. exists k. split; [exact Hk|]. split; [lia|exact Hkin]. }
      rewrite Hnil in H. destruct H.
    + intros x' Hx'. destruct (GetNamedTimeZoneEpoch tz x') as [|u us] eqn:Ex'; [reflexivity|].
      destruct (Hend x' u) as (y & Hy & Hyt); [lia|rewrite Ex'; now left|].
      specialize (Hmax y Hy). lia.
  - intros x' Hx'. destruct (GetNamedTimeZoneEpoch tz x') as [|u us] eqn:Ex'; [reflexivity|].
    destruct (Hend x' u) as (y & Hy & Hyt); [lia|rewrite Ex'; now left|].
    exfalso. apply (maxBelow_None _ _ M y Hy). lia.
Qed.

(** A local time that the clock shows is read back as itself. *)
Lemma localOffset_shown t :
  orderedZone tz = true -> GetNamedTimeZoneEpoch tz t <> [] ->
  Z.abs (localOffset tz t) < msPerDay
  /\ LocalTime tz (t - localOffset tz t) = t.
Proof.
  intros Hord Hne. unfold localOffset, LocalTime.
  destruct (GetNamedTimeZoneEpoch tz t) as [|u us] eqn:E; [congruence|].
  assert (In u (GetNamedTimeZoneEpoch tz t)) as Hu by (rewrite E; now left).
  apply instants_In in Hu as (p & Hp & Eu & Hin).
  pose proof (ordered_offsetFrom _ _ _ p u Hord Hp Hin) as Hoff.
  fold (GetNamedTimeZoneOffset tz u) in Hoff. rewrite Hoff.
  destruct (ordered_period _ _ _ p Hord Hp) as (Hop & _).
  split; [exact Hop|].
  replace (t - poffset p) with u by lia. rewrite Hoff. lia.
Qed.

Section Regular.

Hypothesis Hreg : regularZone tz = true.

Lemma offset_in_period p u :
  In p P -> inPeriod p u -> GetNamedTimeZoneOffset tz u = poffset p.
Proof. apply ordered_offsetFrom, regular_is_ordered. exact Hreg. Qed.

Lemma period_facts p :
  In p P ->
  Z.abs (poffset p) < msPerDay
  /\ (forall s e, pstart p = Some s -> pend p = Some e -> s + 2 * msPerDay <= e).
Proof.
  intros Hp. split.
  - now destruct (ordered_period _ _ _ p (regular_is_ordered _ _ _ Hreg) Hp).
  - exact (regular_period _ _ _ p Hreg Hp).
Qed.

Lemma localOffset_regular t :
  Z.abs (localOffset tz t) < msPerDay
  /\ 0 <= LocalTime tz (t - localOffset tz t) - t < msPerDay.
Proof.
  destruct (GetNamedTimeZoneEpoch tz t) as [|u us] eqn:E.
  2: { assert (GetNamedTimeZoneEpoch tz t <> []) as Hne by (rewrite E; discriminate).
       destruct (localOffset_shown t (regular_is_ordered _ _ _ Hreg) Hne) as (Ho & Hl).
       split; [exact Ho|]. rewrite Hl. unfold msPerDay. lia. }
  unfold localOffset, LocalTime. rewrite E.
  - destruct (maxBelow t (lastLocalTimes None (tzInitial tz) (tzTransitions tz)))
      as [x|] eqn:M.
    + pose proof (maxBelow_Some _ _ _ M) as (Hx & Hxt & Hmax).
      apply lastLocalTimes_In in Hx as (k & e & Hk & Hke & Hkin & Ex).
      fold P in Hk.
      destruct (period_facts k Hk) as (Hok & Hklen).
      assert (Hall : forall v, In v (GetNamedTimeZoneEpoch tz x) -> v = e - 1).
      { intros v Hv. apply instants_In in Hv as (q & Hq & Ev & Hqin).
        destruct (period_facts q Hq) as (Hoq & Hqlen).
        destruct (regular_ordered _ _ _ k q Hreg Hk Hq)
          as [<-|[(e0 & s & He0 & Hs & Hle)|(e' & s & He' & Hs & Hle)]].
        - lia.
        - exfalso. rewrite Hke in He0. injection He0 as <-.
          destruct Hqin as [Hq1 Hq2]. rewrite Hs in Hq1.
          destruct (pend q) as [e'|] eqn:Eq.
          + specialize (Hqlen s e' Hs eq_refl).
            assert (e' <= t - poffset q).
            { destruct (Z.le_gt_cases e' (t - poffset q)) as [|Hgt]; [assumption|].
              exfalso. apply (uncovered t q E Hq). split; [rewrite Hs; lia|rewrite Eq; lia]. }
            assert (inPeriod q (e' - 1)) as Hlast
              by (split; [rewrite Hs|rewrite Eq]; unfold msPerDay in *; lia).
            pose proof (end_before t q e' x M Hq Eq Hlast H).
            unfold msPerDay in *. lia.
          + apply (uncovered t q E Hq). split; [rewrite Hs; lia|now rewrite Eq].
        - exfalso. destruct Hqin as [Hq1 Hq2]. rewrite He' in Hq2.
          specialize (Hklen s e Hs Hke). unfold msPerDay in *. lia. }
      assert (Hne : GetNamedTimeZoneEpoch tz x <> []).
      { intros Hnil.
        assert (In (e - 1) (GetNamedTimeZoneEpoch tz x)) as H.
        { apply instants_In. exists k. split; [exact Hk|]. split; [lia|exact Hkin]. }
        rewrite Hnil in H. destruct H. }
      rewrite (last_const _ (e - 1) _ Hne Hall).
      rewrite (offset_in_period k (e - 1) Hk Hkin).
      split; [exact Hok|].
      destruct (regular_next _ _ _ k e Hreg Hk Hke) as (q & Hq & Hqs & Hjump).
      fold P in Hq.
      destruct (period_facts q Hq) as (Hoq & Hqlen).
      assert (Hlt : t - poffset q < e).
      { destruct (Z.lt_ge_cases (t - poffset q) e) as [|Hge]; [assumption|].
        exfalso.
        destruct (pend q) as [e'|] eqn:Eq.
        - specialize (Hqlen e e' Hqs eq_refl).
          assert (e' <= t - poffset q).
          { destruct (Z.le_gt_cases e' (t - poffset q)) as [|Hgt]; [assumption|].
            exfalso. apply (uncovered t q E Hq). split; [rewrite Hqs; lia|rewrite Eq; lia]. }
          assert (inPeriod q (e' - 1)) as Hlast
            by (split; [rewrite Hqs|rewrite Eq]; unfold msPerDay in *; lia).
          pose proof (end_before t q e' x M Hq Eq Hlast H).
          unfold msPerDay in *. lia.
        - apply (uncovered t q E Hq). split; [rewrite Hqs; lia|now rewrite Eq]. }
      assert (Hqin : inPeriod q (t - poffset k)).
      { split; [rewrite Hqs; lia|].
        destruct (pend q) as [e'|] eqn:Eq; [|exact I].
        specialize (Hqlen e e' Hqs eq_refl). unfold msPerDay in *. lia. }
      rewrite (offset_in_period q _ Hq Hqin). unfold msPerDay in *. lia.
    + exfalso.
      destruct (periodsFrom_head None (tzInitial tz) (tzTransitions tz))
        as (p & Hp & Hps & Hpo).
      fold P in Hp.
      apply (uncovered t p E Hp). split; [now rewrite Hps|].
      destruct (pend p) as [e|] eqn:Ep; [|exact I].
      destruct (Z.lt_ge_cases (t - poffset p) e) as [|Hge]; [assumption|].
      exfalso. apply (maxBelow_None _ _ M (e - 1 + poffset p)); [|lia].
      apply lastLocalTimes_In. exists p, e. fold P.
      split; [exact Hp|]. split; [exact Ep|]. split; [|reflexivity].
      split; [now rewrite Hps|rewrite Ep; lia].
Qed.

End Regular.

(** Reading the midnight of day [n] as a local time and showing the
    resulting instant in local time gives a time of day [n]. *)
Lemma localOffset_keeps n :
  keepsMidnight tz n = true ->
  Z.abs (localOffset tz (msPerDay * n)) < msPerDay
  /\ 0 <= LocalTime tz (msPerDay * n - localOffset tz (msPerDay * n))
           - msPerDay * n < msPerDay.
Proof.
  unfold keepsMidnight. intros H. apply orb_true_iff in H as [H|H].
  - now apply localOffset_regular.
  - apply andb_true_iff in H as [Hord Hne].
    destruct (localOffset_shown (msPerDay * n) Hord) as (Ho & ->).
    + intros E. rewrite E in Hne. discriminate.
    + split; [exact Ho|]. unfold msPerDay. lia.
Qed.

End Zone.

(* ===================================================================== *)
(** * The Date constructor on the fields of a date string                 *)
(* ===================================================================== *)

Lemma DayFromYear_range y :
  99 <= y <= 10008 -> -683470 <= DayFromYear y <= 2935828.
Proof.
  intros H. pose proof (DayFromYear_mono 99 y). pose proof (DayFromYear_mono y 10008).
  change (DayFromYear 99) with (-683368) in *.
  change (DayFromYear 10008) with 2935819 in *. lia.
Qed.

Lemma daysBeforeMonth_range mn n : 0 <= daysBeforeMonth mn n <= 335.
Proof.
  unfold daysBeforeMonth. destruct (n =? 366);
    destruct mn as [|p|p]; try lia;
    repeat (destruct p as [p|p|]; try lia).
Qed.

Lemma fullYear_range y : 0 <= y <= 9999 -> 100 <= fullYear y <= 9999.
Proof.
  unfold fullYear. intros H.
  destruct (Z.leb_spec 0 y); destruct (Z.leb_spec y 99); cbn [andb]; lia.
Qed.

Lemma MakeFullYear_int y :
  0 <= y <= 9999 -> MakeFullYear (Fin (inject_Z y)) = Fin (inject_Z (fullYear y)).
Proof.
  intros H. unfold MakeFullYear. cbn [ToIntegerOrInfinity]. rewrite truncate_int.
  unfold fullYear.
  destruct ((0 <=? y) && (y <=? 99)); apply F_int, safeInt_small; lia.
Qed.

Lemma MakeDay_int y m d :
  100 <= y <= 9999 -> 0 <= m <= 99 -> 0 <= d <= 99 ->
  MakeDay (Fin (inject_Z y)) (Fin (inject_Z (m - 1))) (Fin (inject_Z d))
  = Fin (inject_Z (civilDay y m d)).
Proof.
  intros Hy Hm Hd. unfold MakeDay. cbn [isFinite andb].
  rewrite !toInt_int.
  assert (Hq : -1 <= (m - 1) / 12 <= 8) by (Z.div_mod_to_equations; lia).
  rewrite (F_int y), (F_int d), (F_int ((m - 1) / 12)) by (apply safeInt_small; lia).
  rewrite num_add_int by (apply safeInt_small; lia).
  cbn [isFinite]. rewrite toInt_int.
  set (ym := y + (m - 1) / 12).
  pose proof (DayFromYear_range ym ltac:(unfold ym; lia)) as Hr.
  pose proof (daysBeforeMonth_range ((m - 1) mod 12) (DaysInYear ym)) as Hb.
  set (first := DayFromYear ym + daysBeforeMonth ((m - 1) mod 12) (DaysInYear ym)).
  replace (Z.abs (msPerDay * first) <=? maxTime) with true
    by (symmetry; apply Z.leb_le; unfold msPerDay, maxTime, first; lia).
  rewrite (F_int first), (F_int 1) by (apply safeInt_small; unfold first; lia).
  rewrite num_add_int by (apply safeInt_small; unfold first; lia).
  rewrite num_sub_int by (apply safeInt_small; unfold first; lia).
  reflexivity.
Qed.

Lemma civilDay_range y m d :
  100 <= y <= 9999 -> 0 <= m <= 99 -> 0 <= d <= 99 ->
  -700000 <= civilDay y m d <= 3000000.
Proof.
  intros Hy Hm Hd. unfold civilDay.
  assert (Hq : -1 <= (m - 1) / 12 <= 8) by (Z.div_mod_to_equations; lia).
  pose proof (DayFromYear_range (y + (m - 1) / 12) ltac:(lia)) as Hr.
  pose proof (daysBeforeMonth_range ((m - 1) mod 12)
                (DaysInYear (y + (m - 1) / 12))) as Hb.
  cbv zeta. lia.
Qed.

Lemma MakeTime_zero : MakeTime (F 0) (F 0) (F 0) (F 0) = Fin (inject_Z 0).
Proof. vm_compute. reflexivity. Qed.

Lemma MakeDate_int n :
  -700000 <= n <= 3000000 ->
  MakeDate (Fin (inject_Z n)) (Fin (inject_Z 0)) = Fin (inject_Z (msPerDay * n)).
Proof.
  intros H. unfold MakeDate. cbn [isFinite andb].
  rewrite (F_int msPerDay) by (apply safeInt_small; unfold msPerDay; lia).
  rewrite num_mul_int by (apply safeInt_small; unfold msPerDay; lia).
  rewrite num_add_int by (apply safeInt_small; unfold msPerDay; lia).
  cbn [isFinite]. f_equal. f_equal. lia.
Qed.

Lemma TimeClip_int u :
  Z.abs u <= maxTime -> TimeClip (Fin (inject_Z u)) = Fin (inject_Z u).
Proof.
  intros H. unfold TimeClip.
  replace (Qle_bool (Qabs (inject_Z u)) (inject_Z maxTime)) with true.
  - rewrite truncate_int. apply F_int, safeInt_small. unfold maxTime in H. lia.
  - symmetry. unfold Qle_bool, Qabs, inject_Z. cbn [Qnum Qden].
    apply Z.leb_le. lia.
Qed.

Lemma FormatDateTime_day tz f u n :
  Day (LocalTime tz u) = n ->
  FormatDateTime tz f u = FormatDateTime utc f (msPerDay * n).
Proof.
  intros E. unfold FormatDateTime.
  assert (Day (LocalTime tz u) = Day (LocalTime utc (msPerDay * n))) as H.
  { rewrite E. unfold LocalTime, GetNamedTimeZoneOffset, utc.
    cbn [tzInitial tzTransitions offsetFrom]. symmetry. apply Day_within.
    unfold msPerDay. lia. }
  destruct (fields_same_day _ _ H) as (-> & -> & ->). reflexivity.
Qed.

Lemma newDate_int tz y m d :
  0 <= y <= 9999 -> 0 <= m <= 99 -> 0 <= d <= 99 ->
  keepsMidnight tz (civilDay (fullYear y) m d) = true ->
  exists u,
    newDate tz (Fin (inject_Z y)) (Fin (inject_Z (m - 1))) (Fin (inject_Z d))
    = Fin (inject_Z u)
    /\ Day (LocalTime tz u) = civilDay (fullYear y) m d.
Proof.
  intros Hy Hm Hd Hk. unfold newDate.
  pose proof (fullYear_range y Hy) as Hfy.
  rewrite MakeFullYear_int, MakeDay_int, MakeTime_zero by assumption.
  pose proof (civilDay_range (fullYear y) m d Hfy Hm Hd) as Hc.
  rewrite MakeDate_int by assumption.
  destruct (localOffset_keeps tz _ Hk) as (Ho & Hshift).
  set (t := msPerDay * civilDay (fullYear y) m d) in *.
  unfold UTC. rewrite truncate_int.
  assert (Ht : Z.abs t <= 260000000000000) by (unfold t, msPerDay; lia).
  rewrite F_int by (apply safeInt_small; unfold msPerDay in Ho; lia).
  rewrite TimeClip_int by (unfold maxTime; unfold msPerDay in Ho; lia).
  eexists. split; [reflexivity|].
  replace (LocalTime tz (t - localOffset tz t))
    with (msPerDay * civilDay (fullYear y) m d
          + (LocalTime tz (t - localOffset tz t) - t)) by (unfold t; lia).
  apply Day_within. exact Hshift.
Qed.

Lemma isLeapYear_1900 y : 1 <= y <= 99 -> isLeapYear (1900 + y) = isLeapYear y.
Proof.
  intros H. unfold isLeapYear.
  destruct (Z.eqb_spec ((1900 + y) mod 4) 0), (Z.eqb_spec (y mod 4) 0),
    (Z.eqb_spec ((1900 + y) mod 100) 0), (Z.eqb_spec (y mod 100) 0),
    (Z.eqb_spec ((1900 + y) mod 400) 0), (Z.eqb_spec (y mod 400) 0);
    try reflexivity; exfalso; Z.div_mod_to_equations; lia.
Qed.

Lemma isValidDate_fullYear y m d :
  0 <= y <= 9999 -> isValidDate y m d = true ->
  ~ (y = 0 /\ m = 2 /\ d = 29) ->
  isValidDate (fullYear y) m d = true.
Proof.
  intros Hy V Hne. unfold fullYear.
  destruct (Z.leb_spec 0 y); [|lia]. destruct (Z.leb_spec y 99); cbn [andb]; [|exact V].
  unfold isValidDate, daysInMonth in *.
  destruct (Z.eq_dec y 0) as [->|Hy0].
  - change (isLeapYear (1900 + 0)) with false. change (isLeapYear 0) with true in V.
    apply andb_true_iff in V as [V Hd2]. apply andb_true_iff in V as [V Hd1].
    apply andb_true_iff in V as [Hm1 Hm2].
    apply Z.leb_le in Hm1, Hm2, Hd1, Hd2.
    rewrite !andb_true_iff, !Z.leb_le. repeat split; try lia.
    month_cases m; eval_closed;
      repeat match goal with
             | |- context [monthLength ?a ?b] =>
                 let x := eval vm_compute in (monthLength a b) in
                 change (monthLength a b) with x
             end; lia.
  - rewrite isLeapYear_1900 by lia. exact V.
Qed.

Lemma dateFields_zero_leap_day s :
  dateFields s = Some (0, 2, 29) -> s = js "0000-02-29".
Proof.
  intros H. unfold dateFields in H.
  destruct s as [|y0 [|y1 [|y2 [|y3 [|c4 [|m0 [|m1 [|c7 [|d0 [|d1 [|x s']]]]]]]]]]];
    try discriminate H.
  destruct (forallb isDigit [y0; y1; y2; y3; m0; m1; d0; d1] && N.eqb c4 45 && N.eqb c7 45)
    eqn:E; [|discriminate H].
  injection H as Hy Hm Hd.
  apply andb_true_iff in E as [E E7]. apply andb_true_iff in E as [E E4].
  apply N.eqb_eq in E4, E7. subst c4 c7.
  cbn [forallb] in E. unfold isDigit in E.
  repeat match goal with
         | H : _ && _ = true |- _ => apply andb_true_iff in H as [? ?]
         end.
  repeat match goal with
         | H : (_ <=? _)%N = true |- _ => apply N.leb_le in H
         end.
  unfold digitsToZ in *. cbn [fold_left] in *.
  assert (y0 = 48 /\ y1 = 48 /\ y2 = 48 /\ y3 = 48 /\ m0 = 48 /\ m1 = 50
          /\ d0 = 50 /\ d1 = 57)%N as (-> & -> & -> & -> & -> & -> & -> & ->) by lia.
  reflexivity.
Qed.

Lemma shortDate_valid y m d :
  100 <= y -> isValidDate y m d = true ->
  shortDate (civilDay y m d)
  = monthName false (m - 1) ++ js " " ++ twoDigits d ++ js ", " ++ decimal y.
Proof.
  intros Hy V. unfold shortDate, FormatDateTime.
  assert (Day (LocalTime utc (msPerDay * civilDay y m d)) = civilDay y m d) as Hd.
  { unfold LocalTime, GetNamedTimeZoneOffset, utc.
    cbn [tzInitial tzTransitions offsetFrom]. apply Day_within. unfold msPerDay. lia. }
  destruct (fields_of_valid_date _ _ _ _ V Hd) as (-> & -> & ->).
  cbn [shortFormat fmtYear fmtMonth fmtDay monthIsText formatYear formatMonth formatDay].
  unfold yearOfEra. destruct (Z.ltb_spec 0 y); [reflexivity|lia].
Qed.

(* ===================================================================== *)
(** * formatDate                                                          *)
(* ===================================================================== *)

Lemma year_enum :
  forallb (fun a => forallb (fun b => forallb (fun c => forallb (fun d =>
    yearOk a b c d) digitsA) digitsA) digitsA) digitsA = true.
Proof. vm_compute. reflexivity. Qed.

Lemma pair_enum :
  forallb (fun a => forallb (fun b => pairOk a b) digitsA) digitsA = true.
Proof. vm_compute. reflexivity. Qed.

Lemma Number_year a b c d :
  forallb isDigit [a; b; c; d] = true ->
  Number [a; b; c; d] = Fin (inject_Z (digitsToZ [a; b; c; d]))
  /\ 0 <= digitsToZ [a; b; c; d] <= 9999.
Proof.
  intros H. apply forallb_isDigit_In in H.
  inversion H as [|? ? Ha H1]; subst. inversion H1 as [|? ? Hb H2]; subst.
  inversion H2 as [|? ? Hc H3]; subst. inversion H3 as [|? ? Hd _]; subst.
  pose proof year_enum as E.
  rewrite forallb_forall in E. specialize (E _ Ha).
  rewrite forallb_forall in E. specialize (E _ Hb).
  rewrite forallb_forall in E. specialize (E _ Hc).
  rewrite forallb_forall in E. specialize (E _ Hd).
  unfold yearOk in E. cbv zeta in E.
  apply andb_true_iff in E as [E E3]. apply andb_true_iff in E as [E1 E2].
  apply number_eqb_eq in E1. apply Z.leb_le in E2, E3. auto.
Qed.

Lemma Number_pair a b :
  forallb isDigit [a; b] = true ->
  Number [a; b] = Fin (inject_Z (digitsToZ [a; b]))
  /\ 0 <= digitsToZ [a; b] <= 99
  /\ twoDigits (digitsToZ [a; b]) = [a; b].
Proof.
  intros H. apply forallb_isDigit_In in H.
  inversion H as [|? ? Ha H1]; subst. inversion H1 as [|? ? Hb _]; subst.
  pose proof pair_enum as E.
  rewrite forallb_forall in E. specialize (E _ Ha).
  rewrite forallb_forall in E. specialize (E _ Hb).
  unfold pairOk in E. cbv zeta in E.
  apply andb_true_iff in E as [E E4]. apply andb_true_iff in E as [E E3].
  apply andb_true_iff in E as [E1 E2].
  apply number_eqb_eq in E1. apply Z.leb_le in E2, E3.
  apply jsstring_eqb_eq in E4. auto.
Qed.

Lemma isDigit_not_dash c : isDigit c = true -> N.eqb c 45 = false.
Proof.
  unfold isDigit. intros H. apply andb_true_iff in H as [H _].
  apply N.leb_le in H. apply N.eqb_neq. lia.
Qed.

Section FormatDate.
Variable tz : TimeZone.

Lemma CreateDateTimeFormat_short :
  CreateDateTimeFormat en_US
    {| year := js "numeric"; month := js "short"; day := js "2-digit" |}
  = Normal shortFormat.
Proof. reflexivity. Qed.

Lemma formatDate_unfold s :
  formatDate tz s
  = let parts := map Number (split (cu "-") s) in
    match newDate tz (ToNumber (nth_error parts 0))
            (num_sub (ToNumber (nth_error parts 1)) (F 1))
            (ToNumber (nth_error parts 2)) with
    | Fin x => Normal (FormatDateTime tz shortFormat (truncate x))
    | _ => Normal (js "Invalid Date")
    end.
Proof.
  unfold formatDate, toLocaleDateString. cbv zeta.
  destruct (newDate tz _ _ _); [reflexivity|reflexivity|].
  now rewrite CreateDateTimeFormat_short.
Qed.

Lemma formatDate_returns s : exists out, formatDate tz s = Normal out.
Proof.
  rewrite formatDate_unfold. cbv zeta.
  destruct (newDate tz _ _ _); eauto.
Qed.

Lemma MakeDay_NaN y m d :
  y = NaN \/ m = NaN \/ d = NaN -> MakeDay y m d = NaN.
Proof.
  unfold MakeDay. intros [-> | [-> | ->]]; cbn [isFinite andb].
  - reflexivity.
  - now rewrite andb_false_r.
  - now rewrite andb_false_r.
Qed.

Lemma newDate_NaN y m d :
  y = NaN \/ m = NaN \/ d = NaN -> newDate tz y m d = NaN.
Proof.
  intros H. unfold newDate. rewrite MakeDay_NaN; [reflexivity|].
  destruct H as [-> | [-> | ->]]; auto.
Qed.

Lemma formatDate_invalid s i :
  (i < 3)%nat ->
  nth_error (map Number (split (cu "-") s)) i = None
  \/ nth_error (map Number (split (cu "-") s)) i = Some NaN ->
  formatDate tz s = Normal (js "Invalid Date").
Proof.
  intros Hi H. rewrite formatDate_unfold. cbv zeta.
  rewrite newDate_NaN; [reflexivity|].
  assert (ToNumber (nth_error (map Number (split (cu "-") s)) i) = NaN) as E
      by (destruct H as [-> | ->]; reflexivity).
  destruct i as [|[|[|i]]]; [| | |lia].
  - now left.
  - right. left. now rewrite E.
  - right. right. exact E.
Qed.

Lemma formatDate_shaped s y m d :
  dateFields s = Some (y, m, d) ->
  (keepsMidnight tz (civilDay (fullYear y) m d) = true ->
   formatDate tz s = Normal (shortDate (civilDay (fullYear y) m d)))
  /\ 0 <= y <= 9999 /\ 0 <= m <= 99 /\ 0 <= d <= 99
  /\ twoDigits d = skipn 8 s.
Proof.
  intros H. unfold dateFields in H.
  destruct s as [|y0 [|y1 [|y2 [|y3 [|c4 [|m0 [|m1 [|c7 [|d0 [|d1 [|x s']]]]]]]]]]];
    try discriminate H.
  destruct (forallb isDigit [y0; y1; y2; y3; m0; m1; d0; d1] && N.eqb c4 45 && N.eqb c7 45)
    eqn:E; [|discriminate H].
  injection H as <- <- <-.
  apply andb_true_iff in E as [E E7]. apply andb_true_iff in E as [E E4].
  apply N.eqb_eq in E4, E7. subst c4 c7.
  cbn [forallb] in E.
  repeat match type of E with
         | _ && _ = true => let H := fresh "D" in apply andb_true_iff in E as [H E]
         end.
  destruct (Number_year y0 y1 y2 y3) as (Ny & Ry); [cbn [forallb]; now rewrite D, D0, D1, D2|].
  destruct (Number_pair m0 m1) as (Nm & Rm & _); [cbn [forallb]; now rewrite D3, D4|].
  destruct (Number_pair d0 d1) as (Nd & Rd & Td); [cbn [forallb]; now rewrite D5, D6|].
  split; [|auto]. intros Hk.
  rewrite formatDate_unfold.
  change (cu "-") with 45%N. unfold split. cbn [splitAcc].
  rewrite (isDigit_not_dash y0), (isDigit_not_dash y1), (isDigit_not_dash y2),
    (isDigit_not_dash y3), (isDigit_not_dash m0), (isDigit_not_dash m1),
    (isDigit_not_dash d0), (isDigit_not_dash d1) by assumption.
  rewrite !N.eqb_refl.
  cbn [splitAcc rev app map nth_error ToNumber].
  rewrite Ny, Nm, Nd.
  rewrite (F_int 1) by (apply safeInt_small; lia).
  rewrite num_sub_int by (apply safeInt_small; lia).
  destruct (newDate_int tz _ _ _ Ry Rm Rd Hk) as (u & -> & Hday).
  rewrite truncate_int. f_equal. unfold shortDate.
  apply FormatDateTime_day. exact Hday.
Qed.

End FormatDate.

(* ===================================================================== *)
(** * Strings: stripping, splitting, runs of digits                       *)
(* ===================================================================== *)

Lemma trimStart_dropStart s : trimStart s = dropStart isStrWhiteSpaceChar s.
Proof.
  induction s as [|c s IH]; [reflexivity|].
  cbn [trimStart dropStart]. now rewrite IH.
Qed.

Lemma stripStart_dropStart s : stripStart s = dropStart isC0ControlOrSpace s.
Proof.
  induction s as [|c s IH]; [reflexivity|].
  cbn [stripStart dropStart]. now rewrite IH.
Qed.

Lemma trim_dropBoth s : trim s = dropBoth isStrWhiteSpaceChar s.
Proof. unfold trim, dropBoth. now rewrite !trimStart_dropStart. Qed.

Lemma dropStart_app_all p w s :
  forallb p w = true -> dropStart p (w ++ s) = dropStart p s.
Proof.
  induction w as [|c w IH]; [reflexivity|]. cbn [forallb app dropStart].
  intros H. apply andb_true_iff in H as [-> H]. auto.
Qed.

Lemma dropStart_nil_all p s : dropStart p s = [] -> forallb p s = true.
Proof.
  induction s as [|c s IH]; [reflexivity|]. cbn [dropStart forallb].
  destruct (p c); [exact IH|discriminate].
Qed.

Lemma dropStart_app_keep p s w :
  dropStart p s <> [] -> dropStart p (s ++ w) = dropStart p s ++ w.
Proof.
  induction s as [|c s IH]; [now intros []|]. cbn [dropStart app].
  destruct (p c); [exact IH|reflexivity].
Qed.

Lemma dropStart_keeps p l x t :
  p x = false -> exists l', dropStart p (l ++ x :: t) = l' ++ x :: t.
Proof.
  intros Hx. induction l as [|c l IH]; cbn [app dropStart].
  - rewrite Hx. now exists [].
  - destruct (p c); [exact IH|]. now exists (c :: l).
Qed.

Lemma forallb_reversed {A} (p : A -> bool) l : forallb p (rev l) = forallb p l.
Proof.
  apply bool_eq_iff. rewrite !forallb_forall. split; intros H x Hx; apply H.
  - now apply -> in_rev.
  - now apply in_rev.
Qed.

(** Characters that satisfy [p], put before and after a string, are
    dropped with the string's own. *)
Lemma dropBoth_pad p w s w' :
  forallb p w = true -> forallb p w' = true ->
  dropBoth p (w ++ s ++ w') = dropBoth p s.
Proof.
  intros Hw Hw'. unfold dropBoth. rewrite (dropStart_app_all p w) by exact Hw.
  destruct (dropStart p s) as [|c r] eqn:E.
  - apply dropStart_nil_all in E.
    rewrite <- (app_nil_r (s ++ w')), dropStart_app_all; [reflexivity|].
    now rewrite forallb_app, E, Hw'.
  - rewrite dropStart_app_keep by (rewrite E; discriminate). rewrite E.
    rewrite rev_app_distr, dropStart_app_all; [reflexivity|].
    now rewrite forallb_reversed.
Qed.

Lemma Number_pad w s w' :
  isBlank w = true -> isBlank w' = true -> Number (w ++ s ++ w') = Number s.
Proof.
  intros Hw Hw'. unfold Number, StringToNumber.
  now rewrite !trim_dropBoth, dropBoth_pad.
Qed.

Lemma cleanInput_pad w s w' :
  forallb isC0ControlOrSpace w = true -> forallb isC0ControlOrSpace w' = true ->
  cleanInput (w ++ s ++ w') = cleanInput s.
Proof.
  intros Hw Hw'. unfold cleanInput. rewrite !stripStart_dropStart.
  fold (dropBoth isC0ControlOrSpace (w ++ s ++ w')).
  fold (dropBoth isC0ControlOrSpace s). now rewrite dropBoth_pad.
Qed.

(** ** split *)

Lemma splitAcc_app sep a s acc :
  forallb (fun c => negb (N.eqb c sep)) a = true ->
  splitAcc sep (a ++ s) acc = splitAcc sep s (rev a ++ acc).
Proof.
  revert acc. induction a as [|c a IH]; intros acc H; [reflexivity|].
  cbn [forallb] in H. apply andb_true_iff in H as [Hc H].
  cbn [app splitAcc rev]. apply negb_true_iff in Hc. rewrite Hc.
  rewrite IH by exact H. now rewrite <- app_assoc.
Qed.

Lemma split_piece sep a s :
  forallb (fun c => negb (N.eqb c sep)) a = true ->
  split sep (a ++ sep :: s) = a :: split sep s.
Proof.
  intros H. unfold split. rewrite splitAcc_app by exact H.
  cbn [splitAcc]. rewrite N.eqb_refl, app_nil_r, rev_involutive. reflexivity.
Qed.

Lemma split_last sep a :
  forallb (fun c => negb (N.eqb c sep)) a = true -> split sep a = [a].
Proof.
  intros H. unfold split. rewrite <- (app_nil_r a) at 1.
  rewrite splitAcc_app by exact H. cbn [splitAcc].
  now rewrite app_nil_r, rev_involutive.
Qed.

Lemma split_three a b c :
  noDash a = true -> noDash b = true -> noDash c = true ->
  split (cu "-") (a ++ js "-" ++ b ++ js "-" ++ c) = [a; b; c].
Proof.
  intros Ha Hb Hc. change (js "-") with [cu "-"]. cbn [app].
  rewrite !split_piece, split_last by assumption. reflexivity.
Qed.

Lemma split_four a b c rest :
  noDash a = true -> noDash b = true -> noDash c = true ->
  split (cu "-") (a ++ js "-" ++ b ++ js "-" ++ c ++ js "-" ++ rest)
  = a :: b :: c :: split (cu "-") rest.
Proof.
  intros Ha Hb Hc. change (js "-") with [cu "-"]. cbn [app].
  rewrite !split_piece by assumption. reflexivity.
Qed.

Lemma splitAcc_acc sep s : forall acc,
  splitAcc sep s acc
  = match splitAcc sep s [] with
    | p :: ps => (rev acc ++ p) :: ps
    | [] => []
    end.
Proof.
  induction s as [|c s IH]; intros acc; cbn [splitAcc].
  - cbn [rev]. now rewrite app_nil_r.
  - destruct (N.eqb c sep).
    + cbn [rev]. now rewrite app_nil_r.
    + rewrite (IH (c :: acc)), (IH [c]).
      destruct (splitAcc sep s []) as [|p ps]; [reflexivity|].
      cbn [rev app]. now rewrite <- app_assoc.
Qed.

Lemma splitAcc_nonempty sep s : forall acc, splitAcc sep s acc <> [].
Proof.
  induction s as [|c s IH]; intros acc; cbn [splitAcc]; [discriminate|].
  destruct (N.eqb c sep); [discriminate|apply IH].
Qed.

Lemma split_head sep a s :
  forallb (fun c => negb (N.eqb c sep)) a = true ->
  exists p ps, split sep (a ++ s) = (a ++ p) :: ps.
Proof.
  intros H. unfold split. rewrite splitAcc_app by exact H.
  rewrite splitAcc_acc, app_nil_r, rev_involutive.
  destruct (splitAcc sep s []) as [|p ps] eqn:E; [|eauto].
  now destruct (splitAcc_nonempty sep s []).
Qed.

Lemma isBlank_noDash w : isBlank w = true -> noDash w = true.
Proof.
  unfold isBlank, noDash. rewrite !forallb_forall. intros H c Hc.
  specialize (H c Hc).
  destruct (N.eqb_spec c (cu "-")) as [->|]; [discriminate H|reflexivity].
Qed.

Lemma noDash_app a b : noDash (a ++ b) = noDash a && noDash b.
Proof. apply forallb_app. Qed.

(** ** [Number] on a run of digits *)

Lemma digit_not_blank c : isDigit c = true -> isStrWhiteSpaceChar c = false.
Proof. intros H. each_digit H; reflexivity. Qed.

Lemma trimStart_digits s : forallb isDigit s = true -> trimStart s = s.
Proof.
  destruct s as [|c s]; [reflexivity|]. cbn [forallb trimStart].
  intros H. apply andb_true_iff in H as [H _]. now rewrite digit_not_blank.
Qed.

Lemma trim_digits s : forallb isDigit s = true -> trim s = s.
Proof.
  intros H. unfold trim. rewrite (trimStart_digits s H).
  rewrite trimStart_digits by now rewrite forallb_reversed.
  apply rev_involutive.
Qed.

Lemma nonDecimal_digits s :
  forallb isDigit s = true -> nonDecimalIntegerLiteral s = None.
Proof.
  destruct s as [|c [|p ds]]; cbn [forallb]; intros H.
  - reflexivity.
  - apply andb_true_iff in H as [H _]. each_digit H; reflexivity.
  - apply andb_true_iff in H as [H H']. apply andb_true_iff in H' as [H' _].
    each_digit H; try reflexivity. each_digit H'; reflexivity.
Qed.

Lemma spanDigits_digits s : forallb isDigit s = true -> spanDigits s = (s, []).
Proof.
  induction s as [|c s IH]; [reflexivity|]. cbn [forallb spanDigits].
  intros H. apply andb_true_iff in H as [-> H]. now rewrite IH.
Qed.

Lemma digitsValue_digits s : forall acc,
  forallb isDigit s = true ->
  exists n, digitsValue 10 s acc = Some n
            /\ Z.of_N n = fold_left (fun a c => 10 * a + (Z.of_N c - 48)) s (Z.of_N acc).
Proof.
  induction s as [|c s IH]; intros acc H.
  - exists acc. split; reflexivity.
  - cbn [forallb] in H. apply andb_true_iff in H as [Hc H].
    cbn [digitsValue fold_left].
    assert (48 <= c)%N as Hlo
      by (unfold isDigit in Hc; apply andb_true_iff in Hc as [Hc _]; now apply N.leb_le in Hc).
    assert (digitIn 10 c = Some (c - 48)%N) as -> by (each_digit Hc; reflexivity).
    destruct (IH (10 * acc + (c - 48))%N H) as (n & -> & Hn).
    exists n. split; [reflexivity|]. rewrite Hn. f_equal. lia.
Qed.

Lemma digitsToZ_nonneg s : forallb isDigit s = true -> 0 <= digitsToZ s.
Proof.
  intros H. destruct (digitsValue_digits s 0 H) as (n & _ & Hn).
  unfold digitsToZ. change 0 with (Z.of_N 0) at 2. rewrite <- Hn. lia.
Qed.

Lemma isDigits_forallb s : isDigits s = true -> forallb isDigit s = true.
Proof. unfold isDigits. intros H. now apply andb_true_iff in H as [_ H]. Qed.

Lemma isDigits_noDash s : isDigits s = true -> noDash s = true.
Proof.
  intros H. apply isDigits_forallb in H. unfold noDash.
  rewrite forallb_forall in *. intros c Hc. change (cu "-") with 45%N.
  now rewrite (isDigit_not_dash c (H c Hc)).
Qed.

(** A run of digits is read as the number it writes in base ten; zeros in
    front change nothing. *)
Lemma Number_digits s : isDigits s = true -> Number s = F (digitsToZ s).
Proof.
  unfold isDigits. intros H. apply andb_true_iff in H as [Hne H].
  unfold Number, StringToNumber. rewrite (trim_digits s H).
  destruct s as [|c r]; [discriminate Hne|].
  rewrite (nonDecimal_digits _ H).
  assert (Hc : isDigit c = true)
    by (cbn [forallb] in H; now apply andb_true_iff in H as [-> _]).
  assert (strDecimalLiteral (c :: r) = strUnsignedDecimalLiteral false (c :: r)) as ->
    by (each_digit Hc; reflexivity).
  unfold strUnsignedDecimalLiteral.
  assert (jsstring_eqb (c :: r) (js "Infinity") = false) as ->
    by (each_digit Hc; reflexivity).
  rewrite (spanDigits_digits _ H). cbn [isEmpty negb orb length].
  rewrite app_nil_r.
  destruct (digitsValue_digits (c :: r) 0 H) as (n & -> & Hn).
  unfold F. cbv beta iota. apply round64_Qeq.
  change (Z.of_N 0) with 0 in Hn. fold (digitsToZ (c :: r)) in Hn. rewrite <- Hn.
  change (pow10 (0 - Z.of_nat 0)) with (inject_Z 1).
  rewrite <- inject_Z_mult. now rewrite Z.mul_1_r.
Qed.

(** A run of two digits followed by text is not a number. *)
Lemma not_dot x (A : Type) (a b : A) :
  N.eqb x 46 = false ->
  match x with
  | 46%N => a
  | _ => b
  end = b.
Proof.
  intros H. destruct x as [|q]; [reflexivity|].
  repeat (match goal with
          | q : positive |- _ => destruct q
          end; try reflexivity; try discriminate H).
Qed.

Lemma Number_trailing d0 d1 x r :
  isDigit d0 = true -> isDigit d1 = true -> endsLiteral x = true ->
  Number (d0 :: d1 :: x :: r) = NaN.
Proof.
  intros H0 H1 Hx. unfold endsLiteral in Hx. apply negb_true_iff in Hx.
  rewrite !orb_false_iff in Hx.
  destruct Hx as (((((Hxd & Hxw) & Hdot) & He) & HE) & _).
  change (cu ".") with 46%N in Hdot. change (cu "e") with 101%N in He.
  change (cu "E") with 69%N in HE.
  unfold Number, StringToNumber.
  assert (exists r', trim (d0 :: d1 :: x :: r) = d0 :: d1 :: x :: r') as [r' ->].
  { unfold trim. rewrite !trimStart_dropStart.
    cbn [dropStart]. rewrite (digit_not_blank d0 H0).
    change (d0 :: d1 :: x :: r) with ([d0; d1; x] ++ r).
    rewrite rev_app_distr. cbn [rev app].
    destruct (dropStart_keeps isStrWhiteSpaceChar (rev r) x [d1; d0] Hxw) as (l' & E).
    change ([x] ++ [d1] ++ [d0]) with (x :: [d1; d0]).
    replace (rev r ++ x :: d1 :: [d0]) with (rev r ++ x :: [d1; d0]) by reflexivity.
    rewrite E, rev_app_distr. cbn [rev app]. eauto. }
  assert (nonDecimalIntegerLiteral (d0 :: d1 :: x :: r') = None) as ->.
  { each_digit H0; try reflexivity. each_digit H1; reflexivity. }
  assert (strDecimalLiteral (d0 :: d1 :: x :: r')
          = strUnsignedDecimalLiteral false (d0 :: d1 :: x :: r')) as ->
    by (each_digit H0; reflexivity).
  unfold strUnsignedDecimalLiteral.
  assert (jsstring_eqb (d0 :: d1 :: x :: r') (js "Infinity") = false) as ->
    by (each_digit H0; reflexivity).
  cbn [spanDigits]. rewrite H0, H1, Hxd.
  rewrite (not_dot x _ _ _ Hdot).
  cbn [isEmpty negb orb]. cbn [exponentPart]. rewrite He, HE. cbn [orb].
  destruct (digitsValue 10 ([d0; d1] ++ []) 0); reflexivity.
Qed.

(** ** Reading a rendering back *)

Lemma js_inj a b : js a = js b -> a = b.
Proof.
  unfold js. intros H.
  rewrite <- (string_of_list_ascii_of_string a), <- (string_of_list_ascii_of_string b).
  f_equal. revert H. generalize (list_ascii_of_string a) (list_ascii_of_string b).
  induction l as [|x l IH]; intros [|y l'] H; try discriminate H; [reflexivity|].
  cbn [map] in H. injection H as Hx Hl.
  rewrite <- (ascii_N_embedding x), <- (ascii_N_embedding y), Hx.
  f_equal. now apply IH.
Qed.

Lemma decimal_inj a b : 0 <= a -> 0 <= b -> decimal a = decimal b -> a = b.
Proof.
  unfold decimal. intros Ha Hb H. apply js_inj in H.
  assert (Hnn : forall n, N.to_uint n <> Decimal.Nil).
  { intros [|p]; [discriminate|apply Unsigned.to_uint_nonnil]. }
  assert (Some (N.to_uint (Z.to_N a)) = Some (N.to_uint (Z.to_N b))) as E.
  { rewrite <- !NilZero.usu by apply Hnn. now rewrite H. }
  injection E as E. apply DecimalN.Unsigned.to_uint_inj in E. lia.
Qed.

Lemma monthName_inj a b X Y :
  0 <= a <= 11 -> 0 <= b <= 11 ->
  monthName false a ++ X = monthName false b ++ Y -> a = b /\ X = Y.
Proof.
  intros Ha Hb.
  assert (a = 0 \/ a = 1 \/ a = 2 \/ a = 3 \/ a = 4 \/ a = 5 \/ a = 6 \/ a = 7
          \/ a = 8 \/ a = 9 \/ a = 10 \/ a = 11) as Ca by lia.
  assert (b = 0 \/ b = 1 \/ b = 2 \/ b = 3 \/ b = 4 \/ b = 5 \/ b = 6 \/ b = 7
          \/ b = 8 \/ b = 9 \/ b = 10 \/ b = 11) as Cb by lia.
  clear Ha Hb.
  repeat (destruct Ca as [Ca|Ca]); subst a;
    repeat (destruct Cb as [Cb|Cb]); subst b;
    intros H; vm_compute in H;
    first [discriminate H | injection H as ->; split; reflexivity].
Qed.

Lemma monthName_length m :
  0 <= m <= 11 -> exists a b c, monthName false m = [a; b; c].
Proof.
  intros H.
  assert (m = 0 \/ m = 1 \/ m = 2 \/ m = 3 \/ m = 4 \/ m = 5 \/ m = 6 \/ m = 7
          \/ m = 8 \/ m = 9 \/ m = 10 \/ m = 11) as Hm by lia.
  repeat (destruct Hm as [->|Hm]; [do 3 eexists; reflexivity|]).
  subst m. do 3 eexists; reflexivity.
Qed.

Lemma dateFields_shape s y m d :
  dateFields s = Some (y, m, d) ->
  exists y0 y1 y2 y3 m0 m1 d0 d1,
    s = [y0; y1; y2; y3; 45%N; m0; m1; 45%N; d0; d1]
    /\ forallb isDigit [y0; y1; y2; y3; m0; m1; d0; d1] = true
    /\ y = digitsToZ [y0; y1; y2; y3] /\ m = digitsToZ [m0; m1]
    /\ d = digitsToZ [d0; d1].
Proof.
  intros H. unfold dateFields in H.
  destruct s as [|y0 [|y1 [|y2 [|y3 [|c4 [|m0 [|m1 [|c7 [|d0 [|d1 [|x s']]]]]]]]]]];
    try discriminate H.
  destruct (forallb isDigit [y0; y1; y2; y3; m0; m1; d0; d1] && N.eqb c4 45 && N.eqb c7 45)
    eqn:E; [|discriminate H].
  injection H as <- <- <-.
  apply andb_true_iff in E as [E E7]. apply andb_true_iff in E as [E E4].
  apply N.eqb_eq in E4, E7. subst c4 c7.
  exists y0, y1, y2, y3, m0, m1, d0, d1. auto.
Qed.

Lemma digits2_inj a b a' b' :
  forallb isDigit [a; b; a'; b'] = true ->
  digitsToZ [a; b] = digitsToZ [a'; b'] -> a = a' /\ b = b'.
Proof.
  cbn [forallb]. unfold isDigit, digitsToZ. cbn [fold_left]. intros H E.
  split_andb.
  repeat match goal with
         | H : (_ <=? _)%N = true |- _ => apply N.leb_le in H
         end.
  assert (a = a') by lia. subst a'. split; [reflexivity|lia].
Qed.

Lemma digits4_inj a b c d a' b' c' d' :
  forallb isDigit [a; b; c; d; a'; b'; c'; d'] = true ->
  digitsToZ [a; b; c; d] = digitsToZ [a'; b'; c'; d'] ->
  a = a' /\ b = b' /\ c = c' /\ d = d'.
Proof.
  cbn [forallb]. unfold isDigit, digitsToZ. cbn [fold_left]. intros H E.
  split_andb.
  repeat match goal with
         | H : (_ <=? _)%N = true |- _ => apply N.leb_le in H
         end.
  assert (a = a') by lia. subst a'.
  assert (b = b') by lia. subst b'.
  assert (c = c') by lia. subst c'.
  repeat split; lia.
Qed.

(* ===================================================================== *)
(** * The calendar fields of any time value                               *)
(* ===================================================================== *)

Lemma DayWithinYear_range t :
  0 <= DayWithinYear t < DaysInYear (YearFromTime t).
Proof.
  unfold DayWithinYear. pose proof (YearFromTime_bounds t) as H.
  rewrite DayFromYear_succ in H. lia.
Qed.

Lemma MonthFromTime_range t : 0 <= MonthFromTime t <= 11.
Proof. unfold MonthFromTime. cbv zeta. if_cases; lia. Qed.

(** Year, month and day of a time value always name a day of the
    calendar. *)
Lemma fields_are_valid t :
  isValidDate (YearFromTime t) (MonthFromTime t + 1) (DateFromTime t) = true.
Proof.
  pose proof (DayWithinYear_range t) as Hw.
  unfold isValidDate, daysInMonth, DateFromTime, MonthFromTime, InLeapYear in *.
  rewrite DaysInYear_isLeapYear in *. cbv zeta.
  set (w := DayWithinYear t) in *. clearbody w.
  destruct (isLeapYear (YearFromTime t));
    [change (366 =? 366) with true|change (365 =? 366) with false];
    cbv beta iota; if_cases; eval_closed;
    rewrite !andb_true_iff, !Z.leb_le; lia.
Qed.

Lemma FormatDateTime_fields tz u :
  FormatDateTime tz shortFormat u
  = let t := LocalTime tz u in
    monthName false (MonthFromTime t) ++ js " " ++ twoDigits (DateFromTime t)
      ++ js ", " ++ decimal (yearOfEra (YearFromTime t)).
Proof. reflexivity. Qed.

Lemma FormatDateTime_not_invalid tz u :
  FormatDateTime tz shortFormat u <> js "Invalid Date".
Proof.
  rewrite FormatDateTime_fields. cbv zeta.
  destruct (monthName_length _ (MonthFromTime_range (LocalTime tz u)))
    as (a & b & c & ->).
  change (js " ") with [32%N]. cbn [app]. intros H.
  change (js "Invalid Date")
    with [73; 110; 118; 97; 108; 105; 100; 32; 68; 97; 116; 101]%N in H.
  discriminate H.
Qed.

(* ===================================================================== *)
(** * Zones with ordered transitions                                      *)
(* ===================================================================== *)

Lemma offsetFrom_bounded lo o trs u :
  orderedFrom lo o trs = true -> Z.abs (offsetFrom o trs u) < msPerDay.
Proof.
  revert lo o. induction trs as [|[T o'] rest IH]; intros lo o H;
    cbn [orderedFrom offsetFrom] in *.
  - rewrite andb_true_r in H. now apply Z.ltb_lt in H.
  - apply andb_true_iff in H as [Ho H]. apply andb_true_iff in H as [_ H].
    destruct (u <? T); [now apply Z.ltb_lt in Ho|]. exact (IH _ _ H).
Qed.

Lemma localOffset_bounded tz t :
  orderedZone tz = true -> Z.abs (localOffset tz t) < msPerDay.
Proof.
  intros H. unfold localOffset.
  destruct (GetNamedTimeZoneEpoch tz t); [|exact (offsetFrom_bounded _ _ _ _ H)].
  destruct (maxBelow t _); [exact (offsetFrom_bounded _ _ _ _ H)|].
  unfold orderedZone in H. destruct (tzTransitions tz) as [|[T o'] rest];
    cbn [orderedFrom] in H; apply andb_true_iff in H as [H _];
    now apply Z.ltb_lt in H.
Qed.

Lemma newDate_ordered tz y m d :
  0 <= y <= 9999 -> 0 <= m <= 99 -> 0 <= d <= 99 ->
  orderedZone tz = true ->
  exists u,
    newDate tz (Fin (inject_Z y)) (Fin (inject_Z (m - 1))) (Fin (inject_Z d))
    = Fin (inject_Z u)
    /\ civilDay (fullYear y) m d - 2 <= Day (LocalTime tz u)
       <= civilDay (fullYear y) m d + 1.
Proof.
  intros Hy Hm Hd Hk. unfold newDate.
  pose proof (fullYear_range y Hy) as Hfy.
  rewrite MakeFullYear_int, MakeDay_int, MakeTime_zero by assumption.
  pose proof (civilDay_range (fullYear y) m d Hfy Hm Hd) as Hc.
  rewrite MakeDate_int by assumption.
  pose proof (localOffset_bounded tz (msPerDay * civilDay (fullYear y) m d) Hk) as Ho.
  set (n := civilDay (fullYear y) m d) in *.
  set (lo := localOffset tz (msPerDay * n)) in *.
  unfold UTC. rewrite truncate_int. fold lo.
  rewrite F_int by (apply safeInt_small; unfold msPerDay in *; lia).
  rewrite TimeClip_int by (unfold maxTime; unfold msPerDay in *; lia).
  eexists. split; [reflexivity|].
  unfold LocalTime.
  pose proof (offsetFrom_bounded _ _ _ (msPerDay * n - lo) Hk) as Ho2.
  fold (GetNamedTimeZoneOffset tz (msPerDay * n - lo)) in Ho2.
  set (o2 := GetNamedTimeZoneOffset tz (msPerDay * n - lo)) in *.
  unfold Day, msPerDay in *. Z.div_mod_to_equations. lia.
Qed.

(** What [formatDate] computes on a string of the shape [dddd-dd-dd]. *)
Lemma formatDate_on_fields tz s y m d :
  dateFields s = Some (y, m, d) ->
  0 <= y <= 9999 /\ 0 <= m <= 99 /\ 0 <= d <= 99
  /\ formatDate tz s
     = match newDate tz (Fin (inject_Z y)) (Fin (inject_Z (m - 1)))
               (Fin (inject_Z d)) with
       | Fin x => Normal (FormatDateTime tz shortFormat (truncate x))
       | _ => Normal (js "Invalid Date")
       end.
Proof.
  intros H.
  apply dateFields_shape in H
    as (y0 & y1 & y2 & y3 & m0 & m1 & d0 & d1 & -> & D & -> & -> & ->).
  cbn [forallb] in D. rewrite !andb_true_iff in D.
  destruct D as (D0 & D1 & D2 & D3 & D4 & D5 & D6 & D7 & _).
  destruct (Number_year y0 y1 y2 y3) as (Ny & Ry);
    [cbn [forallb]; now rewrite D0, D1, D2, D3|].
  destruct (Number_pair m0 m1) as (Nm & Rm & _); [cbn [forallb]; now rewrite D4, D5|].
  destruct (Number_pair d0 d1) as (Nd & Rd & _); [cbn [forallb]; now rewrite D6, D7|].
  split; [exact Ry|]. split; [exact Rm|]. split; [exact Rd|].
  rewrite formatDate_unfold.
  change (cu "-") with 45%N. unfold split. cbn [splitAcc].
  rewrite (isDigit_not_dash y0), (isDigit_not_dash y1), (isDigit_not_dash y2),
    (isDigit_not_dash y3), (isDigit_not_dash m0), (isDigit_not_dash m1),
    (isDigit_not_dash d0), (isDigit_not_dash d1) by assumption.
  rewrite !N.eqb_refl.
  cbn [splitAcc rev app map nth_error ToNumber].
  rewrite Ny, Nm, Nd.
  rewrite (F_int 1) by (apply safeInt_small; lia).
  rewrite num_sub_int by (apply safeInt_small; lia).
  reflexivity.
Qed.

Lemma formatDate_ordered tz s y m d :
  orderedZone tz = true -> dateFields s = Some (y, m, d) ->
  exists n,
    civilDay (fullYear y) m d - 2 <= n <= civilDay (fullYear y) m d + 1
    /\ formatDate tz s = Normal (shortDate n).
Proof.
  intros Hz H.
  destruct (formatDate_on_fields tz s y m d H) as (Ry & Rm & Rd & ->).
  destruct (newDate_ordered tz _ _ _ Ry Rm Rd Hz) as (u & -> & Hday).
  exists (Day (LocalTime tz u)). split; [exact Hday|].
  rewrite truncate_int. f_equal. unfold shortDate.
  now apply FormatDateTime_day.
Qed.

(* ===================================================================== *)
(** * Object schemas whose fields are strings, numbers, arrays of strings *)
(* ===================================================================== *)

Section Validation.

Variable afterScheme : jsstring -> jsstring -> bool.

Lemma parseItems_strings at_ items : forall i out issues,
  parseItems (_parse afterScheme (ZString z.string)) at_ i items = (out, issues) ->
  (issues = [] <-> forallb isString items = true)
  /\ (issues = [] -> out = Some items).
Proof.
  induction items as [|x rest IH]; intros i out issues H.
  - injection H as <- <-. split; [split|]; reflexivity.
  - cbn [parseItems] in H.
    destruct (parseItems (_parse afterScheme (ZString z.string)) at_ (S i) rest)
      as [rs is2] eqn:E.
    destruct (IH _ _ _ E) as (Hiff & Hout).
    destruct x; cbn in H; injection H as <- <-; cbn [forallb isString andb];
      try (split; [split|]; discriminate).
    split; [exact Hiff|]. intros ->. now rewrite (Hout eq_refl).
Qed.

Lemma parse_array_eq element at_ items :
  _parse afterScheme (ZArray element) at_ (VArray items)
  = let (rs, issues) := parseItems (_parse afterScheme element) at_ 0 items in
    (option_map VArray rs, issues).
Proof. reflexivity. Qed.

Lemma object_eq shape at_ fields :
  _parse afterScheme (ZObject shape) at_ (VObject fields)
  = let (rs, issues) := parseShape (_parse afterScheme) at_ fields shape in
    (option_map VObject rs, issues).
Proof. reflexivity. Qed.

Lemma parse_tags at_ v out issues :
  _parse afterScheme (z.array z.string) at_ v = (out, issues) ->
  (issues = [] <-> isStringArray v = true)
  /\ (issues = [] -> out = Some v).
Proof.
  intros H. unfold z.array in H.
  destruct v;
    try (cbn [_parse] in H; injection H as <- <-; split; [split|]; discriminate).
  rewrite parse_array_eq in H.
  destruct (parseItems (_parse afterScheme (ZString z.string)) at_ 0 items)
    as [rs is2] eqn:E.
  injection H as <- <-. destruct (parseItems_strings _ _ _ _ _ E) as (Hiff & Hout).
  split; [exact Hiff|]. intros ->. now rewrite (Hout eq_refl).
Qed.

Lemma parse_text def at_ v out issues :
  _parse afterScheme (ZString def) at_ v = (out, issues) ->
  (issues = [] <-> passes afterScheme (checks def) v = true)
  /\ (issues = [] -> out = Some v).
Proof.
  intros H.
  destruct v; cbn [_parse] in H; injection H as <- <-;
    try (split; [split|]; discriminate).
  split; [|reflexivity]. cbn [passes].
  induction (checks def) as [|c cs IH]; [split; reflexivity|].
  cbn [flat_map forallb]. destruct (runCheck afterScheme c s); cbn [app andb].
  - exact IH.
  - split; discriminate.
Qed.

Lemma parse_number at_ v out issues :
  _parse afterScheme z.number at_ v = (out, issues) ->
  (issues = [] <-> isNumber v = true)
  /\ (issues = [] -> out = Some v).
Proof.
  intros H. unfold z.number in H.
  destruct v as [| | |[| |]| | |]; cbn [_parse] in H; injection H as <- <-;
    cbn [isNumber]; split; try split; try discriminate; reflexivity.
Qed.

Lemma issues_text def at_ v :
  snd (_parse afterScheme (ZString def) at_ v) = []
  <-> passes afterScheme (checks def) v = true.
Proof.
  destruct (_parse afterScheme (ZString def) at_ v) as [r i] eqn:E.
  now destruct (parse_text _ _ _ _ _ E).
Qed.

Lemma issues_number at_ v :
  snd (_parse afterScheme z.number at_ v) = [] <-> isNumber v = true.
Proof.
  destruct (_parse afterScheme z.number at_ v) as [r i] eqn:E.
  now destruct (parse_number _ _ _ _ E).
Qed.

Lemma issues_tags at_ v :
  snd (_parse afterScheme (z.array z.string) at_ v) = [] <-> isStringArray v = true.
Proof.
  destruct (_parse afterScheme (z.array z.string) at_ v) as [r i] eqn:E.
  now destruct (parse_tags _ _ _ _ E).
Qed.

Lemma strict_text def at_ v r i :
  _parse afterScheme (ZString def) at_ v = (r, i) -> i = [] ->
  r = Some v /\ v <> VUndefined.
Proof.
  intros H Hi. destruct (parse_text _ _ _ _ _ H) as (Hiff & Hout).
  split; [auto|]. intros ->. apply Hiff in Hi. discriminate.
Qed.

Lemma strict_number at_ v r i :
  _parse afterScheme z.number at_ v = (r, i) -> i = [] ->
  r = Some v /\ v <> VUndefined.
Proof.
  intros H Hi. destruct (parse_number _ _ _ _ H) as (Hiff & Hout).
  split; [auto|]. intros ->. apply Hiff in Hi. discriminate.
Qed.

Lemma strict_tags at_ v r i :
  _parse afterScheme (z.array z.string) at_ v = (r, i) -> i = [] ->
  r = Some v /\ v <> VUndefined.
Proof.
  intros H Hi. destruct (parse_tags _ _ _ _ H) as (Hiff & Hout).
  split; [auto|]. intros ->. apply Hiff in Hi. discriminate.
Qed.

(** When every field schema returns its input unchanged or raises an issue,
    the object parses without issue exactly when every field does, and the
    result is the record of the schema's keys. *)
Lemma parseShape_flat at_ fields shape : forall rs iss,
  (forall key s, In (key, s) shape ->
     forall r i, _parse afterScheme s (at_ ++ [Key key]) (getField key fields) = (r, i) ->
       i = [] -> r = Some (getField key fields) /\ getField key fields <> VUndefined) ->
  parseShape (_parse afterScheme) at_ fields shape = (rs, iss) ->
  (iss = [] <->
   Forall (fun p => snd (_parse afterScheme (snd p) (at_ ++ [Key (fst p)])
                           (getField (fst p) fields)) = []) shape)
  /\ (iss = [] -> rs = Some (pick (map fst shape) fields)).
Proof.
  induction shape as [|[key s] rest IH]; intros rs iss Hflat H.
  - injection H as <- <-. split; [split; [constructor|reflexivity]|reflexivity].
  - cbn [parseShape] in H.
    destruct (_parse afterScheme s (at_ ++ [Key key]) (getField key fields))
      as [r is1] eqn:E1.
    destruct (parseShape (_parse afterScheme) at_ fields rest) as [rs' is2] eqn:E2.
    injection H as <- <-.
    destruct (IH rs' is2) as (Hiff & Hout);
      [intros k s' Hin; apply Hflat; now right|reflexivity|].
    split.
    + split.
      * intros Hnil. apply app_eq_nil in Hnil as [-> ->].
        constructor; [cbn [fst snd]; now rewrite E1|now apply Hiff].
      * intros Hall. inversion Hall as [|? ? H1 H2]; subst.
        cbn [fst snd] in H1. rewrite E1 in H1. cbn [snd] in H1. subst is1.
        now rewrite (proj2 Hiff H2).
    + intros Hnil. apply app_eq_nil in Hnil as [-> ->].
      destruct (Hflat key s (or_introl eq_refl) _ _ E1 eq_refl) as (-> & Hne).
      rewrite (Hout eq_refl). cbn [map pick fst].
      destruct (getField key fields); try reflexivity. now destruct Hne.
Qed.

Lemma safeParse_flat shape fields out :
  (forall key s, In (key, s) shape ->
     forall r i, _parse afterScheme s ([] ++ [Key key]) (getField key fields) = (r, i) ->
       i = [] -> r = Some (getField key fields) /\ getField key fields <> VUndefined) ->
  safeParse afterScheme (ZObject shape) (VObject fields) = Success out
  <-> Forall (fun p => snd (_parse afterScheme (snd p) ([] ++ [Key (fst p)])
                              (getField (fst p) fields)) = []) shape
      /\ out = VObject (pick (map fst shape) fields).
Proof.
  intros Hflat. unfold safeParse. rewrite object_eq.
  destruct (parseShape (_parse afterScheme) [] fields shape) as [rs iss] eqn:E.
  destruct (parseShape_flat _ _ _ _ _ Hflat E) as (Hiff & Hout).
  destruct iss as [|i iss].
  - rewrite (Hout eq_refl). cbn [option_map]. split.
    + intros [= <-]. split; [now apply Hiff|reflexivity].
    + now intros (_ & ->).
  - split.
    + destruct (option_map VObject rs); discriminate.
    + intros (Hall & _). apply Hiff in Hall. discriminate.
Qed.

(** The schemas of the two collections are of that kind. *)
Lemma blog_flat fields key s :
  In (key, s) [(js "title", ZString z.string); (js "date", ZString (z.date z.string));
               (js "tags", z.array z.string)] ->
  forall r i, _parse afterScheme s ([] ++ [Key key]) (getField key fields) = (r, i) ->
    i = [] -> r = Some (getField key fields) /\ getField key fields <> VUndefined.
Proof.
  intros Hin r i E Hi. cbn [In] in Hin.
  destruct Hin as [[= <- <-]|[[= <- <-]|[[= <- <-]|[]]]];
    [eapply strict_text|eapply strict_text|eapply strict_tags]; eassumption.
Qed.

Lemma projects_flat fields key s :
  In (key, s) [(js "id", z.number); (js "title", ZString z.string);
               (js "description", ZString z.string);
               (js "imagePath", ZString z.string);
               (js "repo", ZString (z.url z.string));
               (js "live", ZString (z.url z.string))] ->
  forall r i, _parse afterScheme s ([] ++ [Key key]) (getField key fields) = (r, i) ->
    i = [] -> r = Some (getField key fields) /\ getField key fields <> VUndefined.
Proof.
  intros Hin r i E Hi. cbn [In] in Hin.
  destruct Hin
    as [[= <- <-]|[[= <- <-]|[[= <- <-]|[[= <- <-]|[[= <- <-]|[[= <- <-]|[]]]]]]];
    [eapply strict_number|eapply strict_text|eapply strict_text|eapply strict_text
    |eapply strict_text|eapply strict_text]; eassumption.
Qed.

Lemma collections_flat name c :
  In (name, c) collections ->
  exists shape,
    schema c = ZObject shape
    /\ forall fields key s, In (key, s) shape ->
         forall r i, _parse afterScheme s ([] ++ [Key key]) (getField key fields) = (r, i) ->
           i = [] -> r = Some (getField key fields) /\ getField key fields <> VUndefined.
Proof.
  intros [[= _ <-]|[[= _ <-]|[]]]; eexists; (split; [reflexivity|]);
    cbn [map fst snd]; intros fields key s.
  - apply blog_flat.
  - apply projects_flat.
Qed.

(** No schema returns [undefined]. *)
Lemma parse_never_undefined t at_ v :
  fst (_parse afterScheme t at_ v) <> Some VUndefined.
Proof.
  destruct t as [def| |element|shape]; cbn [_parse].
  - destruct v; cbn [fst]; discriminate.
  - destruct v as [| | |[| |]| | |]; cbn [fst]; discriminate.
  - destruct v; cbn [fst]; try discriminate.
    destruct (parseItems (_parse afterScheme element) at_ 0 items) as [[rs|] i];
      cbn [fst option_map]; discriminate.
  - destruct v; cbn [fst]; try discriminate.
    destruct (parseShape (_parse afterScheme) at_ fields shape) as [[rs|] i];
      cbn [fst option_map]; discriminate.
Qed.

Lemma parseShape_agree at_ fields fields' shape :
  (forall key, In key (map fst shape) -> getField key fields = getField key fields') ->
  parseShape (_parse afterScheme) at_ fields shape
  = parseShape (_parse afterScheme) at_ fields' shape.
Proof.
  induction shape as [|[key s] rest IH]; intros H; [reflexivity|].
  cbn [parseShape]. rewrite <- (H key) by now left.
  rewrite <- IH by (intros k Hk; apply H; now right).
  pose proof (parse_never_undefined s (at_ ++ [Key key]) (getField key fields)) as Hne.
  destruct (_parse afterScheme s (at_ ++ [Key key]) (getField key fields)) as [[v|] is1];
    [|reflexivity].
  cbn [fst] in Hne. destruct v; try reflexivity. now destruct Hne.
Qed.

Lemma safeParse_agree shape fields fields' :
  (forall key, In key (map fst shape) -> getField key fields = getField key fields') ->
  safeParse afterScheme (ZObject shape) (VObject fields)
  = safeParse afterScheme (ZObject shape) (VObject fields').
Proof.
  intros H. unfold safeParse. rewrite !object_eq.
  now rewrite (parseShape_agree [] fields fields' shape H).
Qed.

Lemma getField_pick keys fields key :
  In key keys -> getField key (pick keys fields) = getField key fields.
Proof.
  induction keys as [|k ks IH]; intros Hin; [destruct Hin|].
  cbn [pick map getField]. destruct (jsstring_eqb k key) eqn:E.
  - apply jsstring_eqb_eq in E. now subst.
  - destruct Hin as [->|Hin]; [now rewrite jsstring_eqb_refl in E|].
    apply IH, Hin.
Qed.

End Validation.

(* ===================================================================== *)
(** * The day shown at the instant taken for a local midnight             *)
(* ===================================================================== *)

Lemma keepsMidnight_ordered tz n :
  keepsMidnight tz n = true -> orderedZone tz = true.
Proof.
  unfold keepsMidnight, regularZone, orderedZone. intros H.
  apply orb_true_iff in H as [H|H].
  - now apply regular_is_ordered.
  - now apply andb_true_iff in H as [H _].
Qed.

Lemma keepsDay_eq tz n :
  keepsDay tz n = true <-> Day (LocalTime tz (midnightInstant tz n)) = n.
Proof. unfold keepsDay. apply Z.eqb_eq. Qed.

Lemma keepsMidnight_keepsDay tz n :
  keepsMidnight tz n = true -> keepsDay tz n = true.
Proof.
  intros H. destruct (localOffset_keeps tz n H) as (_ & Hs).
  unfold keepsDay, midnightInstant. apply Z.eqb_eq.
  replace (LocalTime tz (msPerDay * n - localOffset tz (msPerDay * n)))
    with (msPerDay * n
          + (LocalTime tz (msPerDay * n - localOffset tz (msPerDay * n))
             - msPerDay * n)) by lia.
  now apply Day_within.
Qed.

Lemma newDate_instant tz y m d :
  0 <= y <= 9999 -> 0 <= m <= 99 -> 0 <= d <= 99 ->
  orderedZone tz = true ->
  newDate tz (Fin (inject_Z y)) (Fin (inject_Z (m - 1))) (Fin (inject_Z d))
  = Fin (inject_Z (midnightInstant tz (civilDay (fullYear y) m d)))
  /\ civilDay (fullYear y) m d - 2
     <= Day (LocalTime tz (midnightInstant tz (civilDay (fullYear y) m d)))
     <= civilDay (fullYear y) m d + 1.
Proof.
  intros Hy Hm Hd Hk. unfold newDate, midnightInstant.
  pose proof (fullYear_range y Hy) as Hfy.
  rewrite MakeFullYear_int, MakeDay_int, MakeTime_zero by assumption.
  pose proof (civilDay_range (fullYear y) m d Hfy Hm Hd) as Hc.
  rewrite MakeDate_int by assumption.
  pose proof (localOffset_bounded tz (msPerDay * civilDay (fullYear y) m d) Hk) as Ho.
  set (n := civilDay (fullYear y) m d) in *.
  set (lo := localOffset tz (msPerDay * n)) in *.
  unfold UTC. rewrite truncate_int. fold lo.
  rewrite F_int by (apply safeInt_small; unfold msPerDay in *; lia).
  rewrite TimeClip_int by (unfold maxTime; unfold msPerDay in *; lia).
  split; [reflexivity|].
  unfold LocalTime.
  pose proof (offsetFrom_bounded _ _ _ (msPerDay * n - lo) Hk) as Ho2.
  fold (GetNamedTimeZoneOffset tz (msPerDay * n - lo)) in Ho2.
  set (o2 := GetNamedTimeZoneOffset tz (msPerDay * n - lo)) in *.
  unfold Day, msPerDay in *. Z.div_mod_to_equations. lia.
Qed.

(** In a zone with ordered transitions, what [formatDate] returns for a
    string of the shape [dddd-dd-dd] is the rendering of the day on which
    the clock shows the instant taken for the midnight of the day asked
    for. *)
Lemma formatDate_instant tz s y m d :
  orderedZone tz = true -> dateFields s = Some (y, m, d) ->
  let n := civilDay (fullYear y) m d in
  let n' := Day (LocalTime tz (midnightInstant tz n)) in
  formatDate tz s = Normal (shortDate n') /\ n - 2 <= n' <= n + 1.
Proof.
  intros Hz H n n'.
  destruct (formatDate_on_fields tz s y m d H) as (Ry & Rm & Rd & ->).
  destruct (newDate_instant tz _ _ _ Ry Rm Rd Hz) as (-> & Hday).
  split; [|exact Hday].
  rewrite truncate_int. f_equal. unfold shortDate.
  now apply FormatDateTime_day.
Qed.

(** ** The day of the month, from one day to the next *)

Lemma Day_of_day n : Day (msPerDay * n) = n.
Proof. rewrite <- (Z.add_0_r (msPerDay * n)). apply Day_within. unfold msPerDay. lia. Qed.

Lemma DateFromTime_next n :
  DateFromTime (msPerDay * (n + 1)) = DateFromTime (msPerDay * n) + 1
  \/ (DateFromTime (msPerDay * (n + 1)) = 1 /\ 28 <= DateFromTime (msPerDay * n)).
Proof.
  set (t := msPerDay * n). set (t' := msPerDay * (n + 1)).
  assert (Dt : Day t = n) by apply Day_of_day.
  assert (Dt' : Day t' = n + 1) by apply Day_of_day.
  pose proof (YearFromTime_bounds t) as B. rewrite Dt in B.
  pose proof (DayFromYear_succ (YearFromTime t)) as S1.
  pose proof (DaysInYear_cases (YearFromTime t)) as L.
  destruct (Z.lt_ge_cases (n + 1) (DayFromYear (YearFromTime t + 1))) as [In|Out].
  - assert (Hy : YearFromTime t' = YearFromTime t).
    { apply YearFromTime_unique. rewrite Dt'. lia. }
    assert (Hw : DayWithinYear t' = DayWithinYear t + 1).
    { unfold DayWithinYear. rewrite Hy, Dt, Dt'. lia. }
    assert (Hr : 0 <= DayWithinYear t /\ DayWithinYear t + 1 < DaysInYear (YearFromTime t)).
    { unfold DayWithinYear. rewrite Dt. lia. }
    unfold DateFromTime, MonthFromTime, InLeapYear. rewrite Hy, Hw.
    set (w := DayWithinYear t) in *. clearbody w.
    destruct L as [L|L]; rewrite L in *;
      [change (365 =? 366) with false|change (366 =? 366) with true];
      cbv beta iota zeta; if_cases; lia.
  - right.
    assert (Hy : YearFromTime t' = YearFromTime t + 1).
    { apply YearFromTime_unique. rewrite Dt'.
      pose proof (DayFromYear_lt (YearFromTime t + 1)). lia. }
    assert (Hw : DayWithinYear t' = 0).
    { unfold DayWithinYear. rewrite Hy, Dt'. lia. }
    assert (Hv : DayWithinYear t = DaysInYear (YearFromTime t) - 1).
    { unfold DayWithinYear. rewrite Dt. lia. }
    split.
    + unfold DateFromTime, MonthFromTime. rewrite Hw. reflexivity.
    + unfold DateFromTime, MonthFromTime, InLeapYear. rewrite Hv.
      destruct L as [L|L]; rewrite L; vm_compute; discriminate.
Qed.

(** Days at most two apart have different days of the month. *)
Lemma DateFromTime_near n n' :
  n - 2 <= n' <= n + 2 ->
  DateFromTime (msPerDay * n') = DateFromTime (msPerDay * n) -> n' = n.
Proof.
  intros Hn E.
  pose proof (DateFromTime_next (n - 2)) as A.
  pose proof (DateFromTime_next (n - 1)) as B.
  pose proof (DateFromTime_next n) as C.
  pose proof (DateFromTime_next (n + 1)) as D.
  replace (n - 2 + 1) with (n - 1) in A by lia.
  replace (n - 1 + 1) with n in B by lia.
  replace (n + 1 + 1) with (n + 2) in D by lia.
  assert (n' = n - 2 \/ n' = n - 1 \/ n' = n \/ n' = n + 1 \/ n' = n + 2) as Hc by lia.
  destruct Hc as [-> | [-> | [-> | [-> | ->]]]]; lia.
Qed.

Lemma DateFromTime_range t : 1 <= DateFromTime t <= 31.
Proof.
  pose proof (fields_are_valid t) as V. unfold isValidDate, daysInMonth in V.
  split_andb.
  repeat match goal with
         | H : (_ <=? _) = true |- _ => apply Z.leb_le in H
         end.
  assert (monthLength (isLeapYear (YearFromTime t)) (MonthFromTime t + 1) <= 31).
  { unfold monthLength. destruct (isLeapYear _);
      destruct (MonthFromTime t + 1) as [|p|p]; try lia;
      repeat (destruct p as [p|p|]; try lia). }
  lia.
Qed.

Lemma twoDigits_enum :
  forallb (fun a =>
     Nat.eqb (length (twoDigits a)) 2
     && forallb (fun b => (a =? b) || negb (jsstring_eqb (twoDigits a) (twoDigits b)))
          dayNumbers) dayNumbers = true.
Proof. vm_compute. reflexivity. Qed.

Lemma In_dayNumbers a : 0 <= a <= 99 -> In a dayNumbers.
Proof.
  intros H. unfold dayNumbers. rewrite <- (Z2Nat.id a) by lia.
  apply in_map, in_seq. lia.
Qed.

Lemma twoDigits_two a : 0 <= a <= 99 -> exists p q, twoDigits a = [p; q].
Proof.
  intros H. pose proof twoDigits_enum as E.
  rewrite forallb_forall in E. specialize (E a (In_dayNumbers a H)).
  apply andb_true_iff in E as [E _]. apply Nat.eqb_eq in E.
  destruct (twoDigits a) as [|p [|q [|r l]]]; try discriminate E. eauto.
Qed.

Lemma twoDigits_inj a b :
  0 <= a <= 99 -> 0 <= b <= 99 -> twoDigits a = twoDigits b -> a = b.
Proof.
  intros Ha Hb H. pose proof twoDigits_enum as E.
  rewrite forallb_forall in E. specialize (E a (In_dayNumbers a Ha)).
  apply andb_true_iff in E as [_ E].
  rewrite forallb_forall in E. specialize (E b (In_dayNumbers b Hb)).
  apply orb_true_iff in E as [E|E]; [now apply Z.eqb_eq in E|].
  rewrite H, jsstring_eqb_refl in E. discriminate E.
Qed.

Lemma dayComponent_shortDate n :
  dayComponent (shortDate n) = twoDigits (DateFromTime (msPerDay * n)).
Proof.
  unfold shortDate. rewrite FormatDateTime_fields. cbv zeta.
  assert (LocalTime utc (msPerDay * n) = msPerDay * n) as ->
    by (unfold LocalTime, GetNamedTimeZoneOffset, utc;
        cbn [tzInitial tzTransitions offsetFrom]; lia).
  destruct (monthName_length _ (MonthFromTime_range (msPerDay * n)))
    as (a & b & c & ->).
  destruct (twoDigits_two (DateFromTime (msPerDay * n))) as (p & q & ->).
  { pose proof (DateFromTime_range (msPerDay * n)). lia. }
  reflexivity.
Qed.

(** Renderings of days at most two apart are alike only for the same
    day. *)
Lemma shortDate_near n n' :
  n - 2 <= n' <= n + 2 ->
  dayComponent (shortDate n') = dayComponent (shortDate n) -> n' = n.
Proof.
  intros Hn H. rewrite !dayComponent_shortDate in H.
  apply twoDigits_inj in H.
  - now apply DateFromTime_near.
  - pose proof (DateFromTime_range (msPerDay * n')). lia.
  - pose proof (DateFromTime_range (msPerDay * n)). lia.
Qed.

(* ===================================================================== *)
(** * The URL parser: missing hosts, slashes, records with a bad link     *)
(* ===================================================================== *)

Section URLFacts.

Variable unicodeHost : jsstring -> bool.

Lemma authorityState_no_host input :
  noHost input = true ->
  URL.authorityState unicodeHost true false [] (URL.ignoreSlashes input) = false.
Proof.
  unfold noHost. destruct (URL.ignoreSlashes input) as [|c rest]; [reflexivity|].
  intros H. cbn [URL.authorityState].
  assert (He : URL.endsAuthority true c = true).
  { unfold URL.endsAuthority. apply orb_true_iff in H as [H|H]; rewrite H;
      rewrite ?orb_true_r; reflexivity. }
  assert (N.eqb c 64 = false) as ->.
  { apply orb_true_iff in H as [H|H]; apply N.eqb_eq in H; now subst. }
  rewrite He. cbn [andb app URL.hostState].
  assert (N.eqb c 58 = false) as ->.
  { apply orb_true_iff in H as [H|H]; apply N.eqb_eq in H; now subst. }
  cbn [andb]. now rewrite He.
Qed.

Lemma hostSchemes_special scheme :
  In scheme hostSchemes ->
  jsstring_eqb scheme (js "file") = false /\ URL.isSpecial scheme = true.
Proof.
  intros Hin. cbn in Hin.
  repeat (destruct Hin as [<-|Hin]; [split; reflexivity|]). destruct Hin.
Qed.

Lemma afterSchemeState_no_host scheme input :
  In scheme hostSchemes -> noHost input = true ->
  URL.afterSchemeState unicodeHost scheme input = false.
Proof.
  intros Hin H. unfold URL.afterSchemeState.
  destruct (hostSchemes_special scheme Hin) as [-> ->].
  now apply authorityState_no_host.
Qed.

Lemma newURL_no_host s scheme rest :
  In scheme hostSchemes -> cleanInput s = scheme ++ 58%N :: rest ->
  noHost rest = true -> newURL unicodeHost s = false.
Proof.
  intros Hin Hs H. unfold newURL, basicURLParser. rewrite Hs.
  pose proof (afterSchemeState_no_host scheme rest Hin H) as Ha.
  cbn in Hin.
  repeat (destruct Hin as [<-|Hin]; [exact Ha|]). destruct Hin.
Qed.

Lemma ignoreSlashes_app slashes rest :
  forallb URL.isSlash slashes = true ->
  URL.ignoreSlashes (slashes ++ rest) = URL.ignoreSlashes rest.
Proof.
  induction slashes as [|c slashes IH]; intros H; [reflexivity|].
  cbn [forallb] in H. apply andb_true_iff in H as [Hc H].
  cbn [app URL.ignoreSlashes]. rewrite Hc. now apply IH.
Qed.

Lemma afterSchemeState_slashes scheme slashes rest :
  In scheme hostSchemes -> forallb URL.isSlash slashes = true ->
  URL.afterSchemeState unicodeHost scheme (slashes ++ rest)
  = URL.afterSchemeState unicodeHost scheme rest.
Proof.
  intros Hin H. unfold URL.afterSchemeState.
  destruct (hostSchemes_special scheme Hin) as [-> ->].
  now rewrite ignoreSlashes_app.
Qed.

End URLFacts.

Section RepoFacts.

Variable afterScheme : jsstring -> jsstring -> bool.

(** A record that is fine but for its [repo] raises the one issue. *)
Lemma project_fails_on_repo fields p :
  holdsProject fields p -> project_id p <> NaN ->
  basicURLParser afterScheme (project_live p) = true ->
  basicURLParser afterScheme (project_repo p) = false ->
  safeParse afterScheme (schema projects) (VObject fields)
  = Failure [{| code := invalid_string kind_url; path := [Key (js "repo")] |}].
Proof.
  intros Hf Hid Hlive Hrepo.
  assert (H1 := Hf _ _ (or_introl eq_refl)).
  assert (H2 := Hf _ _ (or_intror (or_introl eq_refl))).
  assert (H3 := Hf _ _ (or_intror (or_intror (or_introl eq_refl)))).
  assert (H4 := Hf _ _ (or_intror (or_intror (or_intror (or_introl eq_refl))))).
  assert (H5 := Hf _ _ (or_intror (or_intror (or_intror (or_intror (or_introl eq_refl)))))).
  assert (H6 := Hf _ _ (or_intror (or_intror (or_intror (or_intror (or_intror (or_introl eq_refl))))))).
  unfold safeParse. cbn [schema projects z.object map fst snd _parse parseShape app].
  rewrite H1, H2, H3, H4, H5, H6.
  cbn [_parse checks z.string z.url z.number z.array app flat_map runCheck].
  rewrite Hrepo, Hlive. cbn.
  destruct (project_id p); [congruence|reflexivity|reflexivity].
Qed.

End RepoFacts.

(* ===================================================================== *)
(** * The date helper: properties                                         *)
(* ===================================================================== *)

(** C1 (as amended).  For every valid calendar date string in [YYYY-MM-DD]
    form other than ["0000-02-29"], and every host time zone with offsets
    under a day and transitions in order, the day-of-month component of the
    string that [formatDate] returns equals the day component of the input
    exactly when the zone does not skip the day that the Date constructor is
    asked for, which is the day of the input, taken in the year 19yy when
    the input's year is 00yy: the zone's clock shows a time of that day at
    the instant taken for its local midnight.  The string returned is then
    the month abbreviation, the day component of the input unchanged, and
    the year (19yy for 00yy).  The day is not skipped, in particular, in a
    regular zone and in a zone whose clock shows that midnight. *)
Theorem formatDate_keeps_day tz s y m d :
  isCalendarDate s = true ->
  dateFields s = Some (y, m, d) ->
  s <> js "0000-02-29" ->
  orderedZone tz = true ->
  (keepsDay tz (civilDay (fullYear y) m d) = true ->
   formatDate tz s
   = Normal (monthName false (m - 1) ++ js " " ++ skipn 8 s ++ js ", "
             ++ decimal (fullYear y)))
  /\ (exists out,
        formatDate tz s = Normal out
        /\ (dayComponent out = skipn 8 s
            <-> keepsDay tz (civilDay (fullYear y) m d) = true))
  /\ (keepsMidnight tz (civilDay (fullYear y) m d) = true ->
      keepsDay tz (civilDay (fullYear y) m d) = true).
Proof.
  intros Hs E Hne Hz. unfold isCalendarDate in Hs. rewrite E in Hs.
  destruct (formatDate_shaped tz s y m d E) as (_ & Hy & Hm & Hd & Td).
  destruct (formatDate_instant tz s y m d Hz E) as (Hf & Hn).
  assert (V : isValidDate (fullYear y) m d = true).
  { apply isValidDate_fullYear; auto.
    intros (-> & -> & ->). apply Hne. now apply dateFields_zero_leap_day. }
  pose proof (fullYear_range y Hy) as Hfy.
  set (n := civilDay (fullYear y) m d) in *.
  set (n' := Day (LocalTime tz (midnightInstant tz n))) in *.
  assert (Hdom : DateFromTime (msPerDay * n) = d).
  { now destruct (fields_of_valid_date _ _ _ (msPerDay * n) V (Day_of_day n))
      as (_ & _ & ->). }
  split; [|split].
  - intros Hk. apply keepsDay_eq in Hk. fold n' in Hk.
    rewrite Hf, Hk. f_equal. unfold n. rewrite <- Td.
    apply shortDate_valid; [lia|exact V].
  - exists (shortDate n'). split; [exact Hf|].
    rewrite dayComponent_shortDate, <- Td, keepsDay_eq. fold n'. split.
    + intros H. apply twoDigits_inj in H.
      * apply DateFromTime_near; [lia|congruence].
      * pose proof (DateFromTime_range (msPerDay * n')). lia.
      * lia.
    + intros ->. now rewrite Hdom.
  - apply keepsMidnight_keepsDay.
Qed.

(** In Manila the midnight of 21 May 1990 was skipped by the change to
    summer time, not the day: the day is kept. *)
Lemma formatDate_keeps_day_witness :
  formatDate manila (js "1990-05-21") = Normal (js "May 21, 1990").
Proof.
  apply (proj1 (formatDate_keeps_day manila (js "1990-05-21") 1990 5 21
                  eq_refl eq_refl ltac:(discriminate) eq_refl)).
  reflexivity.
Defined.

Example manila_skips_a_midnight_only :
  regularZone manila = false
  /\ GetNamedTimeZoneEpoch manila (msPerDay * civilDay 1990 5 21) = []
  /\ keepsMidnight manila (civilDay 1990 5 21) = false
  /\ keepsDay manila (civilDay 1990 5 21) = true.
Proof. repeat split. Qed.

(** C1, as stated, fails: ["0000-02-29"] is a valid calendar date (year 0 is
    a leap year, and the schema's date check accepts the string), the zone
    is as plain as can be, and the day returned is 01, not 29: the Date
    constructor reads year 0 as 1900, which has no 29 February. *)
Lemma formatDate_leap_day_of_year_zero :
  isCalendarDate (js "0000-02-29") = true
  /\ dateRegex (js "0000-02-29") = true
  /\ regularZone utc = true
  /\ skipn 8 (js "0000-02-29") = js "29"
  /\ formatDate utc (js "0000-02-29") = Normal (js "Mar 01, 1900").
Proof. repeat split. Qed.

(** The condition on the time zone cannot be dropped either: Samoa skipped
    30 December 2011, and there the date is rendered as the 31st; every
    other day is kept in that zone too. *)
Example formatDate_skipped_day :
  isCalendarDate (js "2011-12-30") = true
  /\ orderedZone apia = true
  /\ keepsDay apia (civilDay 2011 12 30) = false
  /\ formatDate apia (js "2011-12-30") = Normal (js "Dec 31, 2011")
  /\ keepsDay apia (civilDay 2011 12 29) = true
  /\ keepsDay apia (civilDay 2011 12 31) = true.
Proof. repeat split. Qed.

(** The day that counts is the one the constructor is asked for: the year
    0093 is read as 1993, and Kwajalein skipped 21 August 1993, so that
    ["0093-08-21"] is rendered as the 22nd there, though the zone's clock
    did show the midnight of 21 August of the year 93. *)
Example formatDate_skipped_day_of_19yy :
  isCalendarDate (js "0093-08-21") = true
  /\ orderedZone kwajalein = true
  /\ GetNamedTimeZoneEpoch kwajalein (msPerDay * civilDay 93 8 21) <> []
  /\ keepsDay kwajalein (civilDay 1993 8 21) = false
  /\ formatDate kwajalein (js "0093-08-21") = Normal (js "Aug 22, 1993")
  /\ formatDate utc (js "0093-08-21") = Normal (js "Aug 21, 1993").
Proof. repeat split. discriminate. Qed.

(** C2.  [formatDate("2023-06-12")] is ["Jun 12, 2023"], in every host time
    zone that keeps the midnight starting 12 June 2023. *)
Theorem formatDate_2023_06_12 tz :
  keepsMidnight tz (civilDay 2023 6 12) = true ->
  formatDate tz (js "2023-06-12") = Normal (js "Jun 12, 2023").
Proof.
  intros Hk.
  destruct (formatDate_shaped tz (js "2023-06-12") 2023 6 12 eq_refl) as (Hf & _).
  rewrite (Hf Hk). f_equal.
Qed.

Lemma formatDate_2023_06_12_witness :
  formatDate apia (js "2023-06-12") = Normal (js "Jun 12, 2023").
Proof. apply formatDate_2023_06_12. reflexivity. Defined.

(** C9 (as amended).  For an input of the shape [dddd-dd-dd], whatever the
    ranges of its month and day, [formatDate] raises no error: it returns a
    string, as it does for every input.  In a host time zone with offsets
    under a day and transitions in order, the string is the rendering of the
    day that the Date constructor's overflow rule reaches (the year 00yy
    being read as 19yy) exactly when the zone does not skip that day; day 32
    of January is 1 February of the same year. *)
Theorem formatDate_rolls_over tz :
  (forall s, exists out, formatDate tz s = Normal out)
  /\ (forall s y m d,
        dateFields s = Some (y, m, d) -> orderedZone tz = true ->
        (formatDate tz s = Normal (shortDate (civilDay (fullYear y) m d))
         <-> keepsDay tz (civilDay (fullYear y) m d) = true))
  /\ (orderedZone tz = true -> keepsDay tz (civilDay 2023 1 32) = true ->
      civilDay 2023 1 32 = civilDay 2023 2 1
      /\ formatDate tz (js "2023-01-32") = Normal (js "Feb 01, 2023")).
Proof.
  assert (Hiff : forall s y m d,
        dateFields s = Some (y, m, d) -> orderedZone tz = true ->
        (formatDate tz s = Normal (shortDate (civilDay (fullYear y) m d))
         <-> keepsDay tz (civilDay (fullYear y) m d) = true)).
  { intros s y m d E Hz.
    destruct (formatDate_instant tz s y m d Hz E) as (Hf & Hn).
    rewrite keepsDay_eq, Hf. split.
    - intros [= H]. apply shortDate_near; [lia|now rewrite H].
    - now intros ->. }
  split; [apply formatDate_returns|]. split; [exact Hiff|].
  intros Hz Hk. split; [reflexivity|].
  now apply (Hiff (js "2023-01-32") 2023 1 32 eq_refl Hz).
Qed.

Lemma formatDate_rolls_over_witness :
  formatDate saoPaulo (js "2023-13-00") = Normal (js "Dec 31, 2023").
Proof.
  apply (proj2 (proj1 (proj2 (formatDate_rolls_over saoPaulo))
                  (js "2023-13-00") 2023 13 0 eq_refl eq_refl)).
  reflexivity.
Defined.

(** C9, as stated, fails: day 60 of November 2011 rolls over to 30 December
    2011, which Samoa skipped, and what is returned there is the rendering
    of the 31st. *)
Lemma formatDate_rolls_into_skipped_day :
  dateFields (js "2011-11-60") = Some (2011, 11, 60)
  /\ civilDay 2011 11 60 = civilDay 2011 12 30
  /\ shortDate (civilDay 2011 11 60) = js "Dec 30, 2011"
  /\ orderedZone apia = true
  /\ formatDate apia (js "2011-11-60") = Normal (js "Dec 31, 2011").
Proof. repeat split. Qed.

(** C10.  [formatDate] returns a string for every input string and every
    host time zone, and never throws; when the string has fewer than three
    pieces between dashes, or one of the first three is not numeric, the
    string returned is ["Invalid Date"]. *)
Theorem formatDate_total tz s :
  (exists out, formatDate tz s = Normal out)
  /\ (forall i, (i < 3)%nat ->
        nth_error (map Number (split (cu "-") s)) i = None
        \/ nth_error (map Number (split (cu "-") s)) i = Some NaN ->
        formatDate tz s = Normal (js "Invalid Date")).
Proof.
  split.
  - apply formatDate_returns.
  - intros i. apply formatDate_invalid.
Qed.

Lemma formatDate_total_witness :
  formatDate apia (js "hello") = Normal (js "Invalid Date")
  /\ formatDate apia (js "2023-06") = Normal (js "Invalid Date").
Proof.
  split.
  - apply (proj2 (formatDate_total apia (js "hello")) 0%nat); [lia|now right].
  - apply (proj2 (formatDate_total apia (js "2023-06")) 2%nat); [lia|now left].
Defined.

(* ===================================================================== *)
(** * The content collections: properties                                 *)
(* ===================================================================== *)

Section Collections.

Variable afterScheme : jsstring -> jsstring -> bool.
Variable parseJSON : jsstring -> option value.
Variable parseFrontmatter : jsstring -> option value.
Variable globMatch : string -> string -> jsstring -> bool.

(** C3.  The [date] field of a blog post passes validation exactly when it
    is a string in [YYYY-MM-DD] syntax that names a day of the calendar; a
    record whose date is ["2023-13-01"] fails validation. *)
Theorem blog_date_must_be_calendar_date :
  (forall v, (exists out, safeParse afterScheme (z.date z.string) v = Success out)
             <-> exists s, v = VString s /\ isCalendarDate s = true)
  /\ (forall fields out,
        safeParse afterScheme (schema blog) (VObject fields) = Success out ->
        exists s, getField (js "date") fields = VString s /\ isCalendarDate s = true)
  /\ (forall fields,
        getField (js "date") fields = VString (js "2023-13-01") ->
        exists issues,
          safeParse afterScheme (schema blog) (VObject fields) = Failure issues).
Proof.
  assert (Hblog : forall fields out,
        safeParse afterScheme (schema blog) (VObject fields) = Success out ->
        exists s, getField (js "date") fields = VString s /\ isCalendarDate s = true).
  { intros fields out H.
    destruct (safeParse_object_fields afterScheme _ _ _ H (js "date")
                (ZString (z.date z.string))) as [v Hv]; [simpl; auto|].
    apply parse_string_ok in Hv as (s & -> & _ & Hc). exists s. split; [reflexivity|].
    cbn [forallb checks z.date z.string app runCheck] in Hc.
    rewrite andb_true_r in Hc. now rewrite <- dateRegex_isCalendarDate. }
  split; [|split; [exact Hblog|]].
  - intros v. rewrite date_schema_accepts.
    split; intros (s & -> & H); exists s; (split; [reflexivity|]);
      [rewrite <- dateRegex_isCalendarDate|rewrite dateRegex_isCalendarDate]; exact H.
  - intros fields Hd. apply safeParse_Failure. intros out H.
    apply Hblog in H as (s & Hs & Hc). rewrite Hd in Hs. injection Hs as <-.
    discriminate Hc.
Qed.

(** C4 (as amended).  A blog post needs a [title] that is a string, and a
    project a [title] and a [description] that are strings: a record where
    one is missing or of another type fails validation.  Any string passes,
    the empty one included. *)
Theorem text_fields_must_be_strings :
  (forall fields out,
      safeParse afterScheme (schema blog) (VObject fields) = Success out ->
      exists s, getField (js "title") fields = VString s)
  /\ (forall fields out,
        safeParse afterScheme (schema projects) (VObject fields) = Success out ->
        exists t d, getField (js "title") fields = VString t
                    /\ getField (js "description") fields = VString d)
  /\ (forall s, safeParse afterScheme z.string (VString s) = Success (VString s)).
Proof.
  split; [|split].
  - intros fields out H. now apply blog_success_title_tags in H as [H _].
  - intros fields out H.
    pose proof (safeParse_object_fields afterScheme _ _ _ H) as Hf.
    destruct (Hf (js "title") (ZString z.string)) as [v Hv]; [simpl; auto|].
    destruct (Hf (js "description") (ZString z.string)) as [w Hw]; [simpl; auto|].
    apply parse_string_ok in Hv as (t & -> & _).
    apply parse_string_ok in Hw as (d & -> & _). eauto.
  - reflexivity.
Qed.

(** C5 (as amended).  The [repo] and [live] fields of a project pass
    validation only when they are strings on which the URL parser, given no
    base URL, does not fail; a record that is fine but for its [repo] fails
    with the one issue, an invalid URL at [repo].  The parser fails on every
    string that does not start with a scheme, so that what passes is an
    absolute URL, and on every [http], [https], [ws], [wss] or [ftp] URL
    with nothing where the host is due; a record whose [repo] is
    ["not-a-url"] fails validation.  It does not fail on every malformed
    URL: after those schemes, slashes and backslashes in any number, none
    included, are read alike. *)
Theorem url_fields_must_be_absolute_urls unicodeHost :
  (forall fields out key,
      safeParse (URL.afterSchemeState unicodeHost) (schema projects)
        (VObject fields)
      = Success out ->
      key = js "repo" \/ key = js "live" ->
      exists s, getField key fields = VString s
                /\ newURL unicodeHost s = true /\ hasScheme s)
  /\ (forall fields p,
        holdsProject fields p -> project_id p <> NaN ->
        newURL unicodeHost (project_live p) = true ->
        newURL unicodeHost (project_repo p) = false ->
        safeParse (URL.afterSchemeState unicodeHost) (schema projects)
          (VObject fields)
        = Failure [{| code := invalid_string kind_url;
                      path := [Key (js "repo")] |}])
  /\ (forall s, ~ hasScheme s -> newURL unicodeHost s = false)
  /\ (forall s scheme rest,
        In scheme hostSchemes -> cleanInput s = scheme ++ 58%N :: rest ->
        noHost rest = true -> newURL unicodeHost s = false)
  /\ (forall scheme slashes rest,
        In scheme hostSchemes -> forallb URL.isSlash slashes = true ->
        URL.afterSchemeState unicodeHost scheme (slashes ++ rest)
        = URL.afterSchemeState unicodeHost scheme rest)
  /\ (forall fields,
        getField (js "repo") fields = VString (js "not-a-url") ->
        exists issues,
          safeParse (URL.afterSchemeState unicodeHost) (schema projects)
            (VObject fields)
          = Failure issues).
Proof.
  assert (Hurl : forall fields out key,
      safeParse (URL.afterSchemeState unicodeHost) (schema projects)
        (VObject fields)
      = Success out ->
      key = js "repo" \/ key = js "live" ->
      exists s, getField key fields = VString s
                /\ newURL unicodeHost s = true /\ hasScheme s).
  { intros fields out key H Hk.
    destruct (safeParse_object_fields _ _ _ _ H key
                (ZString (z.url z.string))) as [v Hv];
      [destruct Hk as [-> | ->]; simpl; auto 10|].
    apply parse_string_ok in Hv as (s & -> & _ & Hc). exists s.
    cbn [forallb checks z.url z.string app runCheck] in Hc.
    rewrite andb_true_r in Hc.
    split; [reflexivity|]. split; [exact Hc|].
    now apply (basicURLParser_hasScheme (URL.afterSchemeState unicodeHost)). }
  split; [exact Hurl|]. split; [apply project_fails_on_repo|].
  split; [|split; [apply newURL_no_host|split; [apply afterSchemeState_slashes|]]].
  - intros s Hs. destruct (newURL unicodeHost s) eqn:E; [|reflexivity].
    destruct Hs.
    now apply (basicURLParser_hasScheme (URL.afterSchemeState unicodeHost)).
  - intros fields Hr. apply safeParse_Failure. intros out H.
    destruct (Hurl fields out (js "repo") H) as (s & Hs & Hp & _); [now left|].
    rewrite Hr in Hs. injection Hs as <-. discriminate Hp.
Qed.

(** C6.  A blog post without a [title], or whose [tags] are not an array of
    strings, fails validation, and a load of the blog collection that reads
    it fails. *)
Theorem blog_needs_title_and_string_tags fields :
  hasField (js "title") fields = false
  \/ isStringArray (getField (js "tags") fields) = false ->
  (exists issues,
      safeParse afterScheme (schema blog) (VObject fields) = Failure issues)
  /\ forall fs raw,
      rawEntries parseJSON parseFrontmatter globMatch (loader blog) fs = Some raw ->
      In (VObject fields) raw ->
      exists i issues,
        load afterScheme parseJSON parseFrontmatter globMatch blog fs
        = InvalidEntry i issues.
Proof.
  intros Hbad.
  assert (Hfail : exists issues,
             safeParse afterScheme (schema blog) (VObject fields) = Failure issues).
  { apply safeParse_Failure. intros out E.
    apply blog_success_title_tags in E as [[s Ht] Htags].
    destruct Hbad as [Hno|Hno].
    - apply hasField_false_getField in Hno. congruence.
    - congruence. }
  split; [exact Hfail|].
  intros fs raw Hraw Hin. unfold load. rewrite Hraw.
  eapply validateAll_invalid; eauto.
Qed.

(** C7.  A project whose six fields satisfy the schema passes validation,
    and the validated record holds those six fields with the values of the
    input (other keys of the input are dropped); a projects file of such
    records loads as the same records. *)
Theorem well_formed_project_round_trips :
  (forall fields p,
      holdsProject fields p -> wellFormedProject afterScheme p ->
      safeParse afterScheme (schema projects) (VObject fields)
      = Success (VObject (projectFields p)))
  /\ (forall fs ps,
        rawEntries parseJSON parseFrontmatter globMatch (loader projects) fs
        = Some (map (fun p => VObject (projectFields p)) ps) ->
        Forall (wellFormedProject afterScheme) ps ->
        load afterScheme parseJSON parseFrontmatter globMatch projects fs
        = Loaded (map (fun p => VObject (projectFields p)) ps)).
Proof.
  split; [apply project_parses|].
  intros fs ps Hraw Hall. unfold load. rewrite Hraw. clear Hraw.
  generalize 0%nat. induction Hall as [|p ps Hp Hall IH]; intros i; [reflexivity|].
  cbn [map validateAll].
  rewrite (project_parses afterScheme (projectFields p) p); [|intros key v Hin|exact Hp].
  - now rewrite IH.
  - cbn in Hin. repeat (destruct Hin as [[= <- <-]|Hin]; [reflexivity|]). destruct Hin.
Qed.

End Collections.

Lemma blog_date_must_be_calendar_date_witness :
  exists issues,
    safeParse acceptAll (schema blog)
      (VObject [(js "title", VString (js "Web Rendering"));
                (js "date", VString (js "2023-13-01"));
                (js "tags", VArray [])])
    = Failure issues.
Proof.
  apply (proj2 (proj2 (blog_date_must_be_calendar_date acceptAll))). reflexivity.
Defined.

(** C4, as stated, fails: a blog post with an empty title passes
    validation. *)
Lemma blog_accepts_empty_title :
  safeParse acceptAll (schema blog)
    (VObject [(js "title", VString []);
              (js "date", VString (js "2023-06-12"));
              (js "tags", VArray [VString (js "react")])])
  = Success
      (VObject [(js "title", VString []);
                (js "date", VString (js "2023-06-12"));
                (js "tags", VArray [VString (js "react")])]).
Proof. reflexivity. Qed.

Lemma text_fields_must_be_strings_witness :
  exists t d,
    getField (js "title") (projectFields sampleProject) = VString t
    /\ getField (js "description") (projectFields sampleProject) = VString d.
Proof.
  apply (proj1 (proj2 (text_fields_must_be_strings acceptAll))
           (projectFields sampleProject) (VObject (projectFields sampleProject))).
  reflexivity.
Defined.

(** A project that is fine but for its [repo], which has no scheme, or no
    host. *)
Lemma url_fields_must_be_absolute_urls_witness :
  safeParse (URL.afterSchemeState noIDNA) (schema projects)
    (VObject ((js "featured", VBoolean true)
              :: projectFields (brokenRepo "not-a-url")))
  = Failure [{| code := invalid_string kind_url; path := [Key (js "repo")] |}]
  /\ safeParse (URL.afterSchemeState noIDNA) (schema projects)
       (VObject (projectFields (brokenRepo "http://")))
     = Failure [{| code := invalid_string kind_url; path := [Key (js "repo")] |}].
Proof.
  split.
  - apply (proj1 (proj2 (url_fields_must_be_absolute_urls noIDNA))
             _ (brokenRepo "not-a-url")).
    + intros key v Hin. cbn in Hin.
      repeat (destruct Hin as [[= <- <-]|Hin]; [reflexivity|]). destruct Hin.
    + discriminate.
    + reflexivity.
    + reflexivity.
  - apply (proj1 (proj2 (url_fields_must_be_absolute_urls noIDNA))
             _ (brokenRepo "http://")).
    + intros key v Hin. cbn in Hin.
      repeat (destruct Hin as [[= <- <-]|Hin]; [reflexivity|]). destruct Hin.
    + discriminate.
    + reflexivity.
    + apply (proj1 (proj2 (proj2 (proj2 (url_fields_must_be_absolute_urls noIDNA))))
               (js "http://") (js "http") (js "//")); [cbn; auto|reflexivity..].
Defined.

(** C5, as stated, fails: a project whose [repo] is written with
    backslashes and a space, which no URL is, passes validation, whatever
    is made of domains outside ASCII. *)
Lemma projects_accept_malformed_urls :
  forallb isURLCharacter (js "https:\\github.com\Ruchita1010\3d monster") = false
  /\ safeParse (URL.afterSchemeState noIDNA) (schema projects)
       (VObject (projectFields
                   (brokenRepo "https:\\github.com\Ruchita1010\3d monster")))
     = Success
         (VObject (projectFields
                     (brokenRepo "https:\\github.com\Ruchita1010\3d monster")))
  /\ safeParse (URL.afterSchemeState anyIDNA) (schema projects)
       (VObject (projectFields
                   (brokenRepo "https:\\github.com\Ruchita1010\3d monster")))
     = Success
         (VObject (projectFields
                     (brokenRepo "https:\\github.com\Ruchita1010\3d monster"))).
Proof. repeat split. Qed.

(** What the parser fails on, and what it takes, whatever is made of
    domains outside ASCII. *)
Example newURL_rejects unicodeHost :
  Forall (fun s => newURL unicodeHost (js s) = false)
    ["not-a-url"; "//github.com/Ruchita1010"; "github.com/Ruchita1010";
     "http://"; "https:"; "https:///?tab=repositories";
     "https://exa mple.com"; "https://github.com:https/";
     "https://github.com:65536/"; "https://user@/Ruchita1010";
     "https://192.168.0.256/"; "https://[::1/"]%string.
Proof. repeat constructor. Qed.

Example newURL_accepts unicodeHost :
  Forall (fun s => newURL unicodeHost (js s) = true)
    ["https://github.com/Ruchita1010/3d-monster";
     "https://ruchita1010.github.io/3d-monster/";
     "https:github.com/Ruchita1010"; "HTTPS://GitHub.com";
     "https://github.com/Ruchita1010/3d monster";
     "http://localhost:4321/"; "https://[::1]:8080/";
     "mailto:ruchita@example.com"]%string.
Proof. repeat constructor. Qed.

Lemma blog_needs_title_and_string_tags_witness :
  exists issues,
    safeParse acceptAll (schema blog) (VObject untitledPost) = Failure issues.
Proof.
  apply (proj1 (blog_needs_title_and_string_tags acceptAll sampleJSON
                  (fun _ => None) (fun _ _ _ => false) untitledPost
                  (or_introl eq_refl))).
Defined.

Lemma well_formed_project_round_trips_witness :
  safeParse acceptAll (schema projects)
    (VObject ((js "featured", VBoolean true) :: projectFields sampleProject))
  = Success (VObject (projectFields sampleProject)).
Proof.
  apply (proj1 (well_formed_project_round_trips acceptAll sampleJSON
                  (fun _ => None) (fun _ _ _ => false))).
  - intros key v Hin. cbn in Hin.
    repeat (destruct Hin as [[= <- <-]|Hin]; [reflexivity|]). destruct Hin.
  - repeat split. discriminate.
Defined.

(* ===================================================================== *)
(** * The date helper: further properties                                 *)
(* ===================================================================== *)

(** X1.  The rendering does not depend on the host's time zone: for an
    input of the shape [dddd-dd-dd], two zones that both keep the midnight
    of the day meant return the same string.  This is what splitting the
    string, instead of parsing it as a UTC instant, is for. *)
Theorem formatDate_same_in_all_zones tz tz' s y m d :
  dateFields s = Some (y, m, d) ->
  keepsMidnight tz (civilDay (fullYear y) m d) = true ->
  keepsMidnight tz' (civilDay (fullYear y) m d) = true ->
  formatDate tz s = formatDate tz' s.
Proof.
  intros E H H'.
  destruct (formatDate_shaped tz s y m d E) as (Hf & _).
  destruct (formatDate_shaped tz' s y m d E) as (Hf' & _).
  now rewrite (Hf H), (Hf' H').
Qed.

Lemma formatDate_same_in_all_zones_witness :
  formatDate saoPaulo (js "2018-11-04") = formatDate apia (js "2018-11-04").
Proof.
  apply (formatDate_same_in_all_zones saoPaulo apia (js "2018-11-04") 2018 11 4);
    reflexivity.
Defined.

(** X2.  A year written [00yy] is rendered as the year [19yy]: in every
    time zone, the string returned is the one returned for the same month
    and day of [19yy]. *)
Theorem formatDate_two_digit_years tz s s' y m d :
  dateFields s = Some (y, m, d) -> y <= 99 ->
  dateFields s' = Some (1900 + y, m, d) ->
  formatDate tz s = formatDate tz s'.
Proof.
  intros E Hy E'.
  destruct (formatDate_on_fields tz s y m d E) as (Ry & _ & _ & ->).
  destruct (formatDate_on_fields tz s' (1900 + y) m d E') as (Ry' & _ & _ & ->).
  unfold newDate. rewrite !MakeFullYear_int by assumption.
  assert (fullYear y = fullYear (1900 + y)) as ->; [|reflexivity].
  unfold fullYear.
  destruct (Z.leb_spec 0 y); destruct (Z.leb_spec y 99);
    destruct (Z.leb_spec 0 (1900 + y)); destruct (Z.leb_spec (1900 + y) 99);
    cbn [andb]; lia.
Qed.

Lemma formatDate_two_digit_years_witness :
  formatDate kwajalein (js "0093-08-21") = formatDate kwajalein (js "1993-08-21").
Proof.
  apply (formatDate_two_digit_years kwajalein (js "0093-08-21") (js "1993-08-21")
           93 8 21); [reflexivity|lia|reflexivity].
Defined.

(** X3.  The pieces need not have four, two and two digits: two strings
    whose three pieces are non-empty runs of digits that write the same
    three numbers, with or without zeros in front, are rendered alike, in
    every time zone. *)
Theorem formatDate_reads_digit_runs tz ys ms ds ys' ms' ds' :
  isDigits ys = true -> isDigits ms = true -> isDigits ds = true ->
  isDigits ys' = true -> isDigits ms' = true -> isDigits ds' = true ->
  digitsToZ ys = digitsToZ ys' -> digitsToZ ms = digitsToZ ms' ->
  digitsToZ ds = digitsToZ ds' ->
  formatDate tz (ys ++ js "-" ++ ms ++ js "-" ++ ds)
  = formatDate tz (ys' ++ js "-" ++ ms' ++ js "-" ++ ds').
Proof.
  intros Hy Hm Hd Hy' Hm' Hd' Ey Em Ed. unfold formatDate.
  rewrite !split_three by now apply isDigits_noDash.
  cbn [map]. rewrite !Number_digits by assumption.
  now rewrite Ey, Em, Ed.
Qed.

Lemma formatDate_reads_digit_runs_witness :
  formatDate apia (js "2011" ++ js "-" ++ js "12" ++ js "-" ++ js "030")
  = formatDate apia (js "02011" ++ js "-" ++ js "012" ++ js "-" ++ js "30").
Proof.
  apply (formatDate_reads_digit_runs apia (js "2011") (js "12") (js "030")
           (js "02011") (js "012") (js "30")); reflexivity.
Defined.

(** X4.  White space around a piece is not seen: blanks before and after
    each of the three pieces change nothing in what is returned. *)
Theorem formatDate_ignores_blanks tz a b c w1 w2 w3 w4 w5 w6 :
  noDash a = true -> noDash b = true -> noDash c = true ->
  isBlank (w1 ++ w2 ++ w3 ++ w4 ++ w5 ++ w6) = true ->
  formatDate tz
    ((w1 ++ a ++ w2) ++ js "-" ++ (w3 ++ b ++ w4) ++ js "-" ++ (w5 ++ c ++ w6))
  = formatDate tz (a ++ js "-" ++ b ++ js "-" ++ c).
Proof.
  intros Ha Hb Hc Hw. unfold isBlank in Hw. rewrite !forallb_app in Hw.
  repeat match type of Hw with
         | _ && _ = true =>
             let H := fresh "B" in apply andb_true_iff in Hw as [H Hw]
         end.
  unfold formatDate.
  rewrite !split_three;
    try assumption;
    try (rewrite !noDash_app; repeat (apply andb_true_iff; split);
         first [assumption | now apply isBlank_noDash]).
  cbn [map]. now rewrite !Number_pad.
Qed.

Lemma formatDate_ignores_blanks_witness :
  formatDate utc
    ((js " " ++ js "2023" ++ js " ") ++ js "-" ++ (js " " ++ js "06" ++ [])
     ++ js "-" ++ ([] ++ js "12" ++ [10%N]))
  = formatDate utc (js "2023" ++ js "-" ++ js "06" ++ js "-" ++ js "12").
Proof.
  apply (formatDate_ignores_blanks utc (js "2023") (js "06") (js "12")
           (js " ") (js " ") (js " ") [] [] [10%N]); reflexivity.
Defined.

(** X5.  Only the first three pieces are read: whatever follows a third
    dash changes nothing in what is returned. *)
Theorem formatDate_ignores_later_pieces tz a b c rest :
  noDash a = true -> noDash b = true -> noDash c = true ->
  formatDate tz (a ++ js "-" ++ b ++ js "-" ++ c ++ js "-" ++ rest)
  = formatDate tz (a ++ js "-" ++ b ++ js "-" ++ c).
Proof.
  intros Ha Hb Hc. unfold formatDate.
  rewrite split_four, split_three by assumption. reflexivity.
Qed.

Lemma formatDate_ignores_later_pieces_witness :
  formatDate utc
    (js "2023" ++ js "-" ++ js "06" ++ js "-" ++ js "12" ++ js "-" ++ js "draft-2")
  = formatDate utc (js "2023" ++ js "-" ++ js "06" ++ js "-" ++ js "12").
Proof.
  apply (formatDate_ignores_later_pieces utc (js "2023") (js "06") (js "12")
           (js "draft-2")); reflexivity.
Defined.

(** X6.  Text after the day makes the date invalid: a string of the shape
    [dddd-dd-dd] followed by a character that cannot continue a number, and
    by anything after it, is rendered as ["Invalid Date"]; an ISO date-time
    such as [2023-06-12T10:30:00] is an instance. *)
Theorem formatDate_rejects_trailing_text tz s y m d x rest :
  dateFields s = Some (y, m, d) -> endsLiteral x = true ->
  formatDate tz (s ++ x :: rest) = Normal (js "Invalid Date").
Proof.
  intros E Hx.
  apply dateFields_shape in E
    as (y0 & y1 & y2 & y3 & m0 & m1 & d0 & d1 & -> & D & _).
  cbn [forallb] in D. rewrite !andb_true_iff in D.
  destruct D as (D0 & D1 & D2 & D3 & D4 & D5 & D6 & D7 & _).
  assert (Hdash : N.eqb x 45 = false).
  { unfold endsLiteral in Hx. apply negb_true_iff in Hx.
    rewrite !orb_false_iff in Hx. now destruct Hx as (_ & Hx). }
  apply (formatDate_invalid tz _ 2%nat); [lia|right].
  change ([y0; y1; y2; y3; 45%N; m0; m1; 45%N; d0; d1] ++ x :: rest)
    with ([y0; y1; y2; y3] ++ 45%N :: [m0; m1] ++ 45%N :: [d0; d1; x] ++ rest).
  change (cu "-") with 45%N.
  rewrite !split_piece
    by (cbn [forallb]; now rewrite ?isDigit_not_dash by assumption).
  destruct (split_head 45 [d0; d1; x] rest) as (p & ps & ->).
  { cbn [forallb]. now rewrite !isDigit_not_dash, Hdash by assumption. }
  cbn [map nth_error app]. f_equal. now apply Number_trailing.
Qed.

Lemma formatDate_rejects_trailing_text_witness :
  formatDate apia (js "2023-06-12" ++ cu "T" :: js "10:30:00-05:00")
  = Normal (js "Invalid Date").
Proof.
  apply (formatDate_rejects_trailing_text apia (js "2023-06-12") 2023 6 12);
    reflexivity.
Defined.

(** X7.  Whatever the input and the time zone data, what [formatDate]
    returns is ["Invalid Date"] or the rendering of a day that exists: a
    month abbreviation, a day on two digits within the length of that month
    in that year, and the year. *)
Theorem formatDate_prints_a_calendar_day tz s :
  formatDate tz s = Normal (js "Invalid Date")
  \/ exists y m d,
       isValidDate y m d = true
       /\ formatDate tz s
          = Normal (monthName false (m - 1) ++ js " " ++ twoDigits d ++ js ", "
                    ++ decimal (yearOfEra y)).
Proof.
  rewrite formatDate_unfold. cbv zeta.
  destruct (newDate tz _ _ _) as [| |x]; [now left|now left|right].
  set (t := LocalTime tz (truncate x)).
  exists (YearFromTime t), (MonthFromTime t + 1), (DateFromTime t).
  split; [apply fields_are_valid|].
  rewrite FormatDateTime_fields. cbv zeta. fold t.
  now rewrite Z.add_simpl_r.
Qed.

(** X8.  In a zone whose offsets are under a day and whose transitions are
    in order, an input of the shape [dddd-dd-dd] is never rendered as
    ["Invalid Date"]: what is returned is the rendering of a day at most
    two days before and one day after the day meant, even where the clock
    skips that day altogether. *)
Theorem formatDate_never_invalid_on_dates tz s y m d :
  orderedZone tz = true -> dateFields s = Some (y, m, d) ->
  exists n,
    civilDay (fullYear y) m d - 2 <= n <= civilDay (fullYear y) m d + 1
    /\ formatDate tz s = Normal (shortDate n)
    /\ shortDate n <> js "Invalid Date".
Proof.
  intros Hz H. destruct (formatDate_ordered tz s y m d Hz H) as (n & Hn & E).
  exists n. split; [exact Hn|]. split; [exact E|].
  apply FormatDateTime_not_invalid.
Qed.

Lemma formatDate_never_invalid_on_dates_witness :
  exists n,
    civilDay 2011 12 30 - 2 <= n <= civilDay 2011 12 30 + 1
    /\ formatDate apia (js "2011-12-30") = Normal (shortDate n)
    /\ shortDate n <> js "Invalid Date".
Proof.
  apply (formatDate_never_invalid_on_dates apia (js "2011-12-30") 2011 12 30);
    reflexivity.
Defined.

(** X9.  From the year 100 on, two calendar dates are rendered alike only
    when they are the same string: in a regular zone [formatDate] is
    injective on the valid dates whose year is at least 0100. *)
Theorem formatDate_distinguishes_dates tz s s' y m d y' m' d' :
  regularZone tz = true ->
  isCalendarDate s = true -> dateFields s = Some (y, m, d) -> 100 <= y ->
  isCalendarDate s' = true -> dateFields s' = Some (y', m', d') -> 100 <= y' ->
  formatDate tz s = formatDate tz s' -> s = s'.
Proof.
  intros Hz V E Hy V' E' Hy' H.
  assert (Hk : forall n, keepsMidnight tz n = true)
    by (intros n; unfold keepsMidnight; now rewrite Hz).
  unfold isCalendarDate in V, V'. rewrite E in V. rewrite E' in V'.
  destruct (formatDate_shaped tz s y m d E) as (Hf & Ry & Rm & Rd & Td).
  destruct (formatDate_shaped tz s' y' m' d' E') as (Hf' & Ry' & Rm' & Rd' & Td').
  assert (fullYear y = y) as Ey
    by (unfold fullYear; destruct (Z.leb_spec 0 y); destruct (Z.leb_spec y 99);
        cbn [andb]; lia).
  assert (fullYear y' = y') as Ey'
    by (unfold fullYear; destruct (Z.leb_spec 0 y'); destruct (Z.leb_spec y' 99);
        cbn [andb]; lia).
  rewrite (Hf (Hk _)), (Hf' (Hk _)), Ey, Ey' in H.
  rewrite !shortDate_valid in H by assumption.
  injection H as H.
  assert (Hm : 1 <= m <= 12 /\ 1 <= m' <= 12).
  { unfold isValidDate in V, V'. split_andb.
    repeat match goal with
           | H : (_ <=? _) = true |- _ => apply Z.leb_le in H
           end. lia. }
  apply monthName_inj in H as (Em & H); [|lia|lia].
  assert (m' = m) by lia. subst m'.
  rewrite Td, Td' in H.
  apply dateFields_shape in E
    as (y0 & y1 & y2 & y3 & m0 & m1 & d0 & d1 & -> & D & Ey0 & Em0 & Ed0).
  apply dateFields_shape in E'
    as (z0 & z1 & z2 & z3 & n0 & n1 & e0 & e1 & -> & D' & Ey1 & Em1 & Ed1).
  cbn [skipn] in H. change (js " ") with [32%N] in H.
  change (js ", ") with [44%N; 32%N] in H.
  cbn [app] in H. injection H as -> -> H.
  apply decimal_inj in H; [|lia|lia].
  cbn [forallb] in D, D'. rewrite !andb_true_iff in D, D'.
  destruct (digits4_inj y0 y1 y2 y3 z0 z1 z2 z3) as (-> & -> & -> & ->);
    [cbn [forallb]; rewrite !andb_true_iff; tauto
    |transitivity y; [symmetry; exact Ey0|rewrite H; exact Ey1]|].
  destruct (digits2_inj m0 m1 n0 n1) as (-> & ->);
    [cbn [forallb]; rewrite !andb_true_iff; tauto
    |transitivity m; [symmetry; exact Em0|exact Em1]|].
  reflexivity.
Qed.

Lemma formatDate_distinguishes_dates_witness :
  js "2026-01-31" = js "2026-01-31".
Proof.
  apply (formatDate_distinguishes_dates saoPaulo (js "2026-01-31") (js "2026-01-31")
           2026 1 31 2026 1 31);
    first [reflexivity | lia].
Defined.

(* ===================================================================== *)
(** * The content collections: further properties                         *)
(* ===================================================================== *)

Section Records.

Variable afterScheme : jsstring -> jsstring -> bool.

(** X10.  Validation of a blog post succeeds exactly when its title is a
    string, its date a calendar date and its tags an array of strings, and
    what it returns is then the record of those three keys with the values
    of the input: nothing is converted or filled in, and every other key of
    the frontmatter is left out. *)
Theorem blog_post_validates_iff fields out :
  safeParse afterScheme (schema blog) (VObject fields) = Success out
  <-> isBlogPost fields = true
      /\ out = VObject (pick (keysOf (schema blog)) fields).
Proof.
  unfold blog, z.object. cbn [schema map fst snd keysOf].
  rewrite (safeParse_flat afterScheme _ _ _ (blog_flat afterScheme fields)).
  unfold isBlogPost. rewrite !Forall_cons_iff. cbn [fst snd].
  rewrite !issues_text, issues_tags, !andb_true_iff.
  cbn [checks z.string z.date app].
  split.
  - intros ((H1 & H2 & H3 & _) & ->). split; [|reflexivity].
    destruct (getField (js "title") fields); try discriminate H1.
    destruct (getField (js "date") fields); try discriminate H2.
    cbn [passes forallb runCheck] in H2.
    rewrite andb_true_r, dateRegex_isCalendarDate in H2. auto.
  - intros (((H1 & H2) & H3) & ->). split; [|reflexivity].
    destruct (getField (js "title") fields); try discriminate H1.
    destruct (getField (js "date") fields); try discriminate H2.
    cbn [passes forallb runCheck]. rewrite andb_true_r, dateRegex_isCalendarDate.
    repeat split; auto.
Qed.

(** X11.  Validation of a project succeeds exactly when its id is a number
    (not NaN), its title, description and image path are strings and its
    two links are strings that the URL parser accepts, and what it returns
    is then the record of those six keys with the values of the input. *)
Theorem project_validates_iff fields out :
  safeParse afterScheme (schema projects) (VObject fields) = Success out
  <-> isProject afterScheme fields = true
      /\ out = VObject (pick (keysOf (schema projects)) fields).
Proof.
  unfold projects, z.object. cbn [schema map fst snd keysOf].
  rewrite (safeParse_flat afterScheme _ _ _ (projects_flat afterScheme fields)).
  unfold isProject. rewrite !Forall_cons_iff. cbn [fst snd].
  rewrite !issues_text, issues_number, !andb_true_iff.
  cbn [checks z.string z.url app].
  split.
  - intros ((H1 & H2 & H3 & H4 & H5 & H6 & _) & ->). split; [|reflexivity].
    destruct (getField (js "title") fields); try discriminate H2.
    destruct (getField (js "description") fields); try discriminate H3.
    destruct (getField (js "imagePath") fields); try discriminate H4.
    destruct (getField (js "repo") fields); try discriminate H5.
    destruct (getField (js "live") fields); try discriminate H6.
    cbn [passes forallb runCheck] in H5, H6. rewrite andb_true_r in H5, H6.
    repeat split; auto.
  - intros ((((((H1 & H2) & H3) & H4) & H5) & H6) & ->). split; [|reflexivity].
    destruct (getField (js "title") fields); try discriminate H2.
    destruct (getField (js "description") fields); try discriminate H3.
    destruct (getField (js "imagePath") fields); try discriminate H4.
    destruct (getField (js "repo") fields); try discriminate H5.
    destruct (getField (js "live") fields); try discriminate H6.
    cbn [passes forallb runCheck]. rewrite !andb_true_r.
    repeat split; auto.
Qed.

(** X12.  Validation reads the keys of the schema and nothing else: two
    records that agree on them get the same result, the same validated
    record or the same issues, whatever other keys they hold and in
    whatever order. *)
Theorem validation_reads_schema_keys_only name c fields fields' :
  In (name, c) collections ->
  (forall key, In key (keysOf (schema c)) ->
     getField key fields = getField key fields') ->
  safeParse afterScheme (schema c) (VObject fields)
  = safeParse afterScheme (schema c) (VObject fields').
Proof.
  intros Hc H. destruct (collections_flat afterScheme name c Hc) as (shape & E & _).
  rewrite E in *. now apply safeParse_agree.
Qed.

(** X13.  Validation is idempotent: a validated record passes validation
    again and comes back unchanged. *)
Theorem validation_is_idempotent name c v out :
  In (name, c) collections ->
  safeParse afterScheme (schema c) v = Success out ->
  safeParse afterScheme (schema c) out = Success out.
Proof.
  intros Hc H.
  destruct (collections_flat afterScheme name c Hc) as (shape & E & Hflat).
  rewrite E in *.
  destruct v as [| | | | | |fields]; try discriminate H.
  pose proof (proj1 (safeParse_flat afterScheme shape fields out (Hflat fields)) H)
    as (_ & Hout).
  rewrite <- H. rewrite Hout at 1. apply safeParse_agree.
  intros key Hk. now apply getField_pick.
Qed.

(** X14.  The URL check does not see spaces and control characters at the
    two ends of the string: a link passes with them exactly when it passes
    without them, and the validated value keeps them. *)
Theorem url_check_ignores_surrounding_blanks w s w' :
  forallb isC0ControlOrSpace w = true -> forallb isC0ControlOrSpace w' = true ->
  safeParse afterScheme (z.url z.string) (VString (w ++ s ++ w'))
  = match safeParse afterScheme (z.url z.string) (VString s) with
    | Success _ => Success (VString (w ++ s ++ w'))
    | Failure issues => Failure issues
    end.
Proof.
  intros Hw Hw'. unfold safeParse.
  cbn [_parse checks z.url z.string app flat_map runCheck].
  unfold basicURLParser. rewrite cleanInput_pad by assumption.
  destruct (cleanInput s) as [|c rest]; [reflexivity|].
  destruct (isAlpha c); [|reflexivity].
  destruct (schemeState [toLower c] rest) as [[scheme rest']|]; [|reflexivity].
  destruct (afterScheme scheme rest'); reflexivity.
Qed.

(** X15.  The two halves fit: the date of a blog post that passed
    validation, read from the validated record, is never rendered as
    ["Invalid Date"] by [formatDate], in any zone whose offsets are under a
    day and whose transitions are in order. *)
Theorem validated_post_date_is_rendered tz fields data :
  orderedZone tz = true ->
  safeParse afterScheme (schema blog) (VObject fields) = Success (VObject data) ->
  exists s n,
    getField (js "date") data = VString s
    /\ formatDate tz s = Normal (shortDate n)
    /\ shortDate n <> js "Invalid Date".
Proof.
  intros Hz H. unfold blog, z.object in H. cbn [schema map fst snd] in H.
  apply (safeParse_flat afterScheme _ _ _ (blog_flat afterScheme fields)) in H
    as (Hall & [= ->]).
  rewrite !Forall_cons_iff in Hall. destruct Hall as (_ & Hd & _).
  cbn [fst snd] in Hd. apply issues_text in Hd.
  destruct (getField (js "date") fields) as [| | | |s| |]; try discriminate Hd.
  cbn [passes checks z.date z.string app forallb runCheck] in Hd.
  rewrite andb_true_r, dateRegex_isCalendarDate in Hd.
  unfold isCalendarDate in Hd.
  destruct (dateFields s) as [[[y m] d]|] eqn:E; [|discriminate Hd].
  destruct (formatDate_ordered tz s y m d Hz E) as (n & _ & Hn).
  exists s, n. split; [reflexivity|]. split; [exact Hn|].
  apply FormatDateTime_not_invalid.
Qed.

End Records.

Lemma blog_post_validates_iff_witness :
  safeParse acceptAll (schema blog) (VObject conceptToScene)
  = Success (VObject (firstn 3 conceptToScene)).
Proof.
  apply (proj2 (blog_post_validates_iff acceptAll conceptToScene
                  (VObject (firstn 3 conceptToScene)))).
  split; reflexivity.
Defined.

Lemma project_validates_iff_witness :
  safeParse acceptAll (schema projects)
    (VObject ((js "featured", VBoolean true) :: projectFields sampleProject))
  = Success (VObject (projectFields sampleProject)).
Proof.
  apply (proj2 (project_validates_iff acceptAll
                  ((js "featured", VBoolean true) :: projectFields sampleProject)
                  (VObject (projectFields sampleProject)))).
  split; reflexivity.
Defined.

Lemma validation_reads_schema_keys_only_witness :
  safeParse acceptAll (schema blog) (VObject webRendering)
  = safeParse acceptAll (schema blog) (VObject (rev (firstn 3 webRendering))).
Proof.
  apply (validation_reads_schema_keys_only acceptAll "blog"%string blog);
    [now left|].
  intros key Hk. cbn in Hk.
  repeat (destruct Hk as [<-|Hk]; [reflexivity|]). destruct Hk.
Defined.

Lemma validation_is_idempotent_witness :
  safeParse acceptAll (schema projects) (VObject (projectFields sampleProject))
  = Success (VObject (projectFields sampleProject)).
Proof.
  apply (validation_is_idempotent acceptAll "projects"%string projects
           (VObject ((js "featured", VBoolean true) :: projectFields sampleProject)));
    [right; now left|reflexivity].
Defined.

Lemma url_check_ignores_surrounding_blanks_witness :
  safeParse acceptAll (z.url z.string)
    (VString (js " " ++ js "https://github.com/Ruchita1010/3d-monster" ++ [10%N]))
  = Success
      (VString (js " " ++ js "https://github.com/Ruchita1010/3d-monster" ++ [10%N])).
Proof.
  apply (url_check_ignores_surrounding_blanks acceptAll (js " ")
           (js "https://github.com/Ruchita1010/3d-monster") [10%N]); reflexivity.
Defined.

Lemma validated_post_date_is_rendered_witness :
  exists s n,
    getField (js "date") (firstn 3 conceptToScene) = VString s
    /\ formatDate apia s = Normal (shortDate n)
    /\ shortDate n <> js "Invalid Date".
Proof.
  apply (validated_post_date_is_rendered acceptAll apia conceptToScene
           (firstn 3 conceptToScene)); reflexivity.
Defined.
